(** * MyPitch: the range-capture state machine and the recommendation merge

    A shallow embedding of the TypeScript front end of MyPitch
    (the redesigned [App], and the earlier [src/App.tsx]) together with the
    properties its specification states about it.

    Numbers.  JavaScript numbers are modelled as rationals [Q]: every finite
    double is a rational, comparisons are exact, and the arithmetic of the
    program ([+], [-], [*], [/], [Math.abs], [Math.max], [Math.min],
    [Math.round]) is taken without rounding error.  [NaN] and the infinities
    are left out, except where the program tests for them
    ([Number.isFinite] in the polling tick).  Timestamps come from
    [Date.now()] and are integers, modelled as [Z].  [Math.log2] is a
    primitive of the platform, not of the program: the development is
    parametric in it (Section variable [log2]) and [log2_dyadic] is supplied
    to run the machine on concrete frequencies of the form [440 * 2^k].
    The concrete runs keep every comparison far from its threshold, so that
    the rounding of doubles cannot change a branch taken.

    State.  The React refs ([xxxRef.current]) and the React state cells
    ([useState]) written by the capture logic are fields of one record,
    threaded explicitly; a [setX(v)] is the update of field [X]. *)

From Stdlib Require Import QArith Qabs Qminmax Qround ZArith List String Bool Lia Lqa.
From Stdlib Require Import Permutation Sorted.
From Stdlib Require Import Ascii DecimalString DecimalZ DecimalNat.
Import ListNotations.

Local Open Scope Q_scope.

(** ** Numbers *)

Definition Qlt_bool (a b : Q) : bool := negb (Qle_bool b a).

(** [Math.round]: the nearest integer, halves going up. *)
Definition Math_round (x : Q) : Z := Qfloor (x + 0.5).

(** ** Constants (identical in both versions of the application) *)

Definition CONFIDENCE_THRESHOLD : Q := 0.12.
Definition CONFIDENCE_PASS_THRESHOLD : Q := 0.55.
Definition CONFIDENCE_PASS_MS : Z := 250.
Definition RMS_THRESHOLD : Q := 0.001.
Definition STABLE_REQUIRED_MS : Z := 600.
Definition STABLE_NOTE_DELTA : Q := 2.
Definition LEVEL_GAIN : Q := 12.
Definition SILENCE_RESET_MS : Z := 200.
Definition HIGH_STAGE_MIN_DELAY_MS : Z := 200.
Definition HIGH_NOTE_MIN_SEMITONES : Q := 0.5.

(** ** [median] *)

(** [[...values].sort((a, b) => a - b)]: ascending, stable. *)
Fixpoint insert_sorted (x : Q) (l : list Q) : list Q :=
  match l with
  | [] => [x]
  | y :: l' => if Qle_bool x y then x :: y :: l' else y :: insert_sorted x l'
  end.

Fixpoint sort_asc (l : list Q) : list Q :=
  match l with
  | [] => []
  | x :: l' => insert_sorted x (sort_asc l')
  end.

Definition median (values : list Q) : Q :=
  match values with
  | [] => 0
  | _ =>
    let sorted := sort_asc values in
    let mid := Nat.div (List.length sorted) 2 in
    if Nat.eqb (Nat.modulo (List.length sorted) 2) 0
    then (nth (mid - 1) sorted 0 + nth mid sorted 0) / 2
    else nth mid sorted 0
  end.

(** ** Data model *)

Inductive TestStage := idle | capture_low | capture_high | done.

Definition TestStage_eqb (a b : TestStage) : bool :=
  match a, b with
  | idle, idle | capture_low, capture_low
  | capture_high, capture_high | done, done => true
  | _, _ => false
  end.

Inductive SampleState := sample_idle | sample_valid | sample_invalid.

Record PitchData := mkPitch {
  frequency_hz : option Q;
  confidence : Q;
  note_name : option string;
  cents_offset : option Q
}.

Record RangeResult := mkRange {
  lowMidi : option Q;
  highMidi : option Q;
  comfortLowMidi : option Q;
  comfortHighMidi : option Q
}.

Record FastPass := mkFastPass {
  fp_stage : option TestStage;
  fp_startAt : option Z
}.

Record Stability := mkStability {
  startAt : option Z;
  lastValidAt : option Z;
  samples : list Q
}.

(** The refs and state cells of [App] that the capture logic touches. *)
Record Capture := mkCapture {
  stageRef : TestStage;
  fastPassRef : FastPass;
  stageEnteredAtRef : Z;
  waitForSilenceBeforeHighRef : bool;
  silenceStartRef : option Z;
  stableRef : Stability;
  lastGoodPitchRef : option Q;
  stableHistoryRef : list Q;
  lowMidiRef : option Q;
  highMidiRef : option Q;
  testStage : TestStage;
  testInstruction : string;
  stabilityMs : Z;
  sampleState : SampleState;
  awaitingResultStep : bool;
  rangeResult : RangeResult
}.

(** Field updates, one per ref or state cell. *)
Definition set_stageRef v (c : Capture) :=
  mkCapture v (fastPassRef c) (stageEnteredAtRef c) (waitForSilenceBeforeHighRef c)
    (silenceStartRef c) (stableRef c) (lastGoodPitchRef c) (stableHistoryRef c)
    (lowMidiRef c) (highMidiRef c) (testStage c) (testInstruction c) (stabilityMs c)
    (sampleState c) (awaitingResultStep c) (rangeResult c).
Definition set_fastPassRef v (c : Capture) :=
  mkCapture (stageRef c) v (stageEnteredAtRef c) (waitForSilenceBeforeHighRef c)
    (silenceStartRef c) (stableRef c) (lastGoodPitchRef c) (stableHistoryRef c)
    (lowMidiRef c) (highMidiRef c) (testStage c) (testInstruction c) (stabilityMs c)
    (sampleState c) (awaitingResultStep c) (rangeResult c).
Definition set_stageEnteredAtRef v (c : Capture) :=
  mkCapture (stageRef c) (fastPassRef c) v (waitForSilenceBeforeHighRef c)
    (silenceStartRef c) (stableRef c) (lastGoodPitchRef c) (stableHistoryRef c)
    (lowMidiRef c) (highMidiRef c) (testStage c) (testInstruction c) (stabilityMs c)
    (sampleState c) (awaitingResultStep c) (rangeResult c).
Definition set_waitForSilenceBeforeHighRef v (c : Capture) :=
  mkCapture (stageRef c) (fastPassRef c) (stageEnteredAtRef c) v
    (silenceStartRef c) (stableRef c) (lastGoodPitchRef c) (stableHistoryRef c)
    (lowMidiRef c) (highMidiRef c) (testStage c) (testInstruction c) (stabilityMs c)
    (sampleState c) (awaitingResultStep c) (rangeResult c).
Definition set_silenceStartRef v (c : Capture) :=
  mkCapture (stageRef c) (fastPassRef c) (stageEnteredAtRef c) (waitForSilenceBeforeHighRef c)
    v (stableRef c) (lastGoodPitchRef c) (stableHistoryRef c)
    (lowMidiRef c) (highMidiRef c) (testStage c) (testInstruction c) (stabilityMs c)
    (sampleState c) (awaitingResultStep c) (rangeResult c).
Definition set_stableRef v (c : Capture) :=
  mkCapture (stageRef c) (fastPassRef c) (stageEnteredAtRef c) (waitForSilenceBeforeHighRef c)
    (silenceStartRef c) v (lastGoodPitchRef c) (stableHistoryRef c)
    (lowMidiRef c) (highMidiRef c) (testStage c) (testInstruction c) (stabilityMs c)
    (sampleState c) (awaitingResultStep c) (rangeResult c).
Definition set_lastGoodPitchRef v (c : Capture) :=
  mkCapture (stageRef c) (fastPassRef c) (stageEnteredAtRef c) (waitForSilenceBeforeHighRef c)
    (silenceStartRef c) (stableRef c) v (stableHistoryRef c)
    (lowMidiRef c) (highMidiRef c) (testStage c) (testInstruction c) (stabilityMs c)
    (sampleState c) (awaitingResultStep c) (rangeResult c).
Definition set_stableHistoryRef v (c : Capture) :=
  mkCapture (stageRef c) (fastPassRef c) (stageEnteredAtRef c) (waitForSilenceBeforeHighRef c)
    (silenceStartRef c) (stableRef c) (lastGoodPitchRef c) v
    (lowMidiRef c) (highMidiRef c) (testStage c) (testInstruction c) (stabilityMs c)
    (sampleState c) (awaitingResultStep c) (rangeResult c).
Definition set_lowMidiRef v (c : Capture) :=
  mkCapture (stageRef c) (fastPassRef c) (stageEnteredAtRef c) (waitForSilenceBeforeHighRef c)
    (silenceStartRef c) (stableRef c) (lastGoodPitchRef c) (stableHistoryRef c)
    v (highMidiRef c) (testStage c) (testInstruction c) (stabilityMs c)
    (sampleState c) (awaitingResultStep c) (rangeResult c).
Definition set_highMidiRef v (c : Capture) :=
  mkCapture (stageRef c) (fastPassRef c) (stageEnteredAtRef c) (waitForSilenceBeforeHighRef c)
    (silenceStartRef c) (stableRef c) (lastGoodPitchRef c) (stableHistoryRef c)
    (lowMidiRef c) v (testStage c) (testInstruction c) (stabilityMs c)
    (sampleState c) (awaitingResultStep c) (rangeResult c).
Definition setTestStage v (c : Capture) :=
  mkCapture (stageRef c) (fastPassRef c) (stageEnteredAtRef c) (waitForSilenceBeforeHighRef c)
    (silenceStartRef c) (stableRef c) (lastGoodPitchRef c) (stableHistoryRef c)
    (lowMidiRef c) (highMidiRef c) v (testInstruction c) (stabilityMs c)
    (sampleState c) (awaitingResultStep c) (rangeResult c).
Definition setTestInstruction v (c : Capture) :=
  mkCapture (stageRef c) (fastPassRef c) (stageEnteredAtRef c) (waitForSilenceBeforeHighRef c)
    (silenceStartRef c) (stableRef c) (lastGoodPitchRef c) (stableHistoryRef c)
    (lowMidiRef c) (highMidiRef c) (testStage c) v (stabilityMs c)
    (sampleState c) (awaitingResultStep c) (rangeResult c).
Definition setStabilityMs v (c : Capture) :=
  mkCapture (stageRef c) (fastPassRef c) (stageEnteredAtRef c) (waitForSilenceBeforeHighRef c)
    (silenceStartRef c) (stableRef c) (lastGoodPitchRef c) (stableHistoryRef c)
    (lowMidiRef c) (highMidiRef c) (testStage c) (testInstruction c) v
    (sampleState c) (awaitingResultStep c) (rangeResult c).
Definition setSampleState v (c : Capture) :=
  mkCapture (stageRef c) (fastPassRef c) (stageEnteredAtRef c) (waitForSilenceBeforeHighRef c)
    (silenceStartRef c) (stableRef c) (lastGoodPitchRef c) (stableHistoryRef c)
    (lowMidiRef c) (highMidiRef c) (testStage c) (testInstruction c) (stabilityMs c)
    v (awaitingResultStep c) (rangeResult c).
Definition setAwaitingResultStep v (c : Capture) :=
  mkCapture (stageRef c) (fastPassRef c) (stageEnteredAtRef c) (waitForSilenceBeforeHighRef c)
    (silenceStartRef c) (stableRef c) (lastGoodPitchRef c) (stableHistoryRef c)
    (lowMidiRef c) (highMidiRef c) (testStage c) (testInstruction c) (stabilityMs c)
    (sampleState c) v (rangeResult c).
Definition setRangeResult v (c : Capture) :=
  mkCapture (stageRef c) (fastPassRef c) (stageEnteredAtRef c) (waitForSilenceBeforeHighRef c)
    (silenceStartRef c) (stableRef c) (lastGoodPitchRef c) (stableHistoryRef c)
    (lowMidiRef c) (highMidiRef c) (testStage c) (testInstruction c) (stabilityMs c)
    (sampleState c) (awaitingResultStep c) v.

(** Statements of the program read top to bottom: [c |> f |> g]. *)
Notation "c |> f" := (f c) (at level 45, left associativity, only parsing).

Definition noFastPass : FastPass := mkFastPass None None.
Definition emptyStability : Stability := mkStability None None [].
Definition emptyRange : RangeResult := mkRange None None None None.

Definition fp_stage_is (fp : FastPass) (stage : TestStage) : bool :=
  match fp_stage fp with
  | Some s => TestStage_eqb s stage
  | None => false
  end.

(** The initial values of the refs and state cells. *)
Definition initialCapture : Capture :=
  mkCapture idle noFastPass 0%Z false None emptyStability None [] None None
    idle "Click Start Range Test to begin."%string 0%Z sample_idle false emptyRange.

(** ** The capture logic of the redesigned [App] *)

Definition updRangeResult (f : RangeResult -> RangeResult) (c : Capture) : Capture :=
  setRangeResult (f (rangeResult c)) c.

Definition with_lowMidi (v : Q) (prev : RangeResult) : RangeResult :=
  mkRange (Some v) (highMidi prev) (comfortLowMidi prev) (comfortHighMidi prev).

Definition with_highMidi (v : Q) (prev : RangeResult) : RangeResult :=
  mkRange (lowMidi prev) (Some v) (comfortLowMidi prev) (comfortHighMidi prev).

Definition msg_start : string := "Click Start Range Test to begin.".
Definition msg_sing_low : string :=
  "Sing your lowest comfortable note and hold for 1 second.".
Definition msg_incomplete : string := "Range test did not complete. Please try again.".
Definition msg_high_captured : string :=
  "High note captured. Click Next Step to view result.".
Definition msg_low_captured : string :=
  "Low note captured. Now sing your highest comfortable note and hold for 1 second.".
Definition msg_too_close : string :=
  "Detected pitch is too close to low note. Please sing higher and hold.".
Definition msg_sing_high : string :=
  "Now sing your highest comfortable note and hold for 1 second.".
Definition msg_pause : string :=
  "Pause briefly (near silence), then sing your highest note.".

Definition resetStability (c : Capture) : Capture :=
  c |> set_stableRef emptyStability
    |> set_lastGoodPitchRef None
    |> setStabilityMs 0%Z
    |> setSampleState sample_idle.

Definition resetRangeTest (c : Capture) : Capture :=
  c |> setTestStage idle
    |> set_stageRef idle
    |> setTestInstruction msg_start
    |> set_lowMidiRef None
    |> set_highMidiRef None
    |> set_stageEnteredAtRef 0%Z
    |> set_fastPassRef noFastPass
    |> set_waitForSilenceBeforeHighRef false
    |> set_silenceStartRef None
    |> set_stableHistoryRef []
    |> resetStability
    |> setRangeResult emptyRange
    |> setAwaitingResultStep false.

(** The part of [startRangeTest] that follows a successful [startStream()];
    [now] is the value of [Date.now()]. *)
Definition startRangeTest (now : Z) (c : Capture) : Capture :=
  c |> resetRangeTest
    |> setTestStage capture_low
    |> set_stageRef capture_low
    |> set_stageEnteredAtRef now
    |> setAwaitingResultStep false
    |> setTestInstruction msg_sing_low.

Definition finishRangeTest (c : Capture) : Capture :=
  match lowMidiRef c, highMidiRef c with
  | Some lowMidi, Some highMidi =>
    let center :=
      match stableHistoryRef c with
      | [] => (lowMidi + highMidi) / 2
      | _ :: _ => median (stableHistoryRef c)
      end in
    let comfortLow := Qmax lowMidi (center - 3) in
    let comfortHigh := Qmin highMidi (center + 3) in
    c |> setRangeResult
           (mkRange (Some lowMidi) (Some highMidi) (Some comfortLow) (Some comfortHigh))
      |> setTestInstruction msg_high_captured
      |> setTestStage done
      |> set_stageRef done
      |> setAwaitingResultStep true
  | _, _ =>
    c |> setTestInstruction msg_incomplete
      |> setTestStage idle
      |> set_stageRef idle
  end.

Definition completeStageWithMidi
    (stage : TestStage) (stableMidi : Q) (timestamp : Z) (c : Capture) : Capture :=
  let c := c |> resetStability |> set_fastPassRef noFastPass in
  if TestStage_eqb stage capture_low then
    c |> set_lowMidiRef (Some stableMidi)
      |> updRangeResult (with_lowMidi stableMidi)
      |> setTestInstruction msg_low_captured
      |> setTestStage capture_high
      |> set_stageRef capture_high
      |> set_stageEnteredAtRef timestamp
      |> set_waitForSilenceBeforeHighRef false
      |> set_silenceStartRef None
  else if (timestamp - stageEnteredAtRef c <? HIGH_STAGE_MIN_DELAY_MS)%Z then c
  else
    let tooClose :=
      match lowMidiRef c with
      | Some lowMidi => Qlt_bool stableMidi (lowMidi + HIGH_NOTE_MIN_SEMITONES)
      | None => false
      end in
    if tooClose then c |> setTestInstruction msg_too_close
    else
      c |> set_highMidiRef (Some stableMidi)
        |> updRangeResult (with_highMidi stableMidi)
        |> finishRangeTest.

(** The three locals computed at lines 387-389 of the handler. *)
Definition hasFreq (pitch : PitchData) : bool :=
  match frequency_hz pitch with
  | Some f => Qlt_bool 0 f
  | None => false
  end.

Definition confidenceOk (pitch : PitchData) : bool :=
  Qlt_bool CONFIDENCE_THRESHOLD (confidence pitch)
  || match note_name pitch with Some _ => true | None => false end.

Definition isValid (level : Q) (pitch : PitchData) : bool :=
  Qlt_bool RMS_THRESHOLD level && hasFreq pitch && (confidenceOk pitch || hasFreq pitch).

(** Lines 371-386: the block guarded by [waitForSilenceBeforeHighRef]. *)
Definition silenceGate (timestamp : Z) (level : Q) (c : Capture) : Capture :=
  if TestStage_eqb (stageRef c) capture_high && waitForSilenceBeforeHighRef c then
    if Qlt_bool level (RMS_THRESHOLD * 0.6) then
      let since :=
        match silenceStartRef c with
        | Some s => s
        | None => timestamp
        end in
      let c := set_silenceStartRef (Some since) c in
      if (SILENCE_RESET_MS <=? timestamp - since)%Z then
        c |> set_waitForSilenceBeforeHighRef false
          |> set_silenceStartRef None
          |> setTestInstruction msg_sing_high
          |> setSampleState sample_idle
      else c
    else
      c |> set_silenceStartRef None
        |> setTestInstruction msg_pause
  else c.

(** Lines 390-399: the sample is not valid. *)
Definition invalidSample (timestamp : Z) (c : Capture) : Capture :=
  let c := c |> set_fastPassRef noFastPass |> setSampleState sample_invalid in
  match lastValidAt (stableRef c) with
  | Some lastValid =>
    if (timestamp - lastValid <? 1200)%Z then c else resetStability c
  | None => resetStability c
  end.

(** [stability.samples.push(x); if (length > 20) stability.samples.shift()]. *)
Definition pushCapped (buf : list Q) (x : Q) : list Q :=
  let pushed := buf ++ [x] in
  if (20 <? List.length pushed)%nat then tl pushed else pushed.

Section RangeTest.

(** [Math.log2]. *)
Variable log2 : Q -> Q.

Definition frequencyToMidi (freqHz : Q) : Q := 69 + 12 * log2 (freqHz / 440).

Definition smooth (prevGood : option Q) (midi : Q) : Q :=
  match prevGood with
  | Some prev =>
    if Qle_bool (Qabs (midi - prev)) 4 then prev * 0.65 + midi * 0.35 else midi
  | None => midi
  end.

(** Lines 411-443: smoothing and the stability window. *)
Definition trackStability
    (stage : TestStage) (timestamp : Z) (freq : Q) (c : Capture) : Capture :=
  let c := setSampleState sample_valid c in
  let midi := frequencyToMidi freq in
  let smoothMidi := smooth (lastGoodPitchRef c) midi in
  let c := set_lastGoodPitchRef (Some smoothMidi) c in
  let stability := stableRef c in
  let restart :=
    c |> set_stableRef (mkStability (Some timestamp) (Some timestamp) [smoothMidi])
      |> setStabilityMs 0%Z in
  match samples stability with
  | [] => restart
  | _ :: _ =>
    let center := median (samples stability) in
    if Qlt_bool STABLE_NOTE_DELTA (Qabs (smoothMidi - center)) then restart
    else
      let kept := pushCapped (samples stability) smoothMidi in
      let elapsed :=
        match startAt stability with
        | Some s => (timestamp - s)%Z
        | None => 0%Z
        end in
      let c :=
        c |> set_stableRef (mkStability (startAt stability) (Some timestamp) kept)
          |> set_stableHistoryRef (stableHistoryRef c ++ [smoothMidi])
          |> setStabilityMs elapsed in
      if (STABLE_REQUIRED_MS <=? elapsed)%Z
      then completeStageWithMidi stage (median kept) timestamp c
      else c
  end.

(** Lines 400-410, followed by the rest of the valid path. *)
Definition validSample
    (stage : TestStage) (timestamp : Z) (freq : Q) (conf : Q) (c : Capture) : Capture :=
  if Qle_bool CONFIDENCE_PASS_THRESHOLD conf then
    let fastPass := fastPassRef c in
    match fp_stage_is fastPass stage, fp_startAt fastPass with
    | true, Some since =>
      if (CONFIDENCE_PASS_MS <=? timestamp - since)%Z
      then completeStageWithMidi stage (frequencyToMidi freq) timestamp c
      else trackStability stage timestamp freq c
    | _, _ =>
      c |> set_fastPassRef (mkFastPass (Some stage) (Some timestamp))
        |> trackStability stage timestamp freq
    end
  else if fp_stage_is (fastPassRef c) stage then
    c |> set_fastPassRef noFastPass |> trackStability stage timestamp freq
  else trackStability stage timestamp freq c.

Definition handlePitchSampleForRangeTest
    (timestamp : Z) (level : Q) (pitch : PitchData) (c : Capture) : Capture :=
  let stage := stageRef c in
  match stage with
  | capture_low | capture_high =>
    let c := silenceGate timestamp level c in
    match isValid level pitch, frequency_hz pitch with
    | true, Some freq => validSample stage timestamp freq (confidence pitch) c
    | _, _ => invalidSample timestamp c
    end
  | _ => c
  end.

(** A sample as the polling tick hands it to the handler. *)
Record Sample := mkSample {
  s_timestamp : Z;
  s_level : Q;
  s_pitch : PitchData
}.

Definition feed (c : Capture) (s : Sample) : Capture :=
  handlePitchSampleForRangeTest (s_timestamp s) (s_level s) (s_pitch s) c.

Definition run (c : Capture) (ss : list Sample) : Capture := fold_left feed ss c.

End RangeTest.

(** A computable stand-in for [Math.log2], exact at the powers of two
    between [2^-8] and [2^8] and linear between neighbours; used only to
    run the machine on concrete samples whose frequency is [440 * 2^k]. *)
Fixpoint log2_up (fuel : nat) (x : Q) : Q :=
  match fuel with
  | O => x - 1
  | S n => if Qle_bool 2 x then 1 + log2_up n (x / 2) else x - 1
  end.

Fixpoint log2_down (fuel : nat) (x : Q) : Q :=
  match fuel with
  | O => x - 1
  | S n => if Qlt_bool x 1 then log2_down n (x * 2) - 1 else x - 1
  end.

Definition log2_dyadic (x : Q) : Q :=
  Qred (if Qlt_bool x 1 then log2_down 8 x else log2_up 8 x).

Definition sample (t : Z) (level : Q) (freq : Q) (conf : Q) : Sample :=
  mkSample t level (mkPitch (Some freq) conf None None).


(** ** The capture logic of the earlier [src/App.tsx]

    Transcribed from that file on its own, function by function, so that the
    two versions can be compared. *)
Module Legacy.

Definition msg_sing_high : string :=
  "Now sing your highest comfortable 'ah' and hold for 1 second.".

Definition resetStability (c : Capture) : Capture :=
  let c := set_stableRef (mkStability None None []) c in
  let c := set_lastGoodPitchRef None c in
  let c := setStabilityMs 0%Z c in
  setSampleState sample_idle c.

Definition finishRangeTest (c : Capture) : Capture :=
  match lowMidiRef c, highMidiRef c with
  | None, _ | _, None =>
    let c := setTestInstruction "Range test did not complete. Please try again." c in
    let c := setTestStage idle c in
    set_stageRef idle c
  | Some lowMidi, Some highMidi =>
    let center :=
      if (0 <? List.length (stableHistoryRef c))%nat
      then median (stableHistoryRef c)
      else (lowMidi + highMidi) / 2 in
    let comfortLow := Qmax lowMidi (center - 3) in
    let comfortHigh := Qmin highMidi (center + 3) in
    let c := setRangeResult
               (mkRange (Some lowMidi) (Some highMidi)
                        (Some comfortLow) (Some comfortHigh)) c in
    let c := setTestInstruction "High note captured. Click Next Step to view result." c in
    let c := setTestStage done c in
    let c := set_stageRef done c in
    setAwaitingResultStep true c
  end.

Definition completeStageWithMidi
    (stage : TestStage) (stableMidi : Q) (timestamp : Z) (c : Capture) : Capture :=
  let c := resetStability c in
  let c := set_fastPassRef (mkFastPass None None) c in
  match stage with
  | capture_low =>
    let c := set_lowMidiRef (Some stableMidi) c in
    let c := setRangeResult (with_lowMidi stableMidi (rangeResult c)) c in
    let c := setTestInstruction
      "Low note captured. Now sing your highest comfortable note and hold for 1 second." c in
    let c := setTestStage capture_high c in
    let c := set_stageRef capture_high c in
    let c := set_stageEnteredAtRef timestamp c in
    let c := set_waitForSilenceBeforeHighRef false c in
    set_silenceStartRef None c
  | _ =>
    if (timestamp - stageEnteredAtRef c <? HIGH_STAGE_MIN_DELAY_MS)%Z then c
    else
      match lowMidiRef c with
      | Some lowMidi =>
        if Qlt_bool stableMidi (lowMidi + HIGH_NOTE_MIN_SEMITONES) then
          setTestInstruction
            "Detected pitch is too close to low note. Please sing higher and hold." c
        else
          let c := set_highMidiRef (Some stableMidi) c in
          let c := setRangeResult (with_highMidi stableMidi (rangeResult c)) c in
          finishRangeTest c
      | None =>
        let c := set_highMidiRef (Some stableMidi) c in
        let c := setRangeResult (with_highMidi stableMidi (rangeResult c)) c in
        finishRangeTest c
      end
  end.

(** Lines 310-325 of [src/App.tsx]. *)
Definition silenceGate (timestamp : Z) (level : Q) (c : Capture) : Capture :=
  if TestStage_eqb (stageRef c) capture_high && waitForSilenceBeforeHighRef c then
    if Qlt_bool level (RMS_THRESHOLD * 0.6) then
      let c :=
        match silenceStartRef c with
        | None => set_silenceStartRef (Some timestamp) c
        | Some _ => c
        end in
      match silenceStartRef c with
      | Some since =>
        if (timestamp - since >=? SILENCE_RESET_MS)%Z then
          let c := set_waitForSilenceBeforeHighRef false c in
          let c := set_silenceStartRef None c in
          let c := setTestInstruction msg_sing_high c in
          setSampleState sample_idle c
        else c
      | None => c
      end
    else
      let c := set_silenceStartRef None c in
      setTestInstruction "Pause briefly (near silence), then sing your highest note." c
  else c.

Section RangeTest.

Variable log2 : Q -> Q.

Definition frequencyToMidi (freqHz : Q) : Q := 69 + 12 * log2 (freqHz / 440).

(** Lines 354-392 of [src/App.tsx]. *)
Definition trackStability
    (stage : TestStage) (timestamp : Z) (freq : Q) (c : Capture) : Capture :=
  let c := setSampleState sample_valid c in
  let midi := frequencyToMidi freq in
  let smoothMidi :=
    match lastGoodPitchRef c with
    | Some prevGood =>
      if Qle_bool (Qabs (midi - prevGood)) 4
      then prevGood * 0.65 + midi * 0.35
      else midi
    | None => midi
    end in
  let c := set_lastGoodPitchRef (Some smoothMidi) c in
  let stability := stableRef c in
  if (List.length (samples stability) =? 0)%nat then
    let c := set_stableRef
               (mkStability (Some timestamp) (Some timestamp) [smoothMidi]) c in
    setStabilityMs 0%Z c
  else
    let center := median (samples stability) in
    if Qlt_bool STABLE_NOTE_DELTA (Qabs (smoothMidi - center)) then
      let c := set_stableRef
                 (mkStability (Some timestamp) (Some timestamp) [smoothMidi]) c in
      setStabilityMs 0%Z c
    else
      let pushed := samples stability ++ [smoothMidi] in
      let kept := if (20 <? List.length pushed)%nat then tl pushed else pushed in
      let c := set_stableRef
                 (mkStability (startAt stability) (Some timestamp) kept) c in
      let c := set_stableHistoryRef (stableHistoryRef c ++ [smoothMidi]) c in
      let elapsed :=
        match startAt stability with
        | Some s => (timestamp - s)%Z
        | None => 0%Z
        end in
      let c := setStabilityMs elapsed c in
      if (elapsed >=? STABLE_REQUIRED_MS)%Z
      then completeStageWithMidi stage (median kept) timestamp c
      else c.

(** Lines 304-352 of [src/App.tsx], handing over to the block above. *)
Definition handlePitchSampleForRangeTest
    (timestamp : Z) (level : Q) (pitch : PitchData) (c : Capture) : Capture :=
  let stage := stageRef c in
  if negb (TestStage_eqb stage capture_low) && negb (TestStage_eqb stage capture_high)
  then c
  else
    (* lines 310-325 *)
    let c := silenceGate timestamp level c in
    (* lines 327-329 *)
    let hasFreq :=
      match frequency_hz pitch with Some f => Qlt_bool 0 f | None => false end in
    let confidenceOk :=
      Qlt_bool CONFIDENCE_THRESHOLD (confidence pitch)
      || match note_name pitch with Some _ => true | None => false end in
    let isValid := Qlt_bool RMS_THRESHOLD level && hasFreq && (confidenceOk || hasFreq) in
    match (if isValid then frequency_hz pitch else None) with
    | None =>
      (* lines 331-340 *)
      let c := set_fastPassRef (mkFastPass None None) c in
      let c := setSampleState sample_invalid c in
      match lastValidAt (stableRef c) with
      | Some lastValid =>
        if (timestamp - lastValid <? 1200)%Z then c else resetStability c
      | None => resetStability c
      end
    | Some freq =>
      (* lines 342-352: [inl] is the early return of the fast pass *)
      let fast : Capture + Capture :=
        if Qle_bool CONFIDENCE_PASS_THRESHOLD (confidence pitch) then
          let fastPass := fastPassRef c in
          match fp_stage fastPass, fp_startAt fastPass with
          | Some fs, Some since =>
            if negb (TestStage_eqb fs stage) then
              inr (set_fastPassRef (mkFastPass (Some stage) (Some timestamp)) c)
            else if (timestamp - since >=? CONFIDENCE_PASS_MS)%Z then
              inl (completeStageWithMidi stage (frequencyToMidi freq) timestamp c)
            else inr c
          | _, _ => inr (set_fastPassRef (mkFastPass (Some stage) (Some timestamp)) c)
          end
        else
          match fp_stage (fastPassRef c) with
          | Some fs =>
            if TestStage_eqb fs stage
            then inr (set_fastPassRef (mkFastPass None None) c)
            else inr c
          | None => inr c
          end in
      match fast with
      | inl finished => finished
      | inr c => trackStability stage timestamp freq c
      end
    end.

Definition feed (c : Capture) (s : Sample) : Capture :=
  handlePitchSampleForRangeTest (s_timestamp s) (s_level s) (s_pitch s) c.

Definition run (c : Capture) (ss : list Sample) : Capture := fold_left feed ss c.

End RangeTest.

End Legacy.

(** ** The polling loop of the redesigned [App] *)

(** The outcome of an [await invoke(...)]: a value, or a rejection that the
    surrounding [try] catches. *)
Inductive Result (A : Type) :=
| Ok (value : A)
| Err (message : string).
Arguments Ok {A} value.
Arguments Err {A} message.

(** What [get_pitch_data] delivers before the tick sanitises it.  A
    [frequency_hz] or [cents_offset] that is not a number, and a
    [confidence] that is not a finite number, are [None]. *)
Record RawPitch := mkRawPitch {
  raw_frequency_hz : option Q;
  raw_confidence : option Q;
  raw_note_name : option string;
  raw_cents_offset : option Q
}.

Record App := mkApp {
  capture : Capture;
  status : string;
  inputLevel : Q;
  rawInputLevel : Q;
  inputLevelRef : Q;
  rawInputLevelRef : Q;
  pitchData : PitchData;
  pollTimerRef : option Z;
  pollErrorCountRef : Z;
  pollInFlightRef : bool
}.

Definition set_capture v (a : App) :=
  mkApp v (status a) (inputLevel a) (rawInputLevel a) (inputLevelRef a)
    (rawInputLevelRef a) (pitchData a) (pollTimerRef a) (pollErrorCountRef a)
    (pollInFlightRef a).
Definition setStatus v (a : App) :=
  mkApp (capture a) v (inputLevel a) (rawInputLevel a) (inputLevelRef a)
    (rawInputLevelRef a) (pitchData a) (pollTimerRef a) (pollErrorCountRef a)
    (pollInFlightRef a).
Definition setInputLevel v (a : App) :=
  mkApp (capture a) (status a) v (rawInputLevel a) (inputLevelRef a)
    (rawInputLevelRef a) (pitchData a) (pollTimerRef a) (pollErrorCountRef a)
    (pollInFlightRef a).
Definition setRawInputLevel v (a : App) :=
  mkApp (capture a) (status a) (inputLevel a) v (inputLevelRef a)
    (rawInputLevelRef a) (pitchData a) (pollTimerRef a) (pollErrorCountRef a)
    (pollInFlightRef a).
Definition set_inputLevelRef v (a : App) :=
  mkApp (capture a) (status a) (inputLevel a) (rawInputLevel a) v
    (rawInputLevelRef a) (pitchData a) (pollTimerRef a) (pollErrorCountRef a)
    (pollInFlightRef a).
Definition set_rawInputLevelRef v (a : App) :=
  mkApp (capture a) (status a) (inputLevel a) (rawInputLevel a) (inputLevelRef a)
    v (pitchData a) (pollTimerRef a) (pollErrorCountRef a)
    (pollInFlightRef a).
Definition setPitchData v (a : App) :=
  mkApp (capture a) (status a) (inputLevel a) (rawInputLevel a) (inputLevelRef a)
    (rawInputLevelRef a) v (pollTimerRef a) (pollErrorCountRef a)
    (pollInFlightRef a).
Definition set_pollTimerRef v (a : App) :=
  mkApp (capture a) (status a) (inputLevel a) (rawInputLevel a) (inputLevelRef a)
    (rawInputLevelRef a) (pitchData a) v (pollErrorCountRef a)
    (pollInFlightRef a).
Definition set_pollErrorCountRef v (a : App) :=
  mkApp (capture a) (status a) (inputLevel a) (rawInputLevel a) (inputLevelRef a)
    (rawInputLevelRef a) (pitchData a) (pollTimerRef a) v
    (pollInFlightRef a).
Definition set_pollInFlightRef v (a : App) :=
  mkApp (capture a) (status a) (inputLevel a) (rawInputLevel a) (inputLevelRef a)
    (rawInputLevelRef a) (pitchData a) (pollTimerRef a) (pollErrorCountRef a)
    v.

Definition noPitch : PitchData := mkPitch None 0 None None.

(** [Math.max(0, Math.min(1, x))]. *)
Definition clamp01 (x : Q) : Q := Qmax 0 (Qmin 1 x).

Definition stopLevelPolling (a : App) : App :=
  a |> set_pollTimerRef None
    |> setInputLevel 0
    |> setRawInputLevel 0
    |> set_inputLevelRef 0
    |> set_rawInputLevelRef 0
    |> setPitchData noPitch
    |> set_pollErrorCountRef 0%Z
    |> set_pollInFlightRef false.

(** [startLevelPolling]; [timer] is the handle [window.setInterval] returns. *)
Definition startLevelPolling (timer : Z) (a : App) : App :=
  a |> stopLevelPolling |> set_pollTimerRef (Some timer).

(** What one firing of the interval observes: the two backend calls and
    the clock read after them. *)
Record Tick := mkTick {
  get_input_level : Result (option Q);
  get_pitch_data : Result RawPitch;
  date_now : Z
}.

(** [Number.isFinite(level) ? Math.max(0, Math.min(1, level)) : 0]; a level
    that is not finite is [None]. *)
Definition safeLevelOf (level : option Q) : Q :=
  match level with
  | Some finite => clamp01 finite
  | None => 0
  end.

(** The object literal [safePitch]. *)
Definition safePitchOf (pitch : RawPitch) : PitchData :=
  mkPitch (raw_frequency_hz pitch)
          (match raw_confidence pitch with
           | Some finite => clamp01 finite
           | None => 0
           end)
          (raw_note_name pitch)
          (raw_cents_offset pitch).

Section Polling.

Variable log2 : Q -> Q.

(** The body of the interval callback, run without interleaving. *)
Definition pollCallback (t : Tick) (a : App) : App :=
  if pollInFlightRef a then a
  else
    let a := set_pollInFlightRef true a in
    (* first try block *)
    let '(a, sampledLevel, levelOk) :=
      match get_input_level t with
      | Ok level =>
        let safeLevel := safeLevelOf level in
        let boostedLevel := clamp01 (safeLevel * LEVEL_GAIN) in
        (a |> setRawInputLevel safeLevel
           |> set_rawInputLevelRef safeLevel
           |> setInputLevel boostedLevel
           |> set_inputLevelRef boostedLevel,
         safeLevel, true)
      | Err _ => (a, rawInputLevelRef a, false)
      end in
    (* second try block *)
    let '(a, pitchOk) :=
      match get_pitch_data t with
      | Ok pitch =>
        let safePitch := safePitchOf pitch in
        (a |> setPitchData safePitch
           |> set_capture
                (handlePitchSampleForRangeTest log2 (date_now t) sampledLevel safePitch
                   (capture a)),
         true)
      | Err _ => (a, false)
      end in
    let hasAnySuccess := levelOk || pitchOk in
    let a :=
      if hasAnySuccess then set_pollErrorCountRef 0%Z a
      else set_pollErrorCountRef (pollErrorCountRef a + 1)%Z a in
    let a := if (20 <=? pollErrorCountRef a)%Z then stopLevelPolling a else a in
    set_pollInFlightRef false a.

(** The interval fires only while its timer is armed. *)
Definition pollTick (a : App) (t : Tick) : App :=
  match pollTimerRef a with
  | Some _ => pollCallback t a
  | None => a
  end.

Definition poll (a : App) (ts : list Tick) : App := fold_left pollTick ts a.

End Polling.

(** The status bar of the main render: the stream indicator
    ([isStreamActive], the class of the [status-dot]) and the status text. *)
Definition isStreamActive (a : App) : bool :=
  match pollTimerRef a with
  | Some _ => true
  | None => false
  end.

Definition statusBar (a : App) : bool * string := (isStreamActive a, status a).

Definition bothFail (t : Tick) : Prop :=
  (exists m, get_input_level t = Err m) /\ (exists m, get_pitch_data t = Err m).

Definition someSuccess (t : Tick) : Prop :=
  (exists v, get_input_level t = Ok v) \/ (exists v, get_pitch_data t = Ok v).

(** ** Recommendations: [loadRecommendations] and the default display slice *)

Record FitDetail := mkFitDetail {
  fd_shift : Q;
  final_low : Q;
  final_high : Q;
  final_chorus_high : Q;
  headroom_comfort : Q;
  headroom_limit : Q;
  low_margin : Q;
  shift_penalty : Q;
  range_penalty : Q;
  chorus_penalty : Q;
  high_note_penalty : Q;
  low_penalty : Q;
  total_score : Q
}.

Record SongRecommendation := mkSong {
  title : string;
  artist : string;
  shift : Q;
  fit_score : Q;
  fit_detail : FitDetail;
  original_low_midi : Q;
  original_high_midi : Q;
  original_chorus_low_midi : Q;
  original_chorus_high_midi : Q;
  shifted_low_midi : Q;
  shifted_high_midi : Q;
  shifted_chorus_low_midi : Q;
  shifted_chorus_high_midi : Q;
  is_original_key : bool;
  is_imported : bool
}.

(** The template string [`${s.title}::${s.artist}`]. *)
Definition songKey (s : SongRecommendation) : string :=
  (title s ++ "::" ++ artist s)%string.

(** A [Set<string>] used through [has] and [add] only. *)
Definition KeySet := list string.
Definition has (seen : KeySet) (key : string) : bool := existsb (String.eqb key) seen.
Definition add (seen : KeySet) (key : string) : KeySet := key :: seen.

(** The arguments of the [recommend_songs] command. *)
Record RangeQuery := mkQuery {
  userLowMidi : Z;
  userHighMidi : Z;
  q_comfortLowMidi : Z;
  q_comfortHighMidi : Z
}.

Inductive Command :=
| recommend_imported_songs
| recommend_songs (args : RangeQuery).

(** The backend behind [invoke], as far as this function uses it. *)
Record Backend := mkBackend {
  importedSongs : Result (list SongRecommendation);
  rangedSongs : RangeQuery -> Result (list SongRecommendation)
}.

(** Calls to the backend: each [invoke] is logged in the order issued, and a
    rejection skips the rest of the [try] block. *)
Definition Invoke (A : Type) : Type := list Command -> Result A * list Command.

Definition ret {A} (a : A) : Invoke A := fun log => (Ok a, log).

Definition bind {A B} (m : Invoke A) (k : A -> Invoke B) : Invoke B :=
  fun log =>
    match m log with
    | (Ok a, log') => k a log'
    | (Err e, log') => (Err e, log')
    end.

Notation "x <- m ;; k" := (bind m (fun x => k))
  (at level 61, m at next level, right associativity).

Definition invoke (b : Backend) (cmd : Command) : Invoke (list SongRecommendation) :=
  fun log =>
    (match cmd with
     | recommend_imported_songs => importedSongs b
     | recommend_songs args => rangedSongs b args
     end,
     log ++ [cmd]).

(** The loop at lines 613-619. *)
Fixpoint mergeImported (seen : KeySet) (merged importedOnly : list SongRecommendation)
  : list SongRecommendation :=
  match importedOnly with
  | [] => merged
  | song :: rest =>
    let key := songKey song in
    if has seen key then mergeImported seen merged rest
    else mergeImported (add seen key) (merged ++ [song]) rest
  end.

Definition mergeRecommendations (recs importedOnly : list SongRecommendation)
  : list SongRecommendation :=
  mergeImported (map songKey recs) recs importedOnly.

Definition primaryQuery (lo hi clo chi : Q) : RangeQuery :=
  mkQuery (Math_round lo) (Math_round hi) (Math_round clo) (Math_round chi).

Definition fallbackQuery (lo hi clo chi : Q) : RangeQuery :=
  mkQuery (Math_round lo - 4) (Math_round hi + 4) (Math_round clo - 2) (Math_round chi + 2).

Definition msg_closest : string := "No strict matches. Showing closest challenge songs.".

(** The state cells [loadRecommendations] writes and the display reads. *)
Record RecoView := mkRecoView {
  rv_status : string;
  recommendations : list SongRecommendation;
  showAllRecommendations : bool;
  recoFilter : string
}.

(** The [try] block: the songs to show and the status it sets, if any. *)
Definition fetchRecommendations (b : Backend) (r : RangeResult)
  : Invoke (list SongRecommendation * option string) :=
  importedOnly <- invoke b recommend_imported_songs ;;
  ranged <-
    match lowMidi r, highMidi r, comfortLowMidi r, comfortHighMidi r with
    | Some lo, Some hi, Some clo, Some chi =>
      recs <- invoke b (recommend_songs (primaryQuery lo hi clo chi)) ;;
      match recs with
      | [] =>
        recs <- invoke b (recommend_songs (fallbackQuery lo hi clo chi)) ;;
        match recs with
        | [] => ret (recs, None)
        | _ :: _ => ret (recs, Some msg_closest)
        end
      | _ :: _ => ret (recs, None)
      end
    | _, _, _, _ => ret ([], None)
    end ;;
  ret (mergeRecommendations (fst ranged) importedOnly, snd ranged).

Definition failedToLoad (error : string) : string :=
  ("Failed to load recommendations: " ++ error)%string.

Definition loadRecommendations (b : Backend) (r : RangeResult) (v : RecoView)
  : RecoView * list Command :=
  match fetchRecommendations b r [] with
  | (Ok (merged, newStatus), log) =>
    (mkRecoView (match newStatus with Some s => s | None => rv_status v end)
                merged false (recoFilter v),
     log)
  | (Err error, log) =>
    (mkRecoView (failedToLoad error) [] false (recoFilter v), log)
  end.

(** The filter at lines 1115-1121, with its [seen] set threaded through. *)
Fixpoint unseenImported (seen : KeySet) (l : list SongRecommendation)
  : list SongRecommendation :=
  match l with
  | [] => []
  | s :: rest =>
    if negb (is_imported s) then unseenImported seen rest
    else
      let key := songKey s in
      if has seen key then unseenImported seen rest
      else s :: unseenImported (add seen key) rest
  end.

Definition visibleRecommendations (v : RecoView) : list SongRecommendation :=
  if showAllRecommendations v then recommendations v
  else
    let top := firstn 5 (recommendations v) in
    let seen := map songKey top in
    top ++ unseenImported seen (recommendations v).

(** The [className] of [fitBucket(score)]. *)
Definition fitBucketClass (score : Q) : string :=
  if Qle_bool 90 score then "great"
  else if Qle_bool 75 score then "singable"
  else if Qle_bool 60 score then "challenging"
  else "low".

(** The list [filtered] that [renderRecommendations] maps to cards. *)
Definition filteredRecommendations (v : RecoView) : list SongRecommendation :=
  if String.eqb (recoFilter v) "all" then visibleRecommendations v
  else filter (fun s => String.eqb (fitBucketClass (fit_score s)) (recoFilter v))
              (visibleRecommendations v).

Definition keyCount (key : string) (l : list SongRecommendation) : nat :=
  List.length (filter (fun s => String.eqb (songKey s) key) l).

(** ** Statements of the specification, and concrete runs

    The definitions below are not part of the program: they phrase what the
    specification says, for comparison with the program, or fix the sample
    sequences on which the program is run. *)

(** The validity test as the specification words it: level above the floor,
    a positive frequency, and confidence above the floor or a note name. *)
Definition specValid (level : Q) (pitch : PitchData) : bool :=
  Qlt_bool RMS_THRESHOLD level && hasFreq pitch && confidenceOk pitch.

(** Two capture states that agree on everything but the instruction text. *)
Definition sameCapture (c1 c2 : Capture) : Prop :=
  setTestInstruction EmptyString c1 = setTestInstruction EmptyString c2.

(** A range test started at time 0. *)
Definition started : Capture := startRangeTest 0 initialCapture.

(** [n] samples 100 ms apart from time [t], all at level 0.2 with the given
    frequency and confidence. *)
Fixpoint tone (n : nat) (t : Z) (freq conf : Q) : list Sample :=
  match n with
  | O => []
  | S n' => sample t 0.2 freq conf :: tone n' (t + 100) freq conf
  end.

(** Unsteady, low-confidence input around A5 (midi 81) and A6 (midi 93)
    during the low stage: three windows, each abandoned before the 600 ms
    hold; then a confident A2 (midi 45) and a confident A3 (midi 57), each
    long enough for the fast pass. *)
Definition warbleThenRange : list Sample :=
  tone 5 100 880 0.3 ++ tone 5 600 1760 0.3 ++ tone 5 1100 880 0.3
  ++ tone 4 1600 110 0.9 ++ tone 4 2000 220 0.9.

(** A confident A2 from the start: the fast pass records it at time 400. *)
Definition lowNote : list Sample := tone 4 100 110 0.9.

(** A sample with a frequency, a confidence under the floor and no note name. *)
Definition faintSample : Sample :=
  mkSample 100 0.2 (mkPitch (Some 440) 0.05 None None).

(** The singer stays on the low note: the high stage, entered at 400, has
    seen three confident samples at 110 Hz, and a fourth arrives at 800. *)
Definition midHigh : Capture :=
  run log2_dyadic started (lowNote ++ tone 3 500 110 0.9).

Definition sameAsLow : Sample := sample 800 0.2 110 0.9.

(** The first sample of the high stage, 100 ms after the low note was
    recorded: loud, confident, at 220 Hz. *)
Definition rightAfterLow : Sample := sample 500 0.2 220 0.9.

(** An armed gate, which no run of the program produces, to observe what
    the gate block does when it executes. *)
Definition armedGate : Capture :=
  set_waitForSilenceBeforeHighRef true (run log2_dyadic started lowNote).

(** Whether the stability window restarts on the smoothed pitch [x]: the
    window is empty, or [x] lies more than [STABLE_NOTE_DELTA] from its
    median. *)
Definition restarts (buf : list Q) (x : Q) : bool :=
  match buf with
  | [] => true
  | _ :: _ => Qlt_bool STABLE_NOTE_DELTA (Qabs (x - median buf))
  end.

(** The time since the anchor of the window, as the handler computes it. *)
Definition elapsedSince (w : Stability) (timestamp : Z) : Z :=
  match startAt w with
  | Some s => (timestamp - s)%Z
  | None => 0%Z
  end.

(** The state in which the stability hold hands over to the stage
    completion: the sample has been smoothed, appended and recorded. *)
Definition appended (timestamp : Z) (x : Q) (c : Capture) : Capture :=
  c |> setSampleState sample_valid
    |> set_lastGoodPitchRef (Some x)
    |> set_stableRef
         (mkStability (startAt (stableRef c)) (Some timestamp)
            (pushCapped (samples (stableRef c)) x))
    |> set_stableHistoryRef (stableHistoryRef c ++ [x])
    |> setStabilityMs (elapsedSince (stableRef c) timestamp).

(** The state after a sample that restarts the window. *)
Definition restarted (timestamp : Z) (x : Q) (c : Capture) : Capture :=
  c |> setSampleState sample_valid
    |> set_lastGoodPitchRef (Some x)
    |> set_stableRef (mkStability (Some timestamp) (Some timestamp) [x])
    |> setStabilityMs 0%Z.

(** A low stage in which a steady, low-confidence A2 has been held for
    500 ms; the next sample, at 700, completes the 600 ms hold. *)
Definition holdingLow : Capture := run log2_dyadic started (tone 6 100 110 0.3).

(** A high stage in which the singer has held the low note again, with low
    confidence, for 500 ms; the next sample, at 1100, completes the hold. *)
Definition holdingSame : Capture :=
  run log2_dyadic started (lowNote ++ tone 6 500 110 0.3).

(** A valid sample whose confidence reaches the fast-pass threshold. *)
Definition confident (s : Sample) : Prop :=
  isValid (s_level s) (s_pitch s) = true
  /\ CONFIDENCE_PASS_THRESHOLD <= confidence (s_pitch s).






(** The membership test of a command in the log of issued commands. *)
Definition issued (cmd : Command) (log : list Command) : Prop := In cmd log.

(** A catalogue entry with the given title, artist, score and provenance;
    the fields the merge does not read are zero. *)
Definition song (t a : string) (score : Q) (imported : bool) : SongRecommendation :=
  mkSong t a 0 score (mkFitDetail 0 0 0 0 0 0 0 0 0 0 0 0 score)
    0 0 0 0 0 0 0 0 true imported.

(** The scenario of the specification: a range of 48..72 with comfort band
    55..67, nothing matching the primary query, one challenge song matching
    the widened one, and one imported song. *)
Definition scenarioRange : RangeResult :=
  mkRange (Some 48) (Some 72) (Some 55) (Some 67).

Definition challengeSong : SongRecommendation := song "Nessun dorma" "Puccini" 62 false.
Definition importedSong : SongRecommendation := song "demo take" "me" 12 true.

Definition scenarioBackend : Backend :=
  mkBackend (Ok [importedSong])
    (fun q => if (userLowMidi q =? 44)%Z then Ok [challengeSong] else Ok []).

Definition scenarioView : RecoView := mkRecoView "Range test started" [] true "all".

(** Six catalogue songs ranked above the imported one. *)
Definition sixRanked : list SongRecommendation :=
  [ song "a" "x" 95 false; song "b" "x" 90 false; song "c" "x" 85 false;
    song "d" "x" 80 false; song "e" "x" 75 false; song "f" "x" 70 false ].

(** A song that is in the catalogue more than once.  Imported twice, both
    queries list it twice; present in the base catalogue and imported, the
    ranged query lists its base copy and its imported copy. *)
Definition baseCopy : SongRecommendation := song "Yesterday" "The Beatles" 88 false.
Definition importedCopy : SongRecommendation := song "Yesterday" "The Beatles" 88 true.
Definition importedTwice : list SongRecommendation := [importedCopy; importedCopy].

(** Ranged results that carry the base copy of that song in sixth place,
    behind five higher-ranked songs. *)
Definition baseCopySixth : list SongRecommendation := firstn 5 sixRanked ++ [baseCopy].

(** The application right after [startRangeTest]: capture started, polling
    armed with timer handle 7, and the status that [startRangeTest] set. *)
Definition appStarted : App :=
  startLevelPolling 7
    (mkApp started "Range test started" 0 0 0 0 noPitch None 0%Z false).

(** One good tick (level 0.05, a confident A2), so that there is level and
    pitch state to clear. *)
Definition goodTick : Tick :=
  mkTick (Ok (Some 0.05)) (Ok (mkRawPitch (Some 110) (Some 0.9) (Some "A2"%string) (Some 0)))
    100.

Definition appActive : App := pollTick log2_dyadic appStarted goodTick.

(** A tick in which both backend calls are rejected. *)
Definition deadTick (now : Z) : Tick := mkTick (Err "ipc closed") (Err "ipc closed") now.

(** Twenty such ticks in a row. *)
Definition outage : list Tick := map deadTick (map Z.of_nat (seq 2 20)).

(** With a clock that has reached [t]: the stage was entered no later than
    [t], and the fast-pass dwell and the stability window, when they run,
    began no earlier than the stage. *)
Definition settled (t : Z) (c : Capture) : Prop :=
  (stageEnteredAtRef c <= t)%Z
  /\ (forall since, fp_startAt (fastPassRef c) = Some since ->
        (stageEnteredAtRef c <= since)%Z)
  /\ (forall anchor, startAt (stableRef c) = Some anchor ->
        (stageEnteredAtRef c <= anchor)%Z).

(** Timestamps that never step back, from [t] on. *)
Fixpoint nondecreasing (t : Z) (ss : list Sample) : Prop :=
  match ss with
  | [] => True
  | s :: rest => (t <= s_timestamp s)%Z /\ nondecreasing (s_timestamp s) rest
  end.

(** The timestamp of the last sample, [t] if there is none. *)
Definition lastTimestamp (t : Z) (ss : list Sample) : Z :=
  fold_left (fun _ s => s_timestamp s) ss t.

(** ** Further statements about the capture logic *)

(** The stages in the order a range test passes through them. *)
Definition stageRank (s : TestStage) : nat :=
  match s with
  | idle => 0
  | capture_low => 1
  | capture_high => 2
  | done => 3
  end.

(** The centre pitch of [finishRangeTest]: the median of the history, or the
    midpoint of the two notes when the history is empty. *)
Definition centerOf (lo hi : Q) (history : list Q) : Q :=
  match history with
  | [] => (lo + hi) / 2
  | _ :: _ => median history
  end.

(** What a running range test keeps true of its refs and state cells: the
    stage ref and the stage cell agree, the recorded pitches agree with the
    range result, and the range result is as far filled in as the stage
    says. *)
Definition staged (c : Capture) : Prop :=
  stageRef c = testStage c
  /\ lowMidi (rangeResult c) = lowMidiRef c
  /\ highMidi (rangeResult c) = highMidiRef c
  /\ match stageRef c with
     | idle => False
     | capture_low =>
       lowMidiRef c = None /\ highMidiRef c = None
       /\ comfortLowMidi (rangeResult c) = None
       /\ comfortHighMidi (rangeResult c) = None
       /\ awaitingResultStep c = false
     | capture_high =>
       (exists lo, lowMidiRef c = Some lo) /\ highMidiRef c = None
       /\ comfortLowMidi (rangeResult c) = None
       /\ comfortHighMidi (rangeResult c) = None
       /\ awaitingResultStep c = false
     | done =>
       exists lo hi cl ch,
         lowMidiRef c = Some lo /\ highMidiRef c = Some hi
         /\ comfortLowMidi (rangeResult c) = Some cl
         /\ comfortHighMidi (rangeResult c) = Some ch
         /\ lo + HIGH_NOTE_MIN_SEMITONES <= hi
         /\ cl = Qmax lo (centerOf lo hi (stableHistoryRef c) - 3)
         /\ ch = Qmin hi (centerOf lo hi (stableHistoryRef c) + 3)
         /\ awaitingResultStep c = true
     end.

(** The refs and cells that [staged] reads. *)
Definition progress (c : Capture)
  : TestStage * TestStage * option Q * option Q * RangeResult * bool * list Q :=
  (stageRef c, testStage c, lowMidiRef c, highMidiRef c, rangeResult c,
   awaitingResultStep c, stableHistoryRef c).

(** The time between the anchor of the window and its last valid sample,
    0 when either is missing. *)
Definition heldFor (w : Stability) : Z :=
  match startAt w, lastValidAt w with
  | Some a, Some l => (l - a)%Z
  | _, _ => 0%Z
  end.

(** The stability window holds at most 20 samples; it is empty exactly when
    it has no anchor, no last valid time and no last good pitch; and the
    hold time on display is the time between its anchor and its last valid
    sample. *)
Definition windowCoherent (c : Capture) : Prop :=
  (List.length (samples (stableRef c)) <= 20)%nat
  /\ (samples (stableRef c) = [] <-> startAt (stableRef c) = None)
  /\ (samples (stableRef c) = [] <-> lastValidAt (stableRef c) = None)
  /\ (samples (stableRef c) = [] <-> lastGoodPitchRef c = None)
  /\ stabilityMs c = heldFor (stableRef c).

(** A capture stage is running. *)
Definition capturing (c : Capture) : Prop :=
  stageRef c = capture_low \/ stageRef c = capture_high.

(** [P] survives each block of the sample handler: the silence gate, the
    invalid path, a write to the fast-pass ref, a window restart, an append
    to a window that is not empty, and the stage completion. *)
Definition preservedByBlocks (P : Capture -> Prop) : Prop :=
  (forall t level c, capturing c -> P c -> P (silenceGate t level c))
  /\ (forall t c, capturing c -> P c -> P (invalidSample t c))
  /\ (forall fp c, capturing c -> P c ->
        fp = noFastPass
        \/ (exists t, fp = mkFastPass (Some (stageRef c)) (Some t)) ->
        P (set_fastPassRef fp c))
  /\ (forall t x c, capturing c -> P c -> P (restarted t x c))
  /\ (forall t x c, capturing c -> P c -> samples (stableRef c) <> [] ->
        P (appended t x c))
  /\ (forall m t c, capturing c -> P c ->
        P (completeStageWithMidi (stageRef c) m t c)).

(** The fast-pass ref is cleared, or holds a dwell of the current stage. *)
Definition dwellOfStage (c : Capture) : Prop :=
  fastPassRef c = noFastPass
  \/ exists since, fastPassRef c = mkFastPass (Some (stageRef c)) (Some since).

(** A confident A2 recorded at 400, then a confident A3 recorded at 800. *)
Definition plainRange : list Sample := lowNote ++ tone 4 500 220 0.9.

(** The history of window samples extends [h0]. *)
Definition extends (h0 : list Q) (c : Capture) : Prop :=
  exists more, stableHistoryRef c = h0 ++ more.

(** The low note is recorded as [lo], in a well-formed running test. *)
Definition lowRecorded (lo : Q) (c : Capture) : Prop :=
  staged c /\ lowMidiRef c = Some lo.

(** The stage has come at least as far as rank [r], in a well-formed
    running test. *)
Definition reachedRank (r : nat) (c : Capture) : Prop :=
  staged c /\ (r <= stageRank (stageRef c))%nat.

(** ** Further statements about polling *)

(** The level meters and the pitch on display are sanitised: both levels lie
    in [0, 1], the boosted level is the raw level times the gain, clamped,
    each level ref holds what its state cell holds, and the confidence lies
    in [0, 1]. *)
Definition metered (a : App) : Prop :=
  0 <= rawInputLevel a <= 1
  /\ 0 <= inputLevel a <= 1
  /\ inputLevel a == clamp01 (rawInputLevel a * LEVEL_GAIN)
  /\ rawInputLevelRef a = rawInputLevel a
  /\ inputLevelRef a = inputLevel a
  /\ 0 <= confidence (pitchData a) <= 1.

(** The failure counter stays under the limit, and while the timer is
    cleared the meters read zero, no pitch is on display and the counter is
    zero. *)
Definition counted (a : App) : Prop :=
  (0 <= pollErrorCountRef a < 20)%Z
  /\ (pollTimerRef a = None ->
      inputLevel a = 0 /\ rawInputLevel a = 0
      /\ pitchData a = noPitch /\ pollErrorCountRef a = 0%Z).

(** The samples that a sequence of ticks hands to the range test, starting
    with raw level [level] and [errors] failed ticks in a row: a tick whose
    pitch call succeeds gives one sample, with the level of the same tick
    when its level call succeeded and the last level read otherwise; the
    twentieth failed tick in a row ends the sequence. *)
Fixpoint samplesSeen (level : Q) (errors : Z) (ts : list Tick) : list Sample :=
  match ts with
  | [] => []
  | t :: rest =>
    match get_input_level t, get_pitch_data t with
    | Ok l, Ok p =>
      mkSample (date_now t) (safeLevelOf l) (safePitchOf p)
        :: samplesSeen (safeLevelOf l) 0 rest
    | Err _, Ok p =>
      mkSample (date_now t) level (safePitchOf p) :: samplesSeen level 0 rest
    | Ok l, Err _ => samplesSeen (safeLevelOf l) 0 rest
    | Err _, Err _ =>
      if (20 <=? errors + 1)%Z then [] else samplesSeen level (errors + 1) rest
    end
  end.

(** A tick whose level call fails while its pitch call delivers a
    confident A2. *)
Definition pitchOnlyTick (now : Z) : Tick :=
  mkTick (Err "busy") (Ok (mkRawPitch (Some 110) (Some 0.9) None None)) now.

(** A tick that delivers a level of 3 and a confidence of 7, both out of
    range. *)
Definition wildTick : Tick :=
  mkTick (Ok (Some 3)) (Ok (mkRawPitch (Some 110) (Some 7) None None)) 200.

(** ** The stream, the test flow and the stepper

    [startStream], [stopStream], [resetTestFlow], [startRangeTest] and
    [goToResultStep], and the three steps that [renderTestLive] draws.  Each
    handler is taken to run to its end before the next event; the outcome
    of an awaited [invoke] is an argument. *)

Inductive Page :=
| page_Home | page_Test_Live | page_Result | page_Song_Library
| page_Recommendations.

Definition updCapture (f : Capture -> Capture) (a : App) : App :=
  set_capture (f (capture a)) a.

(** The initial values of the state cells and refs of [App]. *)
Definition initialApp : App :=
  mkApp initialCapture "Idle" 0 0 0 0 noPitch None 0%Z false.

Module Flow.

(** [timer] is the handle that [window.setInterval] returns when polling
    starts. *)
Definition startStream (start_stream : Result unit) (timer : Z) (a : App)
  : App * bool :=
  match start_stream with
  | Ok _ =>
    (a |> startLevelPolling timer |> setStatus "Audio input started", true)
  | Err error =>
    (a |> stopLevelPolling
       |> setStatus ("Failed to start audio input: " ++ error)%string,
     false)
  end.

Definition stopStream (stop_stream : Result unit) (a : App) : App :=
  let a :=
    match stop_stream with
    | Ok _ => setStatus "Audio input stopped" a
    | Err error => setStatus ("Failed to stop audio input: " ++ error)%string a
    end in
  stopLevelPolling a.

Definition resetTestFlow (stop_stream : Result unit) (a : App) : App :=
  a |> stopStream stop_stream |> updCapture resetRangeTest.

(** The whole of [startRangeTest]: the rejection of the first
    [stop_stream] is swallowed by its [catch], so its outcome is not read;
    [now] is the value of [Date.now()]. *)
Definition startRangeTest
    (stop_stream start_stream : Result unit) (timer now : Z) (a : App) : App :=
  let a := stopLevelPolling a in
  let '(a, started) := startStream start_stream timer a in
  if started then
    a |> updCapture (startRangeTest now) |> setStatus "Range test started"
  else a.

End Flow.

Record Ui := mkUi {
  app : App;
  activePage : Page
}.

Definition initialUi : Ui := mkUi initialApp page_Home.

Definition goToResultStep (u : Ui) : Ui :=
  let r := rangeResult (capture (app u)) in
  match lowMidi r, highMidi r with
  | Some _, Some _ =>
    mkUi (updCapture (setAwaitingResultStep false) (app u)) page_Result
  | _, _ => u
  end.

(** The classes of the three steps of the stepper in [renderTestLive]. *)
Definition stepper (c : Capture) : string * string * string :=
  let lowDone := match lowMidi (rangeResult c) with Some _ => true | None => false end in
  let highDone := match highMidi (rangeResult c) with Some _ => true | None => false end in
  (if lowDone then "done"
   else if TestStage_eqb (testStage c) capture_low then "active" else "",
   if highDone then "done"
   else if TestStage_eqb (testStage c) capture_high then "active" else "",
   if TestStage_eqb (testStage c) done then "done"
   else if awaitingResultStep c then "active" else "")%string.

(** What can happen to the application: the three buttons of the test
    page with the outcomes of their backend calls, the View Result button,
    a change of page, and a firing of the polling interval. *)
Inductive Event :=
| StartTest (stop_stream start_stream : Result unit) (timer now : Z)
| Stop (stop_stream : Result unit)
| Reset (stop_stream : Result unit)
| ViewResult
| Navigate (page : Page)
| Interval (t : Tick).

Section Events.

Variable log2 : Q -> Q.

Definition handle (u : Ui) (e : Event) : Ui :=
  match e with
  | StartTest stop_stream start_stream timer now =>
    mkUi (Flow.startRangeTest stop_stream start_stream timer now (app u))
         (activePage u)
  | Stop stop_stream => mkUi (Flow.stopStream stop_stream (app u)) (activePage u)
  | Reset stop_stream => mkUi (Flow.resetTestFlow stop_stream (app u)) (activePage u)
  | ViewResult => goToResultStep u
  | Navigate page => mkUi (app u) page
  | Interval t => mkUi (pollTick log2 (app u) t) (activePage u)
  end.

Definition session (u : Ui) (es : list Event) : Ui := fold_left handle es u.

End Events.

(** The shapes of the capture state between events: no test (nothing
    recorded), a running test, or a finished test whose result has been
    viewed. *)
Definition noTest (c : Capture) : Prop :=
  stageRef c = idle /\ testStage c = idle
  /\ rangeResult c = emptyRange /\ awaitingResultStep c = false.

Definition viewed (c : Capture) : Prop :=
  stageRef c = done /\ awaitingResultStep c = false
  /\ staged (setAwaitingResultStep true c).

Definition coherent (c : Capture) : Prop := noTest c \/ staged c \/ viewed c.

(** A session: a test is started and finished by four ticks of a
    confident A2 and four of a confident A3, then the result is viewed;
    a second start is rejected by the backend. *)
Definition noteTick (now : Z) (freq : Q) : Tick :=
  mkTick (Ok (Some 0.2)) (Ok (mkRawPitch (Some freq) (Some 0.9) None None)) now.

Definition fullSession : list Event :=
  [Navigate page_Test_Live; StartTest (Ok tt) (Ok tt) 7 0]
  ++ map (fun t => Interval (noteTick t 110)) [100; 200; 300; 400]%Z
  ++ map (fun t => Interval (noteTick t 220)) [500; 600; 700; 800]%Z.

(** ** Input devices: [listInputDevices] and [onSelectDevice] *)

Record InputDeviceInfo := mkDevice {
  dev_id : string;
  dev_name : string;
  default_sample_rate : option Q;
  channels : option Q
}.

(** The device cells of [App] and the [localStorage] item under
    [SELECTED_DEVICE_KEY].  [selectedDeviceIdRef] mirrors [selectedDeviceId]
    after every render and is read through it. *)
Record Devices := mkDevices {
  devices : list InputDeviceInfo;
  selectedDeviceId : option string;
  storedDeviceId : option string;
  dv_status : string
}.

(** The decimal form of a count, as a template string prints it. *)
Definition show_nat (n : nat) : string := NilZero.string_of_uint (Nat.to_uint n).

(** A string in a condition: the empty string is false. *)
Definition truthy (s : string) : bool := negb (String.eqb s "").

(** [listedDevices.some((d) => d.id === deviceId)]. *)
Definition listsId (listed : list InputDeviceInfo) (deviceId : string) : bool :=
  existsb (fun d => String.eqb (dev_id d) deviceId) listed.

(** [listInputDevices] once [list_input_devices] has answered. *)
Definition listInputDevices (listedDevices : list InputDeviceInfo) (d : Devices)
  : Devices :=
  match listedDevices with
  | [] => mkDevices listedDevices None None "No input device found"
  | first :: _ =>
    let currentDeviceId := selectedDeviceId d in
    let selectedStillExists :=
      match currentDeviceId with
      | Some current => truthy current && listsId listedDevices current
      | None => false
      end in
    let nextSelectedId :=
      match currentDeviceId with
      | Some current =>
        if selectedStillExists && truthy current then current else dev_id first
      | None => dev_id first
      end in
    mkDevices listedDevices (Some nextSelectedId) (Some nextSelectedId)
      ("Found " ++ show_nat (List.length listedDevices) ++ " input device(s)")
  end.

(** The effect that lists the devices when the Home page opens: a rejection
    is reported in the status. *)
Definition listOnHome (answer : Result (list InputDeviceInfo)) (d : Devices)
  : Devices :=
  match answer with
  | Ok listedDevices => listInputDevices listedDevices d
  | Err error =>
    mkDevices (devices d) (selectedDeviceId d) (storedDeviceId d)
      ("Failed to list devices: " ++ error)
  end.

Definition onSelectDevice (deviceId : string) (d : Devices) : Devices :=
  mkDevices (devices d) (Some deviceId) (Some deviceId)
    match find (fun item => String.eqb (dev_id item) deviceId) (devices d) with
    | Some device => ("Selected: " ++ dev_name device)%string
    | None => dv_status d
    end.

(** What happens to the device cells: the Home page lists the devices, or
    the user picks an option of the device menu.  The menu offers the ids of
    the listed devices and nothing else. *)
Inductive DeviceEvent :=
| Listing (answer : Result (list InputDeviceInfo))
| Picked (deviceId : string).

Definition handleDevice (d : Devices) (e : DeviceEvent) : Devices :=
  match e with
  | Listing answer => listOnHome answer d
  | Picked deviceId =>
    if listsId (devices d) deviceId then onSelectDevice deviceId d else d
  end.

Definition deviceSession (d : Devices) (es : list DeviceEvent) : Devices :=
  fold_left handleDevice es d.

(** The selection is one of the listed devices, or there is neither a
    device nor a selection; and the stored id is the selection. *)
Definition offered (d : Devices) : Prop :=
  storedDeviceId d = selectedDeviceId d
  /\ match devices d with
     | [] => selectedDeviceId d = None
     | _ :: _ =>
       exists deviceId,
         selectedDeviceId d = Some deviceId
         /\ listsId (devices d) deviceId = true
     end.

(** ** Display: note names, the piano of the result page, the voice type *)

(** The decimal form of an integer, as a template string prints it. *)
Definition show_int (z : Z) : string := NilZero.string_of_int (Z.to_int z).

Definition noteNames : list string :=
  ["C"; "C#"; "D"; "D#"; "E"; "F"; "F#"; "G"; "G#"; "A"; "A#"; "B"]%string.

(** [((n % 12) + 12) % 12], with the remainder of JavaScript, which takes
    the sign of the dividend. *)
Definition noteIndexOf (n : Z) : Z := Z.rem (Z.rem n 12 + 12) 12.

(** [Math.floor(n / 12) - 1]. *)
Definition octaveOf (n : Z) : Z := (n / 12 - 1)%Z.

(** [noteNames[i]]; an index outside the array gives [undefined]. *)
Definition noteNameAt (i : Z) : string :=
  nth (Z.to_nat i) noteNames "undefined"%string.

Definition midiToNoteName (midi : Q) : string :=
  let nearest := Math_round midi in
  let noteIndex := noteIndexOf nearest in
  let octave := octaveOf nearest in
  (noteNameAt noteIndex ++ show_int octave)%string.

Record PianoKey := mkKey {
  key_midi : Z;
  key_name : string;
  isBlack : bool
}.

(** The body of the loop that fills [PIANO_KEYS]. *)
Definition pianoKey (midi : Z) : PianoKey :=
  let noteIndex := noteIndexOf midi in
  let octave := octaveOf midi in
  let isBlack := existsb (Z.eqb noteIndex) [1; 3; 6; 8; 10]%Z in
  mkKey midi (noteNameAt noteIndex ++ show_int octave)%string isBlack.

(** C2 (midi 36) to B4 (midi 71). *)
Definition PIANO_KEYS : list PianoKey :=
  map (fun i => pianoKey (Z.of_nat i)) (seq 36 36).

(** The class of one key of the piano in [renderResult]; [None] when the
    result is incomplete and the page shows its empty state instead. *)
Definition keyClass (r : RangeResult) (key : PianoKey) : option string :=
  match lowMidi r, highMidi r, comfortLowMidi r, comfortHighMidi r with
  | Some lo, Some hi, Some clo, Some chi =>
    let roundedLow := Math_round lo in
    let roundedHigh := Math_round hi in
    let roundedComfortLow := Math_round clo in
    let roundedComfortHigh := Math_round chi in
    let cls := "piano-key"%string in
    let cls := if isBlack key then (cls ++ " black")%string else cls in
    let cls :=
      if (roundedComfortLow <=? key_midi key)%Z && (key_midi key <=? roundedComfortHigh)%Z
      then (cls ++ " comfort")%string
      else if (roundedLow <=? key_midi key)%Z && (key_midi key <=? roundedHigh)%Z
      then (cls ++ " in-range")%string
      else cls in
    Some cls
  | _, _, _, _ => None
  end.

(** The semitone count in the headline of the result page. *)
Definition semitones (lo hi : Q) : Z := (Math_round hi - Math_round lo)%Z.

Definition getVoiceType (lowMidi highMidi : Q) : string * string :=
  let range := highMidi - lowMidi in
  let center := (lowMidi + highMidi) / 2 in
  let spans := ("Your range spans " ++ show_int (Math_round range))%string in
  if Qle_bool 60 center then
    ("Soprano Range",
     spans ++ " semitones in the upper register, typical of a soprano voice.")%string
  else if Qle_bool 55 center then
    ("Mezzo-Soprano Range",
     spans ++ " semitones, sitting between soprano and alto registers.")%string
  else if Qle_bool 50 center then
    ("Alto / Countertenor Range",
     spans ++ " semitones in the mid-upper register.")%string
  else if Qle_bool 45 center then
    ("Tenor Range",
     spans ++ " semitones, comfortable in the tenor register.")%string
  else if Qle_bool 40 center then
    ("Baritone Range",
     spans ++ " semitones, comfortable in the mid-low register.")%string
  else
    ("Bass Range", spans ++ " semitones in the lower register.")%string.

(** The voice types from the lowest register to the highest. *)
Definition voiceTypes : list string :=
  ["Bass Range"; "Baritone Range"; "Tenor Range"; "Alto / Countertenor Range";
   "Mezzo-Soprano Range"; "Soprano Range"]%string.

(** The place of a voice type in [voiceTypes]. *)
Fixpoint placeOf (name : string) (l : list string) : nat :=
  match l with
  | [] => 0
  | x :: rest => if String.eqb x name then 0 else S (placeOf name rest)
  end.

(** Whether a key class ends in one of the two highlights. *)
Definition highlighted (cls : string) : bool :=
  existsb (String.eqb cls)
    ["piano-key comfort"; "piano-key in-range";
     "piano-key black comfort"; "piano-key black in-range"]%string.

(** Reading a note name back: the letter, an optional sharp, and the
    octave in decimal give the semitone number. *)
Definition naturalIndex (letter : Ascii.ascii) : option Z :=
  if Ascii.eqb letter "C"%char then Some 0%Z
  else if Ascii.eqb letter "D"%char then Some 2%Z
  else if Ascii.eqb letter "E"%char then Some 4%Z
  else if Ascii.eqb letter "F"%char then Some 5%Z
  else if Ascii.eqb letter "G"%char then Some 7%Z
  else if Ascii.eqb letter "A"%char then Some 9%Z
  else if Ascii.eqb letter "B"%char then Some 11%Z
  else None.

Definition sharpened (rest : string) : Z * string :=
  match rest with
  | String c r => if Ascii.eqb c "#"%char then (1%Z, r) else (0%Z, rest)
  | EmptyString => (0%Z, rest)
  end.

Definition semitoneOfName (s : string) : option Z :=
  match s with
  | EmptyString => None
  | String letter rest =>
    match naturalIndex letter, NilZero.int_of_string (snd (sharpened rest)) with
    | Some base, Some octave =>
      Some (12 * (Z.of_int octave + 1) + base + fst (sharpened rest))%Z
    | _, _ => None
    end
  end.

(** The key of the piano for A2 (midi 45). *)
Definition keyA2 : PianoKey := pianoKey 45.

(** ** Further statements about the recommendations *)

(** Some call that [loadRecommendations] issues is rejected with [error]:
    the imported-only query, or, with the range complete, the primary query
    or, after an empty primary answer, the widened one. *)
Definition rejects (b : Backend) (r : RangeResult) (error : string) : Prop :=
  importedSongs b = Err error
  \/ exists importedOnly lo hi clo chi,
       importedSongs b = Ok importedOnly
       /\ r = mkRange (Some lo) (Some hi) (Some clo) (Some chi)
       /\ (rangedSongs b (primaryQuery lo hi clo chi) = Err error
           \/ (rangedSongs b (primaryQuery lo hi clo chi) = Ok []
               /\ rangedSongs b (fallbackQuery lo hi clo chi) = Err error)).

(** Some value of the range result is missing. *)
Definition incomplete (r : RangeResult) : Prop :=
  lowMidi r = None \/ highMidi r = None
  \/ comfortLowMidi r = None \/ comfortHighMidi r = None.

(** The three filters offered besides "all". *)
Definition bucketFilters : list string := ["great"; "singable"; "challenging"]%string.

(** A backend whose ranged query is rejected while the imported-only query
    answers. *)
Definition lockedBackend : Backend :=
  mkBackend (Ok [importedSong]) (fun _ => Err "database is locked").

(** A range test that stopped after the low note. *)
Definition lowOnlyRange : RangeResult := mkRange (Some 45) None None None.

(** Three songs, two of them imported, as a short list of recommendations
    shown collapsed under the filter "great". *)
Definition shortList : list SongRecommendation :=
  [song "a" "x" 95 false; importedSong; song "b" "y" 80 true].

Definition shortView : RecoView := mkRecoView "Idle" shortList false "great".

(** ** The interval callback, segment by segment

    The callback of [startLevelPolling] is an async function with two
    awaits.  It runs in three synchronous segments: from the firing of the
    interval to the first await, from the answer of [get_input_level] to
    the second await, and from the answer of [get_pitch_data] to its end.
    Other handlers, and segments of other callbacks, can run in between;
    nothing cancels a callback that is suspended at an await.  The locals
    of a suspended callback are carried in a record. *)

Record Suspended := mkSuspended {
  hasAnySuccess : bool;
  sampledLevel : Q
}.

(** Lines 463-468, up to the first await; [None] when the callback returns
    at once. *)
Definition callbackStarts (a : App) : App * option Suspended :=
  if pollInFlightRef a then (a, None)
  else
    let a := set_pollInFlightRef true a in
    (a, Some (mkSuspended false (rawInputLevelRef a))).

(** Lines 468-479, from the answer of [get_input_level] to the second
    await. *)
Definition levelAnswered (answer : Result (option Q)) (k : Suspended) (a : App)
  : App * Suspended :=
  match answer with
  | Ok level =>
    let safeLevel := safeLevelOf level in
    let boostedLevel := clamp01 (safeLevel * LEVEL_GAIN) in
    (a |> setRawInputLevel safeLevel
       |> set_rawInputLevelRef safeLevel
       |> setInputLevel boostedLevel
       |> set_inputLevelRef boostedLevel,
     mkSuspended true safeLevel)
  | Err _ => (a, k)
  end.

Section Segments.

Variable log2 : Q -> Q.

(** Lines 479-498, from the answer of [get_pitch_data] to the end; [now] is
    the value of [Date.now()]. *)
Definition pitchAnswered
    (answer : Result RawPitch) (now : Z) (k : Suspended) (a : App) : App :=
  let '(a, anySuccess) :=
    match answer with
    | Ok pitch =>
      let safePitch := safePitchOf pitch in
      (a |> setPitchData safePitch
         |> set_capture
              (handlePitchSampleForRangeTest log2 now (sampledLevel k) safePitch
                 (capture a)),
       true)
    | Err _ => (a, hasAnySuccess k)
    end in
  let a :=
    if anySuccess then set_pollErrorCountRef 0%Z a
    else set_pollErrorCountRef (pollErrorCountRef a + 1)%Z a in
  let a := if (20 <=? pollErrorCountRef a)%Z then stopLevelPolling a else a in
  set_pollInFlightRef false a.

(** What can still happen to the polling state between two handlers: the
    interval fires, or a suspended callback, with whatever locals it holds,
    receives one of its two answers. *)
Inductive Late :=
| Fires
| LevelArrives (answer : Result (option Q)) (k : Suspended)
| PitchArrives (answer : Result RawPitch) (now : Z) (k : Suspended).

Definition later (a : App) (e : Late) : App :=
  match e with
  | Fires =>
    match pollTimerRef a with
    | Some _ => fst (callbackStarts a)
    | None => a
    end
  | LevelArrives answer k => fst (levelAnswered answer k a)
  | PitchArrives answer now k => pitchAnswered answer now k a
  end.

Definition laterOn (a : App) (es : list Late) : App := fold_left later es a.

End Segments.

(** [startRangeTest] from the answer of [start_stream] to its end; the
    segment before it is [stopLevelPolling]. *)
Definition startRangeTest_resumed
    (start_stream : Result unit) (timer now : Z) (a : App) : App :=
  let '(a, started) := Flow.startStream start_stream timer a in
  if started then
    a |> updCapture (startRangeTest now) |> setStatus "Range test started"
  else a.

(** * Properties *)

(** ** Comparisons *)

Lemma Qlt_bool_iff (a b : Q) : Qlt_bool a b = true <-> a < b.
Proof.
  unfold Qlt_bool. rewrite negb_true_iff.
  split; intro H.
  - apply Qnot_le_lt. intro L. apply Qle_bool_iff in L. congruence.
  - destruct (Qle_bool b a) eqn:E; [|reflexivity].
    apply Qle_bool_iff in E. exfalso. apply (Qlt_not_le _ _ H E).
Qed.

Lemma Qlt_bool_false_iff (a b : Q) : Qlt_bool a b = false <-> b <= a.
Proof.
  unfold Qlt_bool. rewrite negb_false_iff. apply Qle_bool_iff.
Qed.

Lemma Qle_bool_false_iff (a b : Q) : Qle_bool a b = false <-> b < a.
Proof.
  rewrite <- Qlt_bool_iff. unfold Qlt_bool.
  destruct (Qle_bool a b); simpl; intuition congruence.
Qed.

Lemma TestStage_eqb_eq a b : TestStage_eqb a b = true <-> a = b.
Proof. destruct a, b; simpl; split; congruence. Qed.

(** [log2_dyadic] on the frequencies used below. *)
Example frequencyToMidi_A4 : frequencyToMidi log2_dyadic 440 = 69.
Proof. reflexivity. Qed.
Example frequencyToMidi_A5 : frequencyToMidi log2_dyadic 880 = 81.
Proof. reflexivity. Qed.
Example frequencyToMidi_A2 : frequencyToMidi log2_dyadic 110 = 45.
Proof. reflexivity. Qed.

(** ** [median] *)

Lemma insert_sorted_perm x l : Permutation (insert_sorted x l) (x :: l).
Proof.
  induction l as [|y l IH]; cbn; [reflexivity|].
  destruct (Qle_bool x y); [reflexivity|].
  rewrite IH. apply perm_swap.
Qed.

Lemma sort_asc_perm l : Permutation (sort_asc l) l.
Proof.
  induction l as [|x l IH]; cbn; [reflexivity|].
  rewrite insert_sorted_perm. apply perm_skip, IH.
Qed.

Lemma sort_asc_length l : List.length (sort_asc l) = List.length l.
Proof. apply Permutation_length, sort_asc_perm. Qed.

Lemma insert_sorted_sorted x l :
  Sorted Qle l -> Sorted Qle (insert_sorted x l).
Proof.
  induction l as [|y l IH]; intros Hs; cbn.
  - repeat constructor.
  - destruct (Qle_bool x y) eqn:E.
    + apply Qle_bool_iff in E. constructor; [exact Hs|]. constructor. exact E.
    + apply Qle_bool_false_iff in E.
      inversion Hs as [|? ? Hs' Hhd]; subst.
      constructor; [apply IH; exact Hs'|].
      destruct l as [|z l]; cbn.
      * constructor. apply Qlt_le_weak. exact E.
      * destruct (Qle_bool x z); constructor.
        -- apply Qlt_le_weak. exact E.
        -- inversion Hhd; subst. assumption.
Qed.

Lemma sort_asc_sorted l : Sorted Qle (sort_asc l).
Proof.
  induction l as [|x l IH]; cbn; [constructor|].
  apply insert_sorted_sorted, IH.
Qed.

Lemma nth_within (l : list Q) (lo hi : Q) (n : nat) :
  Forall (fun x => lo <= x <= hi) l -> (n < List.length l)%nat ->
  lo <= nth n l 0 <= hi.
Proof.
  intros Hall Hn.
  exact (proj1 (Forall_forall _ l) Hall (nth n l 0) (nth_In l 0 Hn)).
Qed.

(** The median of a non-empty list lies between any bounds of the list. *)
Lemma median_within (l : list Q) (lo hi : Q) :
  l <> [] ->
  Forall (fun x => lo <= x <= hi) l ->
  lo <= median l <= hi.
Proof.
  intros Hne Hall. unfold median.
  destruct l as [|x l']; [congruence|].
  set (l := x :: l') in *. clearbody l. clear x l'.
  assert (Hsorted : Forall (fun x => lo <= x <= hi) (sort_asc l)).
  { apply Forall_forall. intros y Hy.
    apply (Permutation_in _ (sort_asc_perm l)) in Hy.
    exact (proj1 (Forall_forall _ l) Hall y Hy). }
  assert (Hlen : (0 < List.length (sort_asc l))%nat).
  { rewrite sort_asc_length. destruct l; [congruence|cbn; lia]. }
  set (sorted := sort_asc l) in *. clearbody sorted.
  assert (Hmid : (List.length sorted / 2 < List.length sorted)%nat)
    by (apply Nat.div_lt; lia).
  pose proof (nth_within sorted lo hi _ Hsorted Hmid) as [A1 A2].
  destruct (List.length sorted mod 2 =? 0)%nat; [|split; assumption].
  assert (Hmid' : (List.length sorted / 2 - 1 < List.length sorted)%nat) by lia.
  pose proof (nth_within sorted lo hi _ Hsorted Hmid') as [B1 B2].
  set (a := nth (List.length sorted / 2 - 1) sorted 0) in *.
  set (b := nth (List.length sorted / 2) sorted 0) in *.
  assert (E : (a + b) / 2 == (a + b) * (1 # 2)) by field.
  rewrite E. split; lra.
Qed.

Example median_odd : median [57; 45; 81] = 57.
Proof. reflexivity. Qed.
Example median_even : median [57; 45; 81; 69] == 63.
Proof. reflexivity. Qed.
Example median_empty : median [] = 0.
Proof. reflexivity. Qed.

(** ** The validity filter *)

Lemma isValid_iff level pitch :
  isValid level pitch = true <->
  RMS_THRESHOLD < level /\ exists f, frequency_hz pitch = Some f /\ 0 < f.
Proof.
  unfold isValid, hasFreq.
  destruct (frequency_hz pitch) as [f|].
  - rewrite !andb_true_iff, orb_true_iff, !Qlt_bool_iff. split.
    + intros [[Hl Hf] _]. split; [exact Hl|]. exists f. split; [reflexivity|exact Hf].
    + intros [Hl [f' [E Hf]]]. injection E as <-. repeat split; auto.
  - rewrite andb_false_r. simpl. split; [discriminate|].
    intros [_ [f [E _]]]. discriminate.
Qed.

(** C1, as the program has it: in a capture stage a sample is treated as
    valid exactly when its level exceeds [RMS_THRESHOLD] and a positive
    frequency is present; confidence and note name play no part.  A valid
    sample goes on to the fast pass and the stability window, any other
    sample takes the invalid path. *)
Theorem sample_valid_iff_level_and_frequency
    (log2 : Q -> Q) (timestamp : Z) (level : Q) (pitch : PitchData) (c : Capture) :
  stageRef c = capture_low \/ stageRef c = capture_high ->
  (isValid level pitch = true <->
     RMS_THRESHOLD < level /\ exists f, frequency_hz pitch = Some f /\ 0 < f)
  /\ (isValid level pitch = false ->
      handlePitchSampleForRangeTest log2 timestamp level pitch c
      = invalidSample timestamp (silenceGate timestamp level c))
  /\ (forall f, isValid level pitch = true -> frequency_hz pitch = Some f ->
      handlePitchSampleForRangeTest log2 timestamp level pitch c
      = validSample log2 (stageRef c) timestamp f (confidence pitch)
          (silenceGate timestamp level c)).
Proof.
  intros Hs. split; [apply isValid_iff|]. split.
  - intros Hv. unfold handlePitchSampleForRangeTest. rewrite Hv.
    destruct Hs as [-> | ->]; reflexivity.
  - intros f Hv Hf. unfold handlePitchSampleForRangeTest. rewrite Hv, Hf.
    destruct Hs as [-> | ->]; reflexivity.
Qed.

Lemma sample_valid_iff_level_and_frequency_witness :
  (stageRef started = capture_low \/ stageRef started = capture_high)
  /\ isValid (s_level faintSample) (s_pitch faintSample) = true
  /\ feed log2_dyadic started faintSample
     = validSample log2_dyadic capture_low 100 440 0.05 started.
Proof.
  assert (Hs : stageRef started = capture_low \/ stageRef started = capture_high)
    by (left; reflexivity).
  split; [exact Hs|].
  destruct (sample_valid_iff_level_and_frequency log2_dyadic 100 0.2
              (s_pitch faintSample) started Hs) as [_ [_ Hvalid]].
  split; [reflexivity|].
  exact (Hvalid 440 eq_refl eq_refl).
Defined.

(** C1: the program does not apply the confidence rule it computes.  The
    handler evaluates [confidenceOk] (confidence above the floor, or a note
    name), as the claim words it, and then voids it: the last conjunct of
    [isValid] is [confidenceOk || hasFreq], which [hasFreq] alone makes
    true.  A loud sample at 440 Hz with confidence 0.05 and no note name
    fails [confidenceOk] and the worded test, yet the program, in this
    version and in the earlier one, treats it as valid and opens the
    stability window with it. *)
Lemma faint_confidence_sample_is_accepted :
  ~ (isValid (s_level faintSample) (s_pitch faintSample) = true
     <-> specValid (s_level faintSample) (s_pitch faintSample) = true)
  /\ specValid (s_level faintSample) (s_pitch faintSample) = false
  /\ isValid (s_level faintSample) (s_pitch faintSample) = true
  /\ sampleState (feed log2_dyadic started faintSample) = sample_valid
  /\ samples (stableRef (feed log2_dyadic started faintSample)) = [69]
  /\ confidenceOk (s_pitch faintSample) = false
  /\ sampleState (Legacy.feed log2_dyadic started faintSample) = sample_valid
  /\ samples (stableRef (Legacy.feed log2_dyadic started faintSample)) = [69].
Proof.
  split.
  - intros [H _]. specialize (H eq_refl). vm_compute in H. discriminate H.
  - vm_compute. repeat split; reflexivity.
Qed.

(** ** The comfort band *)

(** What [finishRangeTest] computes when both notes are recorded. *)
Lemma finishRangeTest_done lo hi c :
  lowMidiRef c = Some lo -> highMidiRef c = Some hi ->
  let center :=
    match stableHistoryRef c with
    | [] => (lo + hi) / 2
    | _ :: _ => median (stableHistoryRef c)
    end in
  stageRef (finishRangeTest c) = done
  /\ rangeResult (finishRangeTest c)
     = mkRange (Some lo) (Some hi)
         (Some (Qmax lo (center - 3))) (Some (Qmin hi (center + 3))).
Proof.
  intros Hlo Hhi. unfold finishRangeTest. rewrite Hlo, Hhi.
  split; reflexivity.
Qed.

(** The two clamps that always hold: the comfort band never starts below the
    low note and never ends above the high note. *)
Lemma comfort_band_clamped (lo hi center : Q) :
  lo <= Qmax lo (center - 3) /\ Qmin hi (center + 3) <= hi.
Proof. split; [apply Q.le_max_l | apply Q.le_min_l]. Qed.

(** The band is well formed when the centre lies within three semitones of
    the measured range. *)
Lemma comfort_band_ordered (lo hi center : Q) :
  lo <= hi -> lo - 3 <= center -> center <= hi + 3 ->
  Qmax lo (center - 3) <= Qmin hi (center + 3)
  /\ Qmax lo (center - 3) <= hi
  /\ lo <= Qmin hi (center + 3).
Proof.
  intros H1 H2 H3.
  assert (A : Qmax lo (center - 3) <= hi) by (apply Q.max_lub; lra).
  assert (B : lo <= Qmin hi (center + 3)) by (apply Q.min_glb; lra).
  split; [|split; assumption].
  apply Q.max_lub; apply Q.min_glb; lra.
Qed.

(** With an empty history the centre is the midpoint and the band is well
    formed for every pair admitted by the high-stage guard. *)
Lemma comfort_band_ordered_midpoint (lo hi : Q) :
  lo + HIGH_NOTE_MIN_SEMITONES <= hi ->
  let center := (lo + hi) / 2 in
  Qmax lo (center - 3) <= Qmin hi (center + 3).
Proof.
  intros H center. unfold HIGH_NOTE_MIN_SEMITONES in H.
  assert (E : center == (lo + hi) * (1 # 2)) by (unfold center; field).
  clearbody center.
  apply (comfort_band_ordered lo hi center); lra.
Qed.

(** C2 fails on the program.  The history that feeds the centre keeps every
    appended sample of the whole test, also those of windows that were
    abandoned: after unsteady input around midi 81 and 93, a low note of 45
    and a high note of 57 (accepted by the guard, 57 >= 45.5) the centre is
    81, so the band runs from 78 down to 57 and its lower end lies above
    the high note. *)
Theorem comfort_band_inverted_by_abandoned_windows :
  let c := run log2_dyadic started warbleThenRange in
  stageRef c = done
  /\ lowMidi (rangeResult c) = Some 45
  /\ highMidi (rangeResult c) = Some 57
  /\ 45 + HIGH_NOTE_MIN_SEMITONES <= 57
  /\ median (stableHistoryRef c) == 81
  /\ exists comfortLow comfortHigh,
       comfortLowMidi (rangeResult c) = Some comfortLow
       /\ comfortHighMidi (rangeResult c) = Some comfortHigh
       /\ comfortLow == 78
       /\ comfortHigh == 57
       /\ ~ comfortLow <= comfortHigh
       /\ ~ comfortLow <= 57.
Proof.
  cbv zeta.
  split; [vm_compute; reflexivity|].
  split; [vm_compute; reflexivity|].
  split; [vm_compute; reflexivity|].
  split; [unfold Qle; vm_compute; discriminate|].
  split; [vm_compute; reflexivity|].
  eexists. eexists.
  split; [vm_compute; reflexivity|].
  split; [vm_compute; reflexivity|].
  split; [vm_compute; reflexivity|].
  split; [vm_compute; reflexivity|].
  split; apply Qlt_not_le; vm_compute; reflexivity.
Qed.

(** When every sample of the history lies within three semitones of the
    measured range, the finished result has a well-formed comfort band
    inside that range. *)
Lemma comfort_band_ordered_near_history lo hi c :
  lowMidiRef c = Some lo -> highMidiRef c = Some hi -> lo <= hi ->
  Forall (fun x => lo - 3 <= x <= hi + 3) (stableHistoryRef c) ->
  exists comfortLow comfortHigh,
    rangeResult (finishRangeTest c)
    = mkRange (Some lo) (Some hi) (Some comfortLow) (Some comfortHigh)
    /\ lo <= comfortLow /\ comfortLow <= comfortHigh /\ comfortHigh <= hi.
Proof.
  intros Hlo Hhi Hle Hnear.
  destruct (finishRangeTest_done lo hi c Hlo Hhi) as [_ Hr].
  cbv zeta in Hr. rewrite Hr.
  eexists. eexists. split; [reflexivity|].
  set (center := match stableHistoryRef c with
                 | [] => (lo + hi) / 2
                 | _ :: _ => median (stableHistoryRef c)
                 end).
  assert (Hc : lo - 3 <= center <= hi + 3).
  { unfold center. destruct (stableHistoryRef c) as [|x l] eqn:E.
    - assert (E2 : (lo + hi) / 2 == (lo + hi) * (1 # 2)) by field.
      rewrite E2. split; lra.
    - apply median_within; [discriminate|exact Hnear]. }
  destruct Hc as [Hc1 Hc2].
  destruct (comfort_band_ordered lo hi center Hle Hc1 Hc2) as [A _].
  destruct (comfort_band_clamped lo hi center) as [B C].
  repeat split; assumption.
Qed.

(** ** Stage completion *)

Lemma completeStageWithMidi_low stableMidi timestamp c :
  completeStageWithMidi capture_low stableMidi timestamp c
  = c |> resetStability |> set_fastPassRef noFastPass
      |> set_lowMidiRef (Some stableMidi)
      |> updRangeResult (with_lowMidi stableMidi)
      |> setTestInstruction msg_low_captured
      |> setTestStage capture_high
      |> set_stageRef capture_high
      |> set_stageEnteredAtRef timestamp
      |> set_waitForSilenceBeforeHighRef false
      |> set_silenceStartRef None.
Proof. reflexivity. Qed.

(** C3, as the program has it: a high-stage completion whose candidate is
    below the recorded low pitch plus 0.5 leaves the stage and the recorded
    pitches as they were, but it first clears the stability window, the last
    good pitch and the fast pass; the retry prompt is set when at least
    200 ms have passed since the stage was entered, and an earlier attempt is
    dropped without a prompt. *)
Theorem high_candidate_too_close_is_rejected
    (candidate low : Q) (timestamp : Z) (c : Capture) :
  stageRef c = capture_high ->
  lowMidiRef c = Some low ->
  candidate < low + HIGH_NOTE_MIN_SEMITONES ->
  let c' := completeStageWithMidi capture_high candidate timestamp c in
  let cleared := c |> resetStability |> set_fastPassRef noFastPass in
  stageRef c' = capture_high
  /\ testStage c' = testStage c
  /\ highMidiRef c' = highMidiRef c
  /\ lowMidiRef c' = Some low
  /\ rangeResult c' = rangeResult c
  /\ c' = if (timestamp - stageEnteredAtRef c <? HIGH_STAGE_MIN_DELAY_MS)%Z
          then cleared
          else setTestInstruction msg_too_close cleared.
Proof.
  intros Hstage Hlow Hclose c' cleared.
  assert (E : c' = if (timestamp - stageEnteredAtRef c <? HIGH_STAGE_MIN_DELAY_MS)%Z
                   then cleared
                   else setTestInstruction msg_too_close cleared).
  { unfold c', completeStageWithMidi. cbn [TestStage_eqb].
    fold cleared.
    replace (stageEnteredAtRef cleared) with (stageEnteredAtRef c) by reflexivity.
    destruct (timestamp - stageEnteredAtRef c <? HIGH_STAGE_MIN_DELAY_MS)%Z;
      [reflexivity|].
    replace (lowMidiRef cleared) with (lowMidiRef c) by reflexivity.
    rewrite Hlow.
    apply Qlt_bool_iff in Hclose. rewrite Hclose. reflexivity. }
  rewrite E. subst cleared.
  destruct (timestamp - stageEnteredAtRef c <? HIGH_STAGE_MIN_DELAY_MS)%Z;
    cbn; repeat split; assumption.
Qed.

Lemma high_candidate_too_close_is_rejected_witness :
  stageRef midHigh = capture_high
  /\ lowMidiRef midHigh = Some 45
  /\ 45 < 45 + HIGH_NOTE_MIN_SEMITONES
  /\ completeStageWithMidi capture_high 45 800 midHigh
     = setTestInstruction msg_too_close
         (midHigh |> resetStability |> set_fastPassRef noFastPass).
Proof.
  assert (H1 : stageRef midHigh = capture_high) by reflexivity.
  assert (H2 : lowMidiRef midHigh = Some 45) by reflexivity.
  assert (H3 : 45 < 45 + HIGH_NOTE_MIN_SEMITONES) by reflexivity.
  split; [exact H1|]. split; [exact H2|]. split; [exact H3|].
  exact (proj2 (proj2 (proj2 (proj2 (proj2
    (high_candidate_too_close_is_rejected 45 45 800 midHigh H1 H2 H3)))))).
Defined.

(** C3 as worded fails: the rejected attempt does not leave the rest of the
    state unchanged.  The fast pass hands the handler's input state to the
    completion, which empties the stability window and forgets the last
    good pitch and the fast-pass start before it rejects. *)
Lemma rejected_attempt_clears_the_window :
  let c' := feed log2_dyadic midHigh sameAsLow in
  stageRef c' = capture_high
  /\ highMidiRef c' = None
  /\ testInstruction c' = msg_too_close
  /\ c' <> setTestInstruction msg_too_close midHigh
  /\ List.length (samples (stableRef midHigh)) = 3%nat
  /\ samples (stableRef c') = []
  /\ lastGoodPitchRef midHigh <> None /\ lastGoodPitchRef c' = None
  /\ fastPassRef midHigh = mkFastPass (Some capture_high) (Some 500%Z)
  /\ fastPassRef c' = noFastPass.
Proof.
  cbv zeta. repeat split; try reflexivity.
  - intros E. apply (f_equal (fun c => samples (stableRef c))) in E.
    vm_compute in E. discriminate E.
  - vm_compute. discriminate.
Qed.

(** ** The silence gate *)

(** Reduce the projections of updated records, and nothing else. *)
Ltac fields :=
  cbn [stageRef fastPassRef stageEnteredAtRef waitForSilenceBeforeHighRef
       silenceStartRef stableRef lastGoodPitchRef stableHistoryRef lowMidiRef
       highMidiRef testStage testInstruction stabilityMs sampleState
       awaitingResultStep rangeResult
       set_stageRef set_fastPassRef set_stageEnteredAtRef
       set_waitForSilenceBeforeHighRef set_silenceStartRef set_stableRef
       set_lastGoodPitchRef set_stableHistoryRef set_lowMidiRef set_highMidiRef
       setTestStage setTestInstruction setStabilityMs setSampleState
       setAwaitingResultStep setRangeResult updRangeResult
       startAt lastValidAt samples fp_stage fp_startAt
       lowMidi highMidi comfortLowMidi comfortHighMidi] in *.

Ltac split_matches :=
  repeat match goal with
         | |- context [match ?x with _ => _ end] => destruct x
         end.

Lemma gate_flag_resetStability c :
  waitForSilenceBeforeHighRef (resetStability c) = waitForSilenceBeforeHighRef c.
Proof. reflexivity. Qed.

Lemma gate_flag_finishRangeTest c :
  waitForSilenceBeforeHighRef (finishRangeTest c) = waitForSilenceBeforeHighRef c.
Proof. unfold finishRangeTest. split_matches; reflexivity. Qed.

Lemma gate_flag_completeStageWithMidi stage m t c :
  waitForSilenceBeforeHighRef c = false ->
  waitForSilenceBeforeHighRef (completeStageWithMidi stage m t c) = false.
Proof.
  intros H. unfold completeStageWithMidi.
  split_matches; try rewrite gate_flag_finishRangeTest; cbn; auto.
Qed.

Lemma silenceGate_disarmed t level c :
  waitForSilenceBeforeHighRef c = false -> silenceGate t level c = c.
Proof.
  intros H. unfold silenceGate. rewrite H, andb_false_r. reflexivity.
Qed.

Lemma gate_flag_invalidSample t c :
  waitForSilenceBeforeHighRef (invalidSample t c) = waitForSilenceBeforeHighRef c.
Proof. unfold invalidSample. split_matches; reflexivity. Qed.

Lemma gate_flag_trackStability log2 stage t f c :
  waitForSilenceBeforeHighRef c = false ->
  waitForSilenceBeforeHighRef (trackStability log2 stage t f c) = false.
Proof.
  intros H. unfold trackStability.
  split_matches; try apply gate_flag_completeStageWithMidi; cbn; auto.
Qed.

Lemma gate_flag_validSample log2 stage t f conf c :
  waitForSilenceBeforeHighRef c = false ->
  waitForSilenceBeforeHighRef (validSample log2 stage t f conf c) = false.
Proof.
  intros H. unfold validSample.
  split_matches;
    try apply gate_flag_completeStageWithMidi;
    try apply gate_flag_trackStability; cbn; auto.
Qed.

Lemma gate_flag_handler log2 t level pitch c :
  waitForSilenceBeforeHighRef c = false ->
  waitForSilenceBeforeHighRef
    (handlePitchSampleForRangeTest log2 t level pitch c) = false.
Proof.
  intros H. unfold handlePitchSampleForRangeTest.
  rewrite (silenceGate_disarmed t level c H).
  split_matches; try rewrite gate_flag_invalidSample;
    try apply gate_flag_validSample; auto.
Qed.

Lemma gate_flag_run log2 ss : forall c,
  waitForSilenceBeforeHighRef c = false ->
  waitForSilenceBeforeHighRef (run log2 c ss) = false.
Proof.
  induction ss as [|s ss IH]; intros c H; [exact H|].
  cbn. apply IH. unfold feed. apply gate_flag_handler. exact H.
Qed.

(** C4, as the program has it: the gate is never armed.  At any point of a
    range test the flag [waitForSilenceBeforeHighRef] is false, the gate
    block leaves the state alone, and the transition from the low to the
    high stage sets the flag to false again. *)
Theorem silence_gate_is_never_armed
    (log2 : Q -> Q) (now : Z) (before : Capture) (ss : list Sample) :
  let c := run log2 (startRangeTest now before) ss in
  waitForSilenceBeforeHighRef c = false
  /\ (forall timestamp level, silenceGate timestamp level c = c)
  /\ (forall stableMidi timestamp,
        let c' := completeStageWithMidi capture_low stableMidi timestamp c in
        stageRef c' = capture_high
        /\ lowMidiRef c' = Some stableMidi
        /\ stageEnteredAtRef c' = timestamp
        /\ waitForSilenceBeforeHighRef c' = false
        /\ silenceStartRef c' = None).
Proof.
  intros c.
  assert (H : waitForSilenceBeforeHighRef c = false)
    by (apply gate_flag_run; reflexivity).
  split; [exact H|]. split.
  - intros t level. apply silenceGate_disarmed. exact H.
  - intros m t. cbn. repeat split.
Qed.

(** The gate block itself, were the flag ever set in the high stage: quiet
    for 200 ms clears the flag, a louder sample restarts the wait, and in
    either case the sample goes on to the validity filter. *)
Lemma silenceGate_armed timestamp level c :
  stageRef c = capture_high ->
  waitForSilenceBeforeHighRef c = true ->
  let since := match silenceStartRef c with Some s => s | None => timestamp end in
  let c' := silenceGate timestamp level c in
  (level < RMS_THRESHOLD * 0.6 -> (SILENCE_RESET_MS <= timestamp - since)%Z ->
     waitForSilenceBeforeHighRef c' = false /\ silenceStartRef c' = None)
  /\ (level < RMS_THRESHOLD * 0.6 -> (timestamp - since < SILENCE_RESET_MS)%Z ->
     waitForSilenceBeforeHighRef c' = true /\ silenceStartRef c' = Some since)
  /\ (RMS_THRESHOLD * 0.6 <= level ->
     waitForSilenceBeforeHighRef c' = true /\ silenceStartRef c' = None).
Proof.
  intros Hs Hw since c'. unfold c', silenceGate. rewrite Hs, Hw. cbn [TestStage_eqb andb].
  fold since.
  split; [|split].
  - intros Hl Ht. apply Qlt_bool_iff in Hl. rewrite Hl.
    apply Z.leb_le in Ht. rewrite Ht. split; reflexivity.
  - intros Hl Ht. apply Qlt_bool_iff in Hl. rewrite Hl.
    apply Z.leb_gt in Ht. rewrite Ht. split; [exact Hw|reflexivity].
  - intros Hl. apply Qlt_bool_false_iff in Hl. rewrite Hl.
    split; [exact Hw|reflexivity].
Qed.

(** C4 as worded fails on both counts.  The low note is recorded at time
    400 and the gate is not armed; the sample that arrives 100 ms later,
    with no silence in between, enters the stability window and starts the
    fast pass.  And with the flag set by hand, the same loud sample is
    accepted all the same. *)
Lemma high_stage_accepts_samples_without_silence :
  let entered := run log2_dyadic started lowNote in
  stageRef entered = capture_high
  /\ waitForSilenceBeforeHighRef entered = false
  /\ samples (stableRef (feed log2_dyadic entered rightAfterLow)) = [57]
  /\ fastPassRef (feed log2_dyadic entered rightAfterLow)
     = mkFastPass (Some capture_high) (Some 500%Z)
  /\ waitForSilenceBeforeHighRef armedGate = true
  /\ waitForSilenceBeforeHighRef (feed log2_dyadic armedGate rightAfterLow) = true
  /\ samples (stableRef (feed log2_dyadic armedGate rightAfterLow)) = [57].
Proof. vm_compute. repeat split; reflexivity. Qed.

(** ** The stability window *)

Lemma completeStageWithMidi_low_records stableMidi timestamp c :
  let c' := completeStageWithMidi capture_low stableMidi timestamp c in
  stageRef c' = capture_high
  /\ lowMidiRef c' = Some stableMidi
  /\ lowMidi (rangeResult c') = Some stableMidi
  /\ stageEnteredAtRef c' = timestamp.
Proof. cbn. repeat split. Qed.

Lemma completeStageWithMidi_high_records low stableMidi timestamp c :
  lowMidiRef c = Some low ->
  low + HIGH_NOTE_MIN_SEMITONES <= stableMidi ->
  (HIGH_STAGE_MIN_DELAY_MS <= timestamp - stageEnteredAtRef c)%Z ->
  let c' := completeStageWithMidi capture_high stableMidi timestamp c in
  stageRef c' = done
  /\ highMidiRef c' = Some stableMidi
  /\ lowMidi (rangeResult c') = Some low
  /\ highMidi (rangeResult c') = Some stableMidi.
Proof.
  intros Hlow Hfar Hlate. unfold completeStageWithMidi. cbn [TestStage_eqb].
  set (cleared := c |> resetStability |> set_fastPassRef noFastPass).
  replace (stageEnteredAtRef cleared) with (stageEnteredAtRef c) by reflexivity.
  replace (lowMidiRef cleared) with (lowMidiRef c) by reflexivity.
  apply Z.ltb_ge in Hlate. rewrite Hlate, Hlow.
  apply Qlt_bool_false_iff in Hfar. rewrite Hfar.
  unfold finishRangeTest. cbn. rewrite Hlow.
  repeat split.
Qed.

Lemma pushCapped_spec (buf : list Q) (x : Q) :
  pushCapped buf x
  = if (List.length buf <? 20)%nat then buf ++ [x] else tl (buf ++ [x]).
Proof.
  unfold pushCapped. rewrite length_app. cbn [List.length].
  destruct (List.length buf <? 20)%nat eqn:E.
  - apply Nat.ltb_lt in E.
    replace (20 <? List.length buf + 1)%nat with false; [reflexivity|].
    symmetry. apply Nat.ltb_ge. lia.
  - apply Nat.ltb_ge in E.
    replace (20 <? List.length buf + 1)%nat with true; [reflexivity|].
    symmetry. apply Nat.ltb_lt. lia.
Qed.

Lemma pushCapped_bounded (buf : list Q) (x : Q) :
  (List.length buf <= 20)%nat -> (List.length (pushCapped buf x) <= 20)%nat.
Proof.
  intros H. rewrite pushCapped_spec.
  destruct (List.length buf <? 20)%nat eqn:E.
  - apply Nat.ltb_lt in E. rewrite length_app. cbn. lia.
  - destruct buf; cbn in *; [lia|]. rewrite length_app. cbn. lia.
Qed.

(** The three outcomes of [trackStability]. *)
Lemma trackStability_cases log2 stage timestamp freq c :
  let x := smooth (lastGoodPitchRef c) (frequencyToMidi log2 freq) in
  let buf := samples (stableRef c) in
  trackStability log2 stage timestamp freq c
  = if restarts buf x then restarted timestamp x c
    else if (STABLE_REQUIRED_MS <=? elapsedSince (stableRef c) timestamp)%Z
    then completeStageWithMidi stage (median (pushCapped buf x)) timestamp
           (appended timestamp x c)
    else appended timestamp x c.
Proof.
  intros x buf. unfold trackStability, restarts, restarted, appended, elapsedSince.
  fields. fold x. fold buf.
  destruct buf as [|b buf'] eqn:Eb; [reflexivity|].
  destruct (Qlt_bool STABLE_NOTE_DELTA (Qabs (x - median (b :: buf'))));
    reflexivity.
Qed.

(** C5, as the program has it.  For a valid sample that reaches the
    stability window with smoothed pitch [x]: the window restarts as [[x]]
    anchored at the sample's timestamp when it is empty or [x] is more than
    2 semitones from its median; otherwise [x] is appended, the oldest
    element leaving once the length would exceed 20.  When an appended
    sample brings the time since the anchor to 600 ms or more, the stage
    completion is invoked with the median of the window: the low stage
    records it and moves on, the high stage records it and finishes unless
    [completeStageWithMidi] rejects it. *)
Theorem stability_window_step
    (log2 : Q -> Q) (stage : TestStage) (timestamp : Z) (freq : Q) (c : Capture) :
  stage = capture_low \/ stage = capture_high ->
  stageRef c = stage ->
  let x := smooth (lastGoodPitchRef c) (frequencyToMidi log2 freq) in
  let buf := samples (stableRef c) in
  let kept := pushCapped buf x in
  let elapsed := elapsedSince (stableRef c) timestamp in
  let c' := trackStability log2 stage timestamp freq c in
  kept = (if (List.length buf <? 20)%nat then buf ++ [x] else tl (buf ++ [x]))
  /\ (restarts buf x = true ->
      stableRef c' = mkStability (Some timestamp) (Some timestamp) [x]
      /\ stageRef c' = stage
      /\ lowMidiRef c' = lowMidiRef c
      /\ highMidiRef c' = highMidiRef c)
  /\ (restarts buf x = false -> (elapsed < STABLE_REQUIRED_MS)%Z ->
      stableRef c' = mkStability (startAt (stableRef c)) (Some timestamp) kept
      /\ stageRef c' = stage
      /\ lowMidiRef c' = lowMidiRef c
      /\ highMidiRef c' = highMidiRef c)
  /\ (restarts buf x = false -> (STABLE_REQUIRED_MS <= elapsed)%Z ->
      c' = completeStageWithMidi stage (median kept) timestamp (appended timestamp x c)
      /\ (stage = capture_low ->
          stageRef c' = capture_high /\ lowMidiRef c' = Some (median kept))
      /\ (forall low,
          stage = capture_high ->
          lowMidiRef c = Some low ->
          low + HIGH_NOTE_MIN_SEMITONES <= median kept ->
          (HIGH_STAGE_MIN_DELAY_MS <= timestamp - stageEnteredAtRef c)%Z ->
          stageRef c' = done /\ highMidiRef c' = Some (median kept))).
Proof.
  intros Hstage Hc x buf kept elapsed c'.
  split; [apply pushCapped_spec|].
  pose proof (trackStability_cases log2 stage timestamp freq c) as E.
  cbv zeta in E. fold x buf kept elapsed c' in E.
  split; [|split].
  - intros R. rewrite E, R. cbn. repeat split. exact Hc.
  - intros R Hlt. rewrite E, R.
    apply Z.leb_gt in Hlt. rewrite Hlt. cbn. repeat split. exact Hc.
  - intros R Hge. rewrite E, R.
    apply Z.leb_le in Hge. rewrite Hge.
    split; [reflexivity|]. split.
    + intros ->. cbn. split; reflexivity.
    + intros low -> Hlow Hfar Hlate.
      destruct (completeStageWithMidi_high_records low (median kept) timestamp
                  (appended timestamp x c) Hlow Hfar Hlate) as [A [B _]].
      split; assumption.
Qed.

Lemma stability_window_step_witness :
  let x := smooth (lastGoodPitchRef holdingLow) (frequencyToMidi log2_dyadic 110) in
  let kept := pushCapped (samples (stableRef holdingLow)) x in
  let c' := trackStability log2_dyadic capture_low 700 110 holdingLow in
  (capture_low = capture_low \/ capture_low = capture_high)
  /\ stageRef holdingLow = capture_low
  /\ restarts (samples (stableRef holdingLow)) x = false
  /\ (STABLE_REQUIRED_MS <= elapsedSince (stableRef holdingLow) 700)%Z
  /\ stageRef c' = capture_high
  /\ lowMidiRef c' = Some (median kept).
Proof.
  intros x kept c'.
  assert (H1 : capture_low = capture_low \/ capture_low = capture_high)
    by (left; reflexivity).
  assert (H2 : stageRef holdingLow = capture_low) by reflexivity.
  assert (H3 : restarts (samples (stableRef holdingLow)) x = false)
    by (vm_compute; reflexivity).
  assert (H4 : (STABLE_REQUIRED_MS <= elapsedSince (stableRef holdingLow) 700)%Z)
    by (vm_compute; discriminate).
  split; [exact H1|]. split; [exact H2|]. split; [exact H3|]. split; [exact H4|].
  destruct (stability_window_step log2_dyadic capture_low 700 110 holdingLow H1 H2)
    as [_ [_ [_ Hhold]]].
  destruct (Hhold H3 H4) as [_ [Hlow _]].
  exact (Hlow eq_refl).
Defined.

(** The window never holds more than 20 samples. *)
Lemma window_bounded_completeStageWithMidi stage m t c :
  samples (stableRef (completeStageWithMidi stage m t c)) = [].
Proof.
  unfold completeStageWithMidi, finishRangeTest.
  split_matches; reflexivity.
Qed.

Lemma window_bounded_handler log2 t level pitch c :
  (List.length (samples (stableRef c)) <= 20)%nat ->
  (List.length (samples (stableRef
     (handlePitchSampleForRangeTest log2 t level pitch c))) <= 20)%nat.
Proof.
  intros H.
  assert (G : samples (stableRef (silenceGate t level c)) = samples (stableRef c))
    by (unfold silenceGate; split_matches; reflexivity).
  assert (Hx : forall x, (List.length (pushCapped (samples (stableRef c)) x) <= 20)%nat)
    by (intros x; apply pushCapped_bounded; exact H).
  assert (T : forall stage f c1,
             samples (stableRef c1) = samples (stableRef c) ->
             (List.length (samples (stableRef (trackStability log2 stage t f c1)))
              <= 20)%nat).
  { intros stage f c1 E. unfold trackStability. fields. rewrite E.
    split_matches; rewrite ?window_bounded_completeStageWithMidi; fields;
      cbn [List.length]; try lia; apply Hx. }
  unfold handlePitchSampleForRangeTest, validSample, invalidSample,
    resetStability, emptyStability.
  split_matches; rewrite ?window_bounded_completeStageWithMidi; fields;
    cbn [List.length]; try lia; try (rewrite G; exact H); try (apply T; exact G).
Qed.

Lemma window_bounded log2 ss : forall c,
  (List.length (samples (stableRef c)) <= 20)%nat ->
  (List.length (samples (stableRef (run log2 c ss))) <= 20)%nat.
Proof.
  induction ss as [|s ss IH]; intros c H; [exact H|].
  cbn. apply IH. apply window_bounded_handler. exact H.
Qed.

(** C5 as worded fails in the high stage: reaching the 600 ms hold does not
    always finalise the stage with the median.  Here the high stage was
    entered at 400 with a low note of 45; the window is anchored at 500 and
    the sample at 1100 is appended (elapsed 600), but its median, 45, is
    below 45.5 and the completion is rejected. *)
Lemma hold_reached_but_stage_not_finalised :
  let s := sample 1100 0.2 110 0.3 in
  let x := smooth (lastGoodPitchRef holdingSame) (frequencyToMidi log2_dyadic 110) in
  let kept := pushCapped (samples (stableRef holdingSame)) x in
  let c' := feed log2_dyadic holdingSame s in
  stageRef holdingSame = capture_high
  /\ isValid (s_level s) (s_pitch s) = true
  /\ restarts (samples (stableRef holdingSame)) x = false
  /\ elapsedSince (stableRef holdingSame) 1100 = 600%Z
  /\ median kept == 45
  /\ stageRef c' = capture_high
  /\ highMidiRef c' = None
  /\ highMidiRef c' <> Some (median kept).
Proof.
  cbv zeta. repeat split; try (vm_compute; reflexivity).
  vm_compute. discriminate.
Qed.

(** ** The fast pass *)

Lemma silenceGate_keeps t level c :
  let g := silenceGate t level c in
  stageRef g = stageRef c
  /\ fastPassRef g = fastPassRef c
  /\ stableRef g = stableRef c
  /\ lowMidiRef g = lowMidiRef c
  /\ highMidiRef g = highMidiRef c
  /\ stageEnteredAtRef g = stageEnteredAtRef c.
Proof.
  unfold silenceGate. split_matches; repeat split.
Qed.

Lemma handler_on_valid log2 stage s f c :
  stage = capture_low \/ stage = capture_high ->
  stageRef c = stage ->
  isValid (s_level s) (s_pitch s) = true ->
  frequency_hz (s_pitch s) = Some f ->
  feed log2 c s
  = validSample log2 stage (s_timestamp s) f (confidence (s_pitch s))
      (silenceGate (s_timestamp s) (s_level s) c).
Proof.
  intros Hs Hc Hv Hf. unfold feed, handlePitchSampleForRangeTest.
  rewrite Hc, Hv, Hf. destruct Hs as [-> | ->]; reflexivity.
Qed.







(** A confident sample that arrives once the dwell is over completes the
    stage with its raw pitch. *)
Lemma dwell_completes log2 stage since s f c :
  stage = capture_low \/ stage = capture_high ->
  stageRef c = stage ->
  fastPassRef c = mkFastPass (Some stage) (Some since) ->
  confident s ->
  frequency_hz (s_pitch s) = Some f ->
  (CONFIDENCE_PASS_MS <= s_timestamp s - since)%Z ->
  feed log2 c s
  = completeStageWithMidi stage (frequencyToMidi log2 f) (s_timestamp s)
      (silenceGate (s_timestamp s) (s_level s) c).
Proof.
  intros Hs Hc Hfp [Hv Hconf] Hf Hlong.
  rewrite (handler_on_valid log2 stage s f c Hs Hc Hv Hf).
  destruct (silenceGate_keeps (s_timestamp s) (s_level s) c) as [_ [G2 _]].
  unfold validSample.
  apply Qle_bool_iff in Hconf. rewrite Hconf, G2, Hfp. fields.
  unfold fp_stage_is. fields.
  replace (TestStage_eqb stage stage) with true
    by (destruct Hs as [-> | ->]; reflexivity).
  apply Z.leb_le in Hlong. rewrite Hlong. reflexivity.
Qed.



Lemma run_app log2 c l1 l2 :
  run log2 c (l1 ++ l2) = run log2 (run log2 c l1) l2.
Proof. unfold run. apply fold_left_app. Qed.


Lemma fp_stage_is_none stage : fp_stage_is noFastPass stage = false.
Proof. reflexivity. Qed.


Lemma confident_tone t freq :
  0 < freq -> confident (sample t 0.2 freq 0.9).
Proof.
  intros Hf. split.
  - apply isValid_iff. split; [reflexivity|]. exists freq. split; [reflexivity|exact Hf].
  - unfold Qle. vm_compute. discriminate.
Qed.



(** *** The minimum delay of the high stage under a steady clock

    The guard on [HIGH_STAGE_MIN_DELAY_MS] can only drop an attempt when
    the clock steps back: with non-decreasing timestamps the dwell and the
    window begin after the stage was entered, and an attempt needs 250 ms
    of the one or 600 ms of the other. *)

Ltac settle :=
  unfold settled; fields;
  repeat split; intros; try discriminate; try lia;
  repeat match goal with
         | H : Some _ = Some _ |- _ => injection H as H; subst
         end;
  try lia; auto.

Lemma settled_completeStageWithMidi stage m t t' c :
  settled t c -> (t <= t')%Z ->
  settled t' (completeStageWithMidi stage m t' c).
Proof.
  intros [H1 [H2 H3]] Ht.
  unfold completeStageWithMidi, finishRangeTest, resetStability,
    emptyStability, noFastPass.
  split_matches; settle.
Qed.

Lemma settled_trackStability log2 stage t t' f c :
  settled t c -> (t <= t')%Z ->
  settled t' (trackStability log2 stage t' f c).
Proof.
  intros H Ht. rewrite trackStability_cases.
  assert (Hr : forall x, settled t' (restarted t' x c)).
  { intros x. destruct H as [H1 [H2 H3]]. unfold restarted. settle. }
  assert (Ha : forall x, settled t (appended t' x c)).
  { intros x. destruct H as [H1 [H2 H3]]. unfold appended. settle. }
  destruct (restarts _ _); [apply Hr|].
  destruct (_ <=? _)%Z.
  - apply (settled_completeStageWithMidi _ _ t); [apply Ha|exact Ht].
  - destruct (Ha (smooth (lastGoodPitchRef c) (frequencyToMidi log2 f)))
      as [A1 [A2 A3]].
    split; [lia|]. split; assumption.
Qed.

Lemma settled_set_fastPassRef t t' stage c :
  settled t c -> (t <= t')%Z ->
  settled t (set_fastPassRef (mkFastPass stage (Some t')) c)
  /\ settled t (set_fastPassRef noFastPass c).
Proof.
  intros [H1 [H2 H3]] Ht. unfold noFastPass. split; settle.
Qed.

Lemma settled_feed log2 t s c :
  settled t c -> (t <= s_timestamp s)%Z ->
  settled (s_timestamp s) (feed log2 c s).
Proof.
  intros H Ht.
  assert (Hmono : forall c0, settled t c0 -> settled (s_timestamp s) c0).
  { intros c0 [A1 [A2 A3]]. split; [lia|]. split; assumption. }
  unfold feed, handlePitchSampleForRangeTest.
  destruct (stageRef c); try (apply Hmono; exact H).
  all: assert (Hg : settled t (silenceGate (s_timestamp s) (s_level s) c))
      by (destruct H as [H1 [H2 H3]];
          destruct (silenceGate_keeps (s_timestamp s) (s_level s) c)
            as [_ [G2 [G3 [_ [_ G6]]]]];
          unfold settled; rewrite G2, G3, G6; repeat split; assumption);
    generalize dependent (silenceGate (s_timestamp s) (s_level s) c);
    intros g Hg;
    assert (Hinv : settled (s_timestamp s) (invalidSample (s_timestamp s) g))
      by (destruct Hg as [G1 [G2 G3]];
          unfold invalidSample, resetStability, emptyStability, noFastPass;
          split_matches; settle);
    destruct (isValid _ _); [|exact Hinv];
    destruct (frequency_hz _); [|exact Hinv];
    destruct (settled_set_fastPassRef t (s_timestamp s) (Some capture_low) g Hg Ht)
      as [Fl Fn];
    destruct (settled_set_fastPassRef t (s_timestamp s) (Some capture_high) g Hg Ht)
      as [Fh _];
    unfold validSample;
    split_matches;
    first [ apply (settled_completeStageWithMidi _ _ t); assumption
          | apply (settled_trackStability log2 _ t); assumption ].
Qed.

Lemma settled_run log2 : forall ss t c,
  settled t c -> nondecreasing t ss ->
  settled (lastTimestamp t ss) (run log2 c ss).
Proof.
  induction ss as [|s ss IH]; intros t c H Hn; [exact H|].
  destruct Hn as [Ht Hn].
  change (run log2 c (s :: ss)) with (run log2 (feed log2 c s) ss).
  change (lastTimestamp t (s :: ss)) with (lastTimestamp (s_timestamp s) ss).
  apply IH; [apply (settled_feed log2 t); assumption|exact Hn].
Qed.

Lemma settled_startRangeTest now c : settled now (startRangeTest now c).
Proof. unfold settled. cbn. repeat split; intros; try discriminate; lia. Qed.

(** In a range test whose timestamps never step back, an attempt of either
    kind comes at least [HIGH_STAGE_MIN_DELAY_MS] after the stage was
    entered. *)
Lemma attempts_come_after_min_delay log2 now before ss (timestamp : Z) :
  nondecreasing now ss ->
  let c := run log2 (startRangeTest now before) ss in
  (forall since,
     fp_startAt (fastPassRef c) = Some since ->
     (CONFIDENCE_PASS_MS <= timestamp - since)%Z ->
     (HIGH_STAGE_MIN_DELAY_MS <= timestamp - stageEnteredAtRef c)%Z)
  /\ (forall anchor,
     startAt (stableRef c) = Some anchor ->
     (STABLE_REQUIRED_MS <= timestamp - anchor)%Z ->
     (HIGH_STAGE_MIN_DELAY_MS <= timestamp - stageEnteredAtRef c)%Z).
Proof.
  intros Hn c.
  destruct (settled_run log2 ss now (startRangeTest now before)
              (settled_startRangeTest now before) Hn)
    as [_ [H2 H3]].
  fold c in H2, H3.
  unfold CONFIDENCE_PASS_MS, STABLE_REQUIRED_MS, HIGH_STAGE_MIN_DELAY_MS.
  split.
  - intros since E Hd. specialize (H2 since E). lia.
  - intros anchor E Hd. specialize (H3 anchor E). lia.
Qed.

(** ** Recommendations: the fallback query *)

Lemma fallback_differs lo hi clo chi :
  fallbackQuery lo hi clo chi <> primaryQuery lo hi clo chi.
Proof.
  unfold fallbackQuery, primaryQuery. intros E.
  injection E as E1 _ _ _. lia.
Qed.

(** The log and the outcome of [fetchRecommendations] on a complete range,
    by the answers of the backend. *)
Lemma fetchRecommendations_complete b lo hi clo chi :
  let primary := recommend_songs (primaryQuery lo hi clo chi) in
  let fallback := recommend_songs (fallbackQuery lo hi clo chi) in
  fetchRecommendations b (mkRange (Some lo) (Some hi) (Some clo) (Some chi)) []
  = match importedSongs b with
    | Err e => (Err e, [recommend_imported_songs])
    | Ok importedOnly =>
      match rangedSongs b (primaryQuery lo hi clo chi) with
      | Err e => (Err e, [recommend_imported_songs; primary])
      | Ok (first :: more) =>
        (Ok (mergeRecommendations (first :: more) importedOnly, None),
         [recommend_imported_songs; primary])
      | Ok [] =>
        match rangedSongs b (fallbackQuery lo hi clo chi) with
        | Err e => (Err e, [recommend_imported_songs; primary; fallback])
        | Ok [] =>
          (Ok (mergeRecommendations [] importedOnly, None),
           [recommend_imported_songs; primary; fallback])
        | Ok (first :: more) =>
          (Ok (mergeRecommendations (first :: more) importedOnly, Some msg_closest),
           [recommend_imported_songs; primary; fallback])
        end
      end
    end.
Proof.
  intros primary fallback.
  unfold fetchRecommendations, bind, invoke, ret. cbn.
  destruct (importedSongs b) as [importedOnly|e]; [|reflexivity].
  destruct (rangedSongs b (primaryQuery lo hi clo chi)) as [[|first more]|e];
    cbn; try reflexivity.
  destruct (rangedSongs b (fallbackQuery lo hi clo chi)) as [[|first more]|e];
    reflexivity.
Qed.

(** On a complete range the widened query is in the log exactly when the
    primary query is and returned no song; when the widened query returns
    songs, the status reports "closest challenge songs" and the list shown
    is made of those songs and the imported ones. *)
Lemma fallback_follows_empty_primary
    (b : Backend) (lo hi clo chi : Q) (v : RecoView) :
  let r := mkRange (Some lo) (Some hi) (Some clo) (Some chi) in
  let primary := primaryQuery lo hi clo chi in
  let fallback := fallbackQuery lo hi clo chi in
  let v' := fst (loadRecommendations b r v) in
  let log := snd (loadRecommendations b r v) in
  primary = mkQuery (Math_round lo) (Math_round hi) (Math_round clo) (Math_round chi)
  /\ fallback = mkQuery (userLowMidi primary - 4) (userHighMidi primary + 4)
                  (q_comfortLowMidi primary - 2) (q_comfortHighMidi primary + 2)
  /\ (issued (recommend_songs fallback) log
      <-> issued (recommend_songs primary) log /\ rangedSongs b primary = Ok [])
  /\ (forall found,
      issued (recommend_songs fallback) log ->
      rangedSongs b fallback = Ok found -> found <> [] ->
      rv_status v' = msg_closest
      /\ exists importedOnly,
           importedSongs b = Ok importedOnly
           /\ recommendations v' = mergeRecommendations found importedOnly)
  /\ (~ issued (recommend_songs fallback) log -> rv_status v' <> msg_closest
      \/ rv_status v = msg_closest).
Proof.
  intros r primary fallback v' log.
  split; [reflexivity|]. split; [reflexivity|].
  pose proof (fallback_differs lo hi clo chi) as Hne.
  fold primary fallback in Hne.
  assert (Hcmd : recommend_songs fallback <> recommend_songs primary)
    by (intros E; apply Hne; congruence).
  assert (Hcmd' : recommend_imported_songs <> recommend_songs fallback)
    by discriminate.
  unfold v', log, loadRecommendations, r.
  rewrite fetchRecommendations_complete. fold primary fallback.
  unfold issued.
  destruct (importedSongs b) as [importedOnly|e]; cbn [fst snd].
  2: { split; [|split].
       - cbn. split; [intros [H|[]]; congruence|intros [[H|[]] _]; congruence].
       - intros found [H|[]]. congruence.
       - intros _. destruct (string_dec (rv_status v) msg_closest); [right|]; auto.
         left. unfold failedToLoad, msg_closest. cbn. discriminate. }
  destruct (rangedSongs b primary) as [[|first more]|e]; cbn [fst snd].
  - destruct (rangedSongs b fallback) as [[|f1 more]|e]; cbn [fst snd].
    + split; [|split].
      * cbn. split; [intros _; split; auto|intros _; auto].
      * intros found _ E. injection E as <-. congruence.
      * intros H. exfalso. apply H. cbn. auto.
    + split; [|split].
      * cbn. split; [intros _; split; auto|intros _; auto].
      * intros found _ E. injection E as <-. intros _.
        split; [reflexivity|]. exists importedOnly. split; reflexivity.
      * intros H. exfalso. apply H. cbn. auto.
    + split; [|split].
      * cbn. split; [intros _; split; auto|intros _; auto].
      * intros found _ E. discriminate E.
      * intros H. exfalso. apply H. cbn. auto.
  - split; [|split].
    + cbn. split; [intros [H|[H|[]]]; congruence|intros [_ H]; discriminate H].
    + intros found [H|[H|[]]]; congruence.
    + intros _. destruct (string_dec (rv_status v) msg_closest); [right|left]; auto.
  - split; [|split].
    + cbn. split; [intros [H|[H|[]]]; congruence|intros [_ H]; discriminate H].
    + intros found [H|[H|[]]]; congruence.
    + intros _. destruct (string_dec (rv_status v) msg_closest); [right|]; auto.
      left. unfold failedToLoad, msg_closest. cbn. discriminate.
Qed.

(** C7: on a complete range, once the imported-only query has answered,
    the primary query (the four rounded values) is issued, and the widened
    query (overall bounds widened by 4, comfort bounds by 2) is issued
    after it exactly when the primary query returned no song; the log of
    the calls is given in full.  When the widened query returns songs, the
    status reports "closest challenge songs" and the list shown is made of
    those songs and the imported ones; when the primary query returns
    songs, the widened query is not issued, the status is left as it is and
    the list is made of the primary songs and the imported ones. *)
Theorem fallback_issued_iff_primary_empty
    (b : Backend) (lo hi clo chi : Q) (v : RecoView) :
  let r := mkRange (Some lo) (Some hi) (Some clo) (Some chi) in
  let primary := primaryQuery lo hi clo chi in
  let fallback := fallbackQuery lo hi clo chi in
  let v' := fst (loadRecommendations b r v) in
  let log := snd (loadRecommendations b r v) in
  primary = mkQuery (Math_round lo) (Math_round hi) (Math_round clo) (Math_round chi)
  /\ fallback = mkQuery (userLowMidi primary - 4) (userHighMidi primary + 4)
                  (q_comfortLowMidi primary - 2) (q_comfortHighMidi primary + 2)
  /\ (issued (recommend_songs fallback) log
      <-> issued (recommend_songs primary) log /\ rangedSongs b primary = Ok [])
  /\ (forall found,
      issued (recommend_songs fallback) log ->
      rangedSongs b fallback = Ok found -> found <> [] ->
      rv_status v' = msg_closest
      /\ exists importedOnly,
           importedSongs b = Ok importedOnly
           /\ recommendations v' = mergeRecommendations found importedOnly)
  /\ (~ issued (recommend_songs fallback) log -> rv_status v' <> msg_closest
      \/ rv_status v = msg_closest)
  /\ log
     = recommend_imported_songs
       :: match importedSongs b with
          | Ok _ =>
            recommend_songs primary
            :: match rangedSongs b primary with
               | Ok [] => [recommend_songs fallback]
               | _ => []
               end
          | Err _ => []
          end
  /\ (forall importedOnly,
      importedSongs b = Ok importedOnly ->
      issued (recommend_songs primary) log
      /\ (issued (recommend_songs fallback) log <-> rangedSongs b primary = Ok []))
  /\ (forall importedOnly first more,
      importedSongs b = Ok importedOnly ->
      rangedSongs b primary = Ok (first :: more) ->
      ~ issued (recommend_songs fallback) log
      /\ rv_status v' = rv_status v
      /\ recommendations v' = mergeRecommendations (first :: more) importedOnly).
Proof.
  intros r primary fallback v' log.
  destruct (fallback_follows_empty_primary b lo hi clo chi v)
    as [H1 [H2 [H3 [H4 H5]]]].
  split; [exact H1|]. split; [exact H2|]. split; [exact H3|].
  split; [exact H4|]. split; [exact H5|].
  pose proof (fallback_differs lo hi clo chi) as Hne.
  fold primary fallback in Hne.
  assert (Hcmd : recommend_songs fallback <> recommend_songs primary)
    by (intros E; apply Hne; congruence).
  assert (Hlog : log
     = recommend_imported_songs
       :: match importedSongs b with
          | Ok _ =>
            recommend_songs primary
            :: match rangedSongs b primary with
               | Ok [] => [recommend_songs fallback]
               | _ => []
               end
          | Err _ => []
          end).
  { unfold log, loadRecommendations, r.
    rewrite fetchRecommendations_complete. fold primary fallback.
    destruct (importedSongs b) as [importedOnly|e]; [|reflexivity].
    destruct (rangedSongs b primary) as [[|first more]|e]; [|reflexivity|reflexivity].
    destruct (rangedSongs b fallback) as [[|f1 more]|e]; reflexivity. }
  split; [exact Hlog|]. split.
  - intros importedOnly Ei. rewrite Hlog, Ei. unfold issued. split.
    + right. left. reflexivity.
    + split.
      * intros [H | [H | H]]; [discriminate H|congruence|].
        destruct (rangedSongs b primary) as [[|first more]|e];
          [reflexivity|destruct H|destruct H].
      * intros E. rewrite E. right. right. left. reflexivity.
  - intros importedOnly first more Ei Ep.
    assert (Hno : ~ issued (recommend_songs fallback) log).
    { rewrite Hlog, Ei, Ep. unfold issued.
      intros [H | [H | []]]; [discriminate H|congruence]. }
    split; [exact Hno|].
    unfold v', loadRecommendations, r.
    rewrite fetchRecommendations_complete. fold primary fallback.
    rewrite Ei, Ep. split; reflexivity.
Qed.

Lemma fallback_issued_iff_primary_empty_witness :
  let v' := fst (loadRecommendations scenarioBackend scenarioRange scenarioView) in
  let log := snd (loadRecommendations scenarioBackend scenarioRange scenarioView) in
  primaryQuery 48 72 55 67 = mkQuery 48 72 55 67
  /\ fallbackQuery 48 72 55 67 = mkQuery 44 76 53 69
  /\ issued (recommend_songs (mkQuery 44 76 53 69)) log
  /\ rv_status v' = msg_closest.
Proof.
  intros v' log.
  destruct (fallback_issued_iff_primary_empty scenarioBackend 48 72 55 67 scenarioView)
    as [_ [_ [Hiff [Hreport _]]]].
  assert (Hissued : issued (recommend_songs (fallbackQuery 48 72 55 67)) log).
  { apply Hiff. split; [|reflexivity]. right. left. reflexivity. }
  split; [reflexivity|]. split; [reflexivity|]. split; [exact Hissued|].
  assert (Hfound : [challengeSong] <> []) by discriminate.
  exact (proj1 (Hreport [challengeSong] Hissued eq_refl Hfound)).
Defined.

(** The scenario of the specification, run: the status is set and the list
    holds the challenge song followed by the imported one. *)
Example scenario_closest_challenge_songs :
  loadRecommendations scenarioBackend scenarioRange scenarioView
  = (mkRecoView msg_closest [challengeSong; importedSong] false "all",
     [recommend_imported_songs;
      recommend_songs (mkQuery 48 72 55 67);
      recommend_songs (mkQuery 44 76 53 69)]).
Proof. reflexivity. Qed.

(** ** Recommendations: imported songs *)

Lemma keyCount_app k l1 l2 :
  keyCount k (l1 ++ l2) = (keyCount k l1 + keyCount k l2)%nat.
Proof. unfold keyCount. rewrite filter_app, length_app. reflexivity. Qed.

Lemma keyCount_cons k s l :
  keyCount k (s :: l)
  = ((if String.eqb (songKey s) k then 1 else 0) + keyCount k l)%nat.
Proof. unfold keyCount. cbn. destruct (String.eqb (songKey s) k); reflexivity. Qed.

Lemma has_keys k l :
  has (map songKey l) k = (0 <? keyCount k l)%nat.
Proof.
  induction l as [|s l IH]; [reflexivity|].
  rewrite keyCount_cons. cbn [map has existsb]. fold (has (map songKey l) k).
  rewrite IH, String.eqb_sym.
  destruct (String.eqb (songKey s) k); reflexivity.
Qed.

Lemma has_In seen k : has seen k = true <-> In k seen.
Proof.
  unfold has. rewrite existsb_exists. split.
  - intros [x [Hin E]]. apply String.eqb_eq in E. subst. exact Hin.
  - intros H. exists k. split; [exact H|apply String.eqb_refl].
Qed.

(** The count of a key after the merge loop, for a [seen] set that holds
    the keys of [merged]. *)
Lemma mergeImported_count k : forall importedOnly seen merged,
  (forall k', has seen k' = (0 <? keyCount k' merged)%nat) ->
  keyCount k (mergeImported seen merged importedOnly)
  = if (0 <? keyCount k merged)%nat then keyCount k merged
    else if has (map songKey importedOnly) k then 1%nat else 0%nat.
Proof.
  induction importedOnly as [|s rest IH]; intros seen merged Hseen.
  - cbn [mergeImported map has existsb].
    destruct (keyCount k merged); reflexivity.
  - cbn [mergeImported map]. rewrite Hseen.
    destruct (0 <? keyCount (songKey s) merged)%nat eqn:Es.
    + rewrite (IH seen merged Hseen).
      destruct (0 <? keyCount k merged)%nat eqn:Ek; [reflexivity|].
      cbn [has existsb]. fold (has (map songKey rest) k).
      destruct (String.eqb k (songKey s)) eqn:E; [|reflexivity].
      apply String.eqb_eq in E. subst k. congruence.
    + assert (Hseen' : forall k', has (add seen (songKey s)) k'
                                  = (0 <? keyCount k' (merged ++ [s]))%nat).
      { intros k'. unfold add. cbn [has existsb]. fold (has seen k').
        rewrite Hseen, keyCount_app, keyCount_cons, String.eqb_sym.
        cbn [keyCount filter List.length].
        destruct (String.eqb (songKey s) k'); destruct (keyCount k' merged);
          reflexivity. }
      rewrite (IH _ _ Hseen'), keyCount_app, keyCount_cons.
      cbn [has existsb]. fold (has (map songKey rest) k).
      rewrite (String.eqb_sym k).
      destruct (String.eqb (songKey s) k) eqn:E.
      * apply String.eqb_eq in E. subst k.
        apply Nat.ltb_ge in Es. replace (keyCount (songKey s) merged) with 0%nat by lia.
        reflexivity.
      * replace (keyCount k [])%nat with 0%nat by reflexivity.
        rewrite !Nat.add_0_r. cbn [orb]. reflexivity.
Qed.

(** The ranged results are kept, in order, at the head of the merged list. *)
Lemma mergeImported_prefix : forall importedOnly seen merged,
  exists extra, mergeImported seen merged importedOnly = merged ++ extra.
Proof.
  induction importedOnly as [|s rest IH]; intros seen merged.
  - exists []. cbn. rewrite app_nil_r. reflexivity.
  - cbn [mergeImported]. destruct (has seen (songKey s)); [apply IH|].
    destruct (IH (add seen (songKey s)) (merged ++ [s])) as [extra E].
    exists (s :: extra). rewrite E, <- app_assoc. reflexivity.
Qed.

(** What the display filter appends: nothing for a key already seen, no
    key twice, and some entry for every imported song not yet seen. *)
Lemma unseenImported_count k : forall l seen,
  keyCount k (unseenImported seen l)
  = if has seen k then 0%nat
    else if existsb (fun s => is_imported s && String.eqb (songKey s) k) l
         then 1%nat else 0%nat.
Proof.
  induction l as [|s l IH]; intros seen.
  - cbn. destruct (has seen k); reflexivity.
  - cbn [unseenImported existsb].
    destruct (is_imported s) eqn:Ei; cbn [negb andb orb]; [|apply IH].
    destruct (has seen (songKey s)) eqn:Hs.
    + rewrite IH. destruct (has seen k) eqn:Hk; [reflexivity|].
      destruct (String.eqb (songKey s) k) eqn:E; [|reflexivity].
      apply String.eqb_eq in E. congruence.
    + rewrite keyCount_cons, IH. unfold add. cbn [has existsb].
      fold (has seen k). rewrite (String.eqb_sym k).
      destruct (String.eqb (songKey s) k) eqn:E; cbn [orb].
      * apply String.eqb_eq in E. subst k. rewrite Hs. reflexivity.
      * destruct (has seen k); reflexivity.
Qed.

Lemma imported_in_list s l :
  In s l -> is_imported s = true ->
  existsb (fun s' => is_imported s' && String.eqb (songKey s') (songKey s)) l = true.
Proof.
  intros Hin Hi. apply existsb_exists. exists s. split; [exact Hin|].
  rewrite Hi, String.eqb_refl. reflexivity.
Qed.

Lemma keyCount_pos_In k l : (0 < keyCount k l)%nat -> In k (map songKey l).
Proof.
  intros H. apply has_In. rewrite has_keys. apply Nat.ltb_lt. exact H.
Qed.

Lemma mergeImported_In x : forall importedOnly seen merged,
  In x (mergeImported seen merged importedOnly) -> In x merged \/ In x importedOnly.
Proof.
  induction importedOnly as [|s rest IH]; intros seen merged H; [left; exact H|].
  cbn [mergeImported] in H.
  destruct (has seen (songKey s)).
  - destruct (IH _ _ H) as [A | A]; [left; exact A|right; right; exact A].
  - destruct (IH _ _ H) as [A | A]; [|right; right; exact A].
    apply in_app_or in A. destruct A as [A | [A | []]];
      [left; exact A|right; left; exact A].
Qed.

Lemma keyCount_zero_not_In k l x : keyCount k l = 0%nat -> In x l -> songKey x <> k.
Proof.
  intros Hz Hin E. induction l as [|y l IH]; [exact Hin|].
  rewrite keyCount_cons in Hz. destruct Hin as [-> | Hin].
  - rewrite E, String.eqb_refl in Hz. discriminate Hz.
  - apply IH; [|exact Hin]. destruct (String.eqb (songKey y) k); [discriminate Hz|exact Hz].
Qed.

Lemma keyCount_pos_witness k : forall l,
  (0 < keyCount k l)%nat -> exists x, In x l /\ songKey x = k.
Proof.
  induction l as [|y l IH]; intros H; [cbn in H; lia|].
  rewrite keyCount_cons in H.
  destruct (String.eqb (songKey y) k) eqn:E.
  - exists y. split; [left; reflexivity|apply String.eqb_eq; exact E].
  - destruct (IH H) as [x [Hin Hk]]. exists x. split; [right; exact Hin|exact Hk].
Qed.

(** The keys of the default display: those of the top five, and those of
    the entries of the list that are flagged as imported. *)
Lemma shown_keys status merged k :
  let shown := filteredRecommendations (mkRecoView status merged false "all") in
  keyCount k shown
  = (keyCount k (firstn 5 merged)
     + if (0 <? keyCount k (firstn 5 merged))%nat then 0
       else if existsb (fun s => is_imported s && String.eqb (songKey s) k) merged
            then 1 else 0)%nat.
Proof.
  unfold filteredRecommendations, visibleRecommendations.
  cbn [showAllRecommendations recommendations recoFilter String.eqb Ascii.eqb Bool.eqb].
  rewrite keyCount_app, unseenImported_count, has_keys. reflexivity.
Qed.

(** C8: every song the imported-only query returns has its title/artist key
    in the merged list as often as the ranged results had it and at least
    once, hence exactly once when the ranged results carry that key at most
    once; its score plays no part.  In the default display (top five, not
    "show all", bucket filter "all") every entry of the list that is
    flagged as imported has its key shown, and exactly once when it is not
    among the top five.  For a song of the imported-only query this means:
    its key is shown exactly when it is among the top five or some entry
    of the list with that key is flagged as imported; that is the case
    when the ranged results do not carry the key and the query flags its
    songs of that key as imported. *)
Theorem imported_songs_always_listed
    (recs importedOnly : list SongRecommendation) (s : SongRecommendation) :
  In s importedOnly ->
  let merged := mergeRecommendations recs importedOnly in
  keyCount (songKey s) merged = Nat.max 1 (keyCount (songKey s) recs)
  /\ ((keyCount (songKey s) recs <= 1)%nat -> keyCount (songKey s) merged = 1%nat)
  /\ (exists extra, merged = recs ++ extra)
  /\ (forall (status : string) (s' : SongRecommendation),
      In s' merged -> is_imported s' = true ->
      let shown := filteredRecommendations (mkRecoView status merged false "all") in
      In (songKey s') (map songKey shown)
      /\ (keyCount (songKey s') (firstn 5 merged) = 0%nat ->
          keyCount (songKey s') shown = 1%nat))
  /\ (forall (status : string),
      let shown := filteredRecommendations (mkRecoView status merged false "all") in
      (In (songKey s) (map songKey shown)
       <-> (0 < keyCount (songKey s) (firstn 5 merged))%nat
           \/ exists s', In s' merged /\ is_imported s' = true
                          /\ songKey s' = songKey s)
      /\ (keyCount (songKey s) recs = 0%nat ->
          (forall s', In s' importedOnly -> songKey s' = songKey s ->
                      is_imported s' = true) ->
          In (songKey s) (map songKey shown)
          /\ (keyCount (songKey s) (firstn 5 merged) = 0%nat ->
              keyCount (songKey s) shown = 1%nat))).
Proof.
  intros Hin merged.
  assert (Hcount : keyCount (songKey s) merged
                   = Nat.max 1 (keyCount (songKey s) recs)).
  { unfold merged, mergeRecommendations.
    rewrite mergeImported_count by (intros k'; apply has_keys).
    assert (Hhas : has (map songKey importedOnly) (songKey s) = true)
      by (apply has_In, in_map, Hin).
    rewrite Hhas.
    destruct (keyCount (songKey s) recs) as [|n]; cbn; [reflexivity|].
    destruct n; reflexivity. }
  split; [exact Hcount|]. split; [intros Hle; rewrite Hcount; lia|].
  split; [apply mergeImported_prefix|].
  assert (Hflagged : forall status s',
            In s' merged -> is_imported s' = true ->
            let shown := filteredRecommendations (mkRecoView status merged false "all") in
            In (songKey s') (map songKey shown)
            /\ (keyCount (songKey s') (firstn 5 merged) = 0%nat ->
                keyCount (songKey s') shown = 1%nat)).
  { intros status s' Hin' Himp shown.
    assert (Hshown := shown_keys status merged (songKey s')).
    cbv zeta in Hshown. fold shown in Hshown.
    rewrite (imported_in_list s' merged Hin' Himp) in Hshown.
    split.
    - apply keyCount_pos_In. rewrite Hshown.
      destruct (0 <? keyCount (songKey s') (firstn 5 merged))%nat eqn:E; [|lia].
      apply Nat.ltb_lt in E. lia.
    - intros Hzero. rewrite Hshown, Hzero. reflexivity. }
  split; [exact Hflagged|].
  intros status shown.
  assert (Hshown := shown_keys status merged (songKey s)).
  cbv zeta in Hshown. fold shown in Hshown.
  split.
  - split.
    + intros Hk. apply has_In in Hk. rewrite has_keys in Hk.
      apply Nat.ltb_lt in Hk. rewrite Hshown in Hk.
      destruct (0 <? keyCount (songKey s) (firstn 5 merged))%nat eqn:E;
        [left; apply Nat.ltb_lt; exact E|].
      right.
      destruct (existsb _ merged) eqn:Ex;
        [|apply Nat.ltb_ge in E; lia].
      apply existsb_exists in Ex. destruct Ex as [s' [Hs' Hb]].
      apply andb_true_iff in Hb. destruct Hb as [Hi Hk'].
      exists s'. split; [exact Hs'|]. split; [exact Hi|].
      apply String.eqb_eq. exact Hk'.
    + intros [Htop | [s' [Hs' [Hi Hk']]]].
      * apply keyCount_pos_In. rewrite Hshown. lia.
      * rewrite <- Hk'. exact (proj1 (Hflagged status s' Hs' Hi)).
  - intros Hzero Hflag.
    assert (Hpos : (0 < keyCount (songKey s) merged)%nat) by (rewrite Hcount; lia).
    destruct (keyCount_pos_witness _ _ Hpos) as [s' [Hs' Hk']].
    assert (Hi : is_imported s' = true).
    { destruct (mergeImported_In s' importedOnly (map songKey recs) recs Hs')
        as [A | A].
      - exfalso. exact (keyCount_zero_not_In _ _ _ Hzero A Hk').
      - apply Hflag; assumption. }
    rewrite <- Hk'. exact (Hflagged status s' Hs' Hi).
Qed.

Lemma imported_songs_always_listed_witness :
  let merged := mergeRecommendations sixRanked [importedSong] in
  let shown := filteredRecommendations (mkRecoView "Idle" merged false "all") in
  In importedSong [importedSong]
  /\ (keyCount (songKey importedSong) sixRanked <= 1)%nat
  /\ keyCount (songKey importedSong) merged = 1%nat
  /\ In (songKey importedSong) (map songKey shown)
  /\ keyCount (songKey importedSong) shown = 1%nat.
Proof.
  intros merged shown.
  assert (Hin : In importedSong [importedSong]) by (left; reflexivity).
  assert (Hle : (keyCount (songKey importedSong) sixRanked <= 1)%nat)
    by (vm_compute; lia).
  destruct (imported_songs_always_listed sixRanked [importedSong] importedSong Hin)
    as [_ [Honce [_ [Hshown _]]]].
  assert (Hin' : In importedSong merged)
    by (vm_compute; repeat (try (left; reflexivity); right)).
  destruct (Hshown "Idle"%string importedSong Hin' eq_refl) as [Hvisible Hone].
  split; [exact Hin|]. split; [exact Hle|]. split; [exact (Honce Hle)|].
  split; [exact Hvisible|]. apply Hone. reflexivity.
Defined.

(** The merged list and the default display in that example: the imported
    song is seventh of seven, outside the top five, and is shown sixth.
    A bucket filter other than "all" applies to the imported songs too. *)
Example imported_song_shown_after_top_five :
  let merged := mergeRecommendations sixRanked [importedSong] in
  merged = sixRanked ++ [importedSong]
  /\ filteredRecommendations (mkRecoView "Idle" merged false "all")
     = firstn 5 sixRanked ++ [importedSong]
  /\ filteredRecommendations (mkRecoView "Idle" merged false "great")
     = firstn 2 sixRanked.
Proof. repeat split; reflexivity. Qed.

(** C8 as worded fails, in both halves.  "Exactly once" holds only as far
    as the ranged results allow: the loop skips an imported song whose key
    is already among the ranged results and never removes anything from
    them, so a song that the ranged query lists twice is in the merged list
    twice: the very same entry when the song was imported twice, or two
    entries under one key when it is also in the base catalogue.  And an
    imported song outside the top five is not always shown: when the ranged
    results carry its key in an entry that is not flagged as imported, in
    sixth place, the merge skips the imported entry and the display appends
    only flagged entries, so the key is not on the page. *)
Lemma imported_song_listed_twice :
  In importedCopy importedTwice
  /\ mergeRecommendations importedTwice importedTwice = [importedCopy; importedCopy]
  /\ keyCount (songKey importedCopy) (mergeRecommendations importedTwice importedTwice)
     = 2%nat
  /\ keyCount (songKey importedCopy) (mergeRecommendations importedTwice importedTwice)
     <> 1%nat
  /\ mergeRecommendations [baseCopy; importedCopy] [importedCopy]
     = [baseCopy; importedCopy]
  /\ keyCount (songKey importedCopy)
       (mergeRecommendations [baseCopy; importedCopy] [importedCopy]) = 2%nat
  /\ is_imported importedCopy = true
  /\ mergeRecommendations baseCopySixth [importedCopy] = baseCopySixth
  /\ keyCount (songKey importedCopy)
       (firstn 5 (mergeRecommendations baseCopySixth [importedCopy])) = 0%nat
  /\ filteredRecommendations
       (mkRecoView "Idle" (mergeRecommendations baseCopySixth [importedCopy])
          false "all")
     = firstn 5 sixRanked
  /\ ~ In (songKey importedCopy)
         (map songKey
            (filteredRecommendations
               (mkRecoView "Idle" (mergeRecommendations baseCopySixth [importedCopy])
                  false "all"))).
Proof.
  split; [left; reflexivity|].
  split; [reflexivity|]. split; [reflexivity|].
  split; [vm_compute; discriminate|]. split; [reflexivity|].
  split; [reflexivity|]. split; [reflexivity|]. split; [reflexivity|].
  split; [reflexivity|]. split; [reflexivity|].
  vm_compute. intros H.
  repeat (destruct H as [H | H]; [discriminate H|]). exact H.
Qed.

(** ** The polling loop *)

Ltac app_fields :=
  cbn [capture status inputLevel rawInputLevel inputLevelRef rawInputLevelRef
       pitchData pollTimerRef pollErrorCountRef pollInFlightRef
       set_capture setStatus setInputLevel setRawInputLevel set_inputLevelRef
       set_rawInputLevelRef setPitchData set_pollTimerRef set_pollErrorCountRef
       set_pollInFlightRef] in *.

Lemma pollCallback_both_fail log2 t a :
  bothFail t -> pollInFlightRef a = false ->
  pollCallback log2 t a
  = if (20 <=? pollErrorCountRef a + 1)%Z
    then stopLevelPolling a
    else set_pollErrorCountRef (pollErrorCountRef a + 1)%Z a.
Proof.
  intros [[m1 E1] [m2 E2]] Hfree. unfold pollCallback.
  rewrite Hfree, E1, E2. cbn.
  destruct a as [cap st il ril ilr rilr pd timer n fl]. cbn in *. subst fl.
  destruct (20 <=? n + 1)%Z; reflexivity.
Qed.

(** [n] failing ticks that do not reach the bound only count. *)
Lemma poll_counts_failures log2 : forall ticks a,
  pollTimerRef a <> None -> pollInFlightRef a = false ->
  Forall bothFail ticks ->
  (pollErrorCountRef a + Z.of_nat (List.length ticks) < 20)%Z ->
  poll log2 a ticks
  = set_pollErrorCountRef (pollErrorCountRef a + Z.of_nat (List.length ticks))%Z a.
Proof.
  induction ticks as [|t ticks IH]; intros a Harmed Hfree Hfail Hlt.
  - cbn. rewrite Z.add_0_r. destruct a; reflexivity.
  - pose proof (Forall_inv Hfail) as Ht. pose proof (Forall_inv_tail Hfail) as Hts.
    cbn [poll fold_left]. fold (poll log2 (pollTick log2 a t) ticks).
    cbn [List.length] in Hlt. rewrite Nat2Z.inj_succ in Hlt.
    assert (E : pollTick log2 a t
                = set_pollErrorCountRef (pollErrorCountRef a + 1)%Z a).
    { unfold pollTick. destruct (pollTimerRef a); [|congruence].
      rewrite (pollCallback_both_fail log2 t a Ht Hfree).
      replace (20 <=? pollErrorCountRef a + 1)%Z with false; [reflexivity|].
      symmetry. apply Z.leb_gt. lia. }
    rewrite E. rewrite IH; app_fields; try assumption; try lia.
    cbn [List.length]. rewrite Nat2Z.inj_succ.
    destruct a; app_fields. unfold set_pollErrorCountRef. app_fields.
    f_equal. lia.
Qed.

Lemma pollTick_success log2 a t :
  pollTimerRef a <> None -> pollInFlightRef a = false -> someSuccess t ->
  let a' := pollTick log2 a t in
  pollErrorCountRef a' = 0%Z
  /\ pollTimerRef a' = pollTimerRef a
  /\ pollInFlightRef a' = false
  /\ status a' = status a
  /\ (forall m, get_input_level t = Err m ->
      rawInputLevelRef a' = rawInputLevelRef a
      /\ rawInputLevel a' = rawInputLevel a
      /\ inputLevelRef a' = inputLevelRef a
      /\ inputLevel a' = inputLevel a
      /\ exists pitch,
           get_pitch_data t = Ok pitch
           /\ capture a'
              = handlePitchSampleForRangeTest log2 (date_now t)
                  (rawInputLevelRef a) (safePitchOf pitch) (capture a))
  /\ (forall m, get_pitch_data t = Err m ->
      pitchData a' = pitchData a /\ capture a' = capture a).
Proof.
  intros Harmed Hfree Hok a'. unfold a', pollTick, pollCallback.
  destruct (pollTimerRef a) eqn:Et; [|congruence]. rewrite Hfree.
  destruct (get_input_level t) as [level|m1] eqn:E1;
    destruct (get_pitch_data t) as [pitch|m2] eqn:E2; cbn.
  - repeat split; auto; congruence.
  - repeat split; auto; congruence.
  - repeat split; auto; try congruence.
    exists pitch. split; reflexivity.
  - exfalso. destruct Hok as [[v E]|[v E]]; congruence.
Qed.

Lemma Forall_firstn_of {A} (P : A -> Prop) n (l : list A) :
  Forall P l -> Forall P (firstn n l).
Proof.
  intros H. rewrite <- (firstn_skipn n l) in H.
  apply Forall_app in H. exact (proj1 H).
Qed.

Lemma Forall_skipn_of {A} (P : A -> Prop) n (l : list A) :
  Forall P l -> Forall P (skipn n l).
Proof.
  intros H. rewrite <- (firstn_skipn n l) in H.
  apply Forall_app in H. exact (proj2 H).
Qed.

Lemma poll_app log2 a l1 l2 :
  poll log2 a (l1 ++ l2) = poll log2 (poll log2 a l1) l2.
Proof. unfold poll. apply fold_left_app. Qed.

(** C9, as the program has it.  From a fresh failure count, twenty ticks in
    a row in which both calls fail stop the polling and clear the level
    cells, the pitch cell and the counter; the capture state, and so the
    stage, is untouched, and so is the status text: no message is set, and
    the only trace in the status bar is the stream indicator going
    inactive.  Fewer failing ticks only count.  A tick in which a call
    succeeds resets the count and keeps polling; if the level call failed
    the previous level stays and is the level handed to the capture logic,
    and if the pitch call failed the previous pitch and the capture state
    stay. *)
Theorem polling_stops_after_twenty_failures
    (log2 : Q -> Q) (a : App) (ticks : list Tick) :
  pollTimerRef a <> None ->
  pollInFlightRef a = false ->
  pollErrorCountRef a = 0%Z ->
  Forall bothFail ticks ->
  List.length ticks = 20%nat ->
  let a' := poll log2 a ticks in
  pollTimerRef a' = None
  /\ inputLevel a' = 0 /\ rawInputLevel a' = 0
  /\ inputLevelRef a' = 0 /\ rawInputLevelRef a' = 0
  /\ pitchData a' = noPitch
  /\ pollErrorCountRef a' = 0%Z
  /\ pollInFlightRef a' = false
  /\ capture a' = capture a
  /\ stageRef (capture a') = stageRef (capture a)
  /\ status a' = status a
  /\ statusBar a' = (false, status a)
  /\ (forall n, (n < 20)%nat ->
      poll log2 a (firstn n ticks) = set_pollErrorCountRef (Z.of_nat n) a)
  /\ (forall (a1 : App) (t : Tick),
      pollTimerRef a1 <> None -> pollInFlightRef a1 = false -> someSuccess t ->
      let a2 := pollTick log2 a1 t in
      pollErrorCountRef a2 = 0%Z
      /\ pollTimerRef a2 = pollTimerRef a1
      /\ status a2 = status a1
      /\ (forall m, get_input_level t = Err m ->
          rawInputLevelRef a2 = rawInputLevelRef a1
          /\ inputLevelRef a2 = inputLevelRef a1
          /\ exists pitch,
               get_pitch_data t = Ok pitch
               /\ capture a2
                  = handlePitchSampleForRangeTest log2 (date_now t)
                      (rawInputLevelRef a1) (safePitchOf pitch) (capture a1))
      /\ (forall m, get_pitch_data t = Err m ->
          pitchData a2 = pitchData a1 /\ capture a2 = capture a1)).
Proof.
  intros Harmed Hfree Hzero Hfail Hlen a'.
  assert (Hcount : forall n, (n < 20)%nat ->
            poll log2 a (firstn n ticks) = set_pollErrorCountRef (Z.of_nat n) a).
  { intros n Hn.
    assert (Ln : List.length (firstn n ticks) = n)
      by (rewrite length_firstn; lia).
    rewrite (poll_counts_failures log2 (firstn n ticks) a Harmed Hfree
               (Forall_firstn_of _ n ticks Hfail)); rewrite Ln, Hzero; [reflexivity|lia]. }
  assert (Hlast : exists t, skipn 19 ticks = [t] /\ bothFail t).
  { pose proof (Forall_skipn_of _ 19 ticks Hfail) as Hs.
    assert (Ls : List.length (skipn 19 ticks) = 1%nat)
      by (rewrite length_skipn; lia).
    destruct (skipn 19 ticks) as [|t [|t' rest]]; try discriminate Ls.
    exists t. split; [reflexivity|exact (Forall_inv Hs)]. }
  destruct Hlast as [t [Et Ht]].
  assert (E : a' = stopLevelPolling (set_pollErrorCountRef 19%Z a)).
  { unfold a'. rewrite <- (firstn_skipn 19 ticks), poll_app, Et.
    rewrite (Hcount 19%nat) by lia.
    change (Z.of_nat 19) with 19%Z.
    cbn [poll fold_left]. unfold pollTick. app_fields.
    destruct (pollTimerRef a); [|congruence].
    rewrite (pollCallback_both_fail log2 t _ Ht) by exact Hfree.
    reflexivity. }
  rewrite E.
  repeat (split; [reflexivity|]).
  split; [exact Hcount|].
  intros a1 t1 H1 H2 H3 a2.
  destruct (pollTick_success log2 a1 t1 H1 H2 H3) as [S1 [S2 [_ [S4 [S5 S6]]]]].
  split; [exact S1|]. split; [exact S2|]. split; [exact S4|]. split.
  - intros m Hm. destruct (S5 m Hm) as [L1 [_ [L3 [_ L5]]]].
    split; [exact L1|]. split; [exact L3|exact L5].
  - exact S6.
Qed.

Lemma bothFail_deadTick now : bothFail (deadTick now).
Proof. split; exists "ipc closed"%string; reflexivity. Qed.

Lemma polling_stops_after_twenty_failures_witness :
  pollTimerRef appActive <> None
  /\ pollInFlightRef appActive = false
  /\ pollErrorCountRef appActive = 0%Z
  /\ Forall bothFail outage
  /\ List.length outage = 20%nat
  /\ pollTimerRef (poll log2_dyadic appActive outage) = None
  /\ status (poll log2_dyadic appActive outage) = status appActive
  /\ capture (poll log2_dyadic appActive outage) = capture appActive.
Proof.
  assert (H1 : pollTimerRef appActive <> None) by (vm_compute; discriminate).
  assert (H2 : pollInFlightRef appActive = false) by reflexivity.
  assert (H3 : pollErrorCountRef appActive = 0%Z) by reflexivity.
  assert (H4 : Forall bothFail outage)
    by (unfold outage; repeat constructor; apply bothFail_deadTick).
  assert (H5 : List.length outage = 20%nat) by reflexivity.
  destruct (polling_stops_after_twenty_failures log2_dyadic appActive outage
              H1 H2 H3 H4 H5)
    as [T1 [_ [_ [_ [_ [_ [_ [_ [T9 [_ [T11 _]]]]]]]]]]].
  split; [exact H1|]. split; [exact H2|]. split; [exact H3|].
  split; [exact H4|]. split; [exact H5|]. split; [exact T1|].
  split; [exact T11|exact T9].
Defined.

(** C9 as worded fails on one count: no status is surfaced.  After a good
    tick and twenty failing ones the polling has stopped and the level and
    pitch cells are cleared, but the status still reads what
    [startRangeTest] wrote, and the capture stage is still [capture_low]
    with the instruction to sing; in the status bar only the indicator
    has changed. *)
Lemma polling_stops_without_a_status :
  let a' := poll log2_dyadic appActive outage in
  rawInputLevel appActive = 0.05
  /\ frequency_hz (pitchData appActive) = Some 110
  /\ pollTimerRef appActive = Some 7%Z
  /\ pollTimerRef a' = None
  /\ rawInputLevel a' = 0
  /\ pitchData a' = noPitch
  /\ status appActive = "Range test started"%string
  /\ status a' = "Range test started"%string
  /\ statusBar appActive = (true, "Range test started"%string)
  /\ statusBar a' = (false, "Range test started"%string)
  /\ stageRef (capture a') = capture_low
  /\ testInstruction (capture a') = msg_sing_low.
Proof. vm_compute. repeat split; reflexivity. Qed.

(** ** The two versions of the range-test handler *)

Lemma sameCapture_refl c : sameCapture c c.
Proof. reflexivity. Qed.

Lemma sameCapture_fields c1 c2 :
  sameCapture c1 c2 ->
  stageRef c1 = stageRef c2
  /\ lowMidiRef c1 = lowMidiRef c2
  /\ highMidiRef c1 = highMidiRef c2
  /\ stableRef c1 = stableRef c2
  /\ fastPassRef c1 = fastPassRef c2
  /\ stableHistoryRef c1 = stableHistoryRef c2
  /\ rangeResult c1 = rangeResult c2.
Proof.
  unfold sameCapture. intros H.
  repeat split.
  - exact (f_equal stageRef H).
  - exact (f_equal lowMidiRef H).
  - exact (f_equal highMidiRef H).
  - exact (f_equal stableRef H).
  - exact (f_equal fastPassRef H).
  - exact (f_equal stableHistoryRef H).
  - exact (f_equal rangeResult H).
Qed.

Lemma legacy_resetStability c : Legacy.resetStability c = resetStability c.
Proof. reflexivity. Qed.

Lemma legacy_finishRangeTest c : Legacy.finishRangeTest c = finishRangeTest c.
Proof.
  unfold Legacy.finishRangeTest, finishRangeTest.
  destruct (lowMidiRef c), (highMidiRef c), (stableHistoryRef c); reflexivity.
Qed.

Lemma legacy_completeStageWithMidi stage m t c :
  Legacy.completeStageWithMidi stage m t c = completeStageWithMidi stage m t c.
Proof.
  unfold Legacy.completeStageWithMidi, completeStageWithMidi.
  rewrite legacy_resetStability.
  destruct stage; cbn [TestStage_eqb]; try reflexivity;
    destruct (_ <? _)%Z; try reflexivity;
    change (lowMidiRef (set_fastPassRef noFastPass (resetStability c)))
      with (lowMidiRef c);
    change (lowMidiRef (set_fastPassRef (mkFastPass None None) (resetStability c)))
      with (lowMidiRef c);
    destruct (lowMidiRef c); try destruct (Qlt_bool _ _);
    rewrite ?legacy_finishRangeTest; reflexivity.
Qed.

Lemma legacy_frequencyToMidi log2 f :
  Legacy.frequencyToMidi log2 f = frequencyToMidi log2 f.
Proof. reflexivity. Qed.

(** The instruction text steers nothing: the stage completion maps states
    that agree up to the instruction to states that agree up to it. *)
Lemma completeStageWithMidi_sameCapture stage m t c1 c2 :
  sameCapture c1 c2 ->
  sameCapture (completeStageWithMidi stage m t c1) (completeStageWithMidi stage m t c2).
Proof.
  unfold sameCapture. intros H.
  destruct c1, c2. cbn in H. injection H as -> -> -> -> -> -> -> -> -> -> -> -> -> -> ->.
  unfold completeStageWithMidi, finishRangeTest, resetStability. fields.
  split_matches; reflexivity.
Qed.

Ltac same_capture_start H c1 c2 :=
  unfold sameCapture in H |- *;
  destruct c1 as [stage1 fp1 entered1 wait1 silence1 stable1 good1 history1 low1
                    high1 tstage1 instr1 ms1 sstate1 awaiting1 range1];
  destruct c2 as [stage2 fp2 entered2 wait2 silence2 stable2 good2 history2 low2
                    high2 tstage2 instr2 ms2 sstate2 awaiting2 range2];
  cbn in H; injection H as -> -> -> -> -> -> -> -> -> -> -> -> -> -> ->.

Lemma legacy_trackStability log2 stage t f c :
  Legacy.trackStability log2 stage t f c = trackStability log2 stage t f c.
Proof.
  unfold Legacy.trackStability, trackStability, smooth, pushCapped,
    Legacy.frequencyToMidi.
  fields. destruct (samples (stableRef c)) as [|b buf]; [reflexivity|].
  cbn [List.length Nat.eqb].
  destruct (Qlt_bool _ _); [reflexivity|].
  rewrite Z.geb_leb. destruct (_ <=? _)%Z; [|reflexivity].
  apply legacy_completeStageWithMidi.
Qed.

Lemma legacy_handler_blocks log2 t level pitch c :
  Legacy.handlePitchSampleForRangeTest log2 t level pitch c
  = match stageRef c with
    | capture_low | capture_high =>
      match isValid level pitch, frequency_hz pitch with
      | true, Some freq =>
        validSample log2 (stageRef c) t freq (confidence pitch)
          (Legacy.silenceGate t level c)
      | _, _ => invalidSample t (Legacy.silenceGate t level c)
      end
    | _ => c
    end.
Proof.
  unfold Legacy.handlePitchSampleForRangeTest.
  assert (Hinv : forall g,
            match lastValidAt (stableRef
                    (setSampleState sample_invalid
                       (set_fastPassRef (mkFastPass None None) g))) with
            | Some lastValid =>
              if (t - lastValid <? 1200)%Z
              then setSampleState sample_invalid
                     (set_fastPassRef (mkFastPass None None) g)
              else Legacy.resetStability
                     (setSampleState sample_invalid
                        (set_fastPassRef (mkFastPass None None) g))
            | None => Legacy.resetStability
                        (setSampleState sample_invalid
                           (set_fastPassRef (mkFastPass None None) g))
            end = invalidSample t g) by reflexivity.
  destruct (stageRef c) eqn:Es; cbn [TestStage_eqb negb andb]; try reflexivity.
  all: generalize (Legacy.silenceGate t level c); intros g; cbv zeta;
    fold (hasFreq pitch); fold (confidenceOk pitch); fold (isValid level pitch);
    destruct (isValid level pitch); [|apply Hinv];
    destruct (frequency_hz pitch) as [freq|]; [|apply Hinv];
    unfold validSample, fp_stage_is; rewrite ?legacy_frequencyToMidi;
    destruct (Qle_bool _ _);
    destruct (fp_stage (fastPassRef g)) as [[| | |]|];
    destruct (fp_startAt (fastPassRef g));
    cbn [TestStage_eqb negb]; rewrite ?Z.geb_leb;
    try destruct (_ <=? _)%Z;
    rewrite ?legacy_trackStability, ?legacy_completeStageWithMidi; reflexivity.
Qed.

Lemma silenceGate_sameCapture t level c1 c2 :
  sameCapture c1 c2 ->
  sameCapture (Legacy.silenceGate t level c1) (silenceGate t level c2).
Proof.
  intros H. same_capture_start H c1 c2.
  unfold Legacy.silenceGate, silenceGate. fields.
  destruct (TestStage_eqb stage2 capture_high && wait2); [|reflexivity].
  destruct (Qlt_bool _ _); [|reflexivity].
  destruct silence2; fields; rewrite Z.geb_leb; destruct (_ <=? _)%Z; reflexivity.
Qed.

Lemma invalidSample_sameCapture t c1 c2 :
  sameCapture c1 c2 -> sameCapture (invalidSample t c1) (invalidSample t c2).
Proof.
  intros H. same_capture_start H c1 c2.
  unfold invalidSample, resetStability. fields.
  split_matches; reflexivity.
Qed.

Lemma trackStability_sameCapture log2 stage t f c1 c2 :
  sameCapture c1 c2 ->
  sameCapture (trackStability log2 stage t f c1) (trackStability log2 stage t f c2).
Proof.
  intros H. rewrite !trackStability_cases.
  destruct (sameCapture_fields c1 c2 H) as [_ [_ [_ [Hst _]]]].
  assert (Hg : lastGoodPitchRef c1 = lastGoodPitchRef c2)
    by exact (f_equal lastGoodPitchRef H).
  rewrite Hst, Hg.
  assert (Hr : forall x, sameCapture (restarted t x c1) (restarted t x c2)).
  { intros x. clear Hst Hg. same_capture_start H c1 c2. reflexivity. }
  assert (Ha : forall x, sameCapture (appended t x c1) (appended t x c2)).
  { intros x. clear Hst Hg Hr. same_capture_start H c1 c2. reflexivity. }
  destruct (restarts _ _); [apply Hr|].
  destruct (_ <=? _)%Z; [|apply Ha].
  apply completeStageWithMidi_sameCapture, Ha.
Qed.

Lemma set_fastPassRef_sameCapture fp c1 c2 :
  sameCapture c1 c2 -> sameCapture (set_fastPassRef fp c1) (set_fastPassRef fp c2).
Proof. intros H. same_capture_start H c1 c2. reflexivity. Qed.

Lemma validSample_sameCapture log2 stage t f conf c1 c2 :
  sameCapture c1 c2 ->
  sameCapture (validSample log2 stage t f conf c1) (validSample log2 stage t f conf c2).
Proof.
  intros H. unfold validSample.
  destruct (sameCapture_fields c1 c2 H) as [_ [_ [_ [_ [Hfp _]]]]].
  rewrite Hfp.
  destruct (Qle_bool _ _).
  - destruct (fp_stage_is (fastPassRef c2) stage), (fp_startAt (fastPassRef c2));
      try destruct (_ <=? _)%Z;
      try (apply completeStageWithMidi_sameCapture; exact H);
      try (apply trackStability_sameCapture; exact H);
      apply trackStability_sameCapture, set_fastPassRef_sameCapture; exact H.
  - destruct (fp_stage_is (fastPassRef c2) stage);
      apply trackStability_sameCapture;
      [apply set_fastPassRef_sameCapture|]; exact H.
Qed.

Lemma handler_sameCapture log2 t level pitch c1 c2 :
  sameCapture c1 c2 ->
  sameCapture (Legacy.handlePitchSampleForRangeTest log2 t level pitch c1)
              (handlePitchSampleForRangeTest log2 t level pitch c2).
Proof.
  intros H. rewrite legacy_handler_blocks. unfold handlePitchSampleForRangeTest.
  destruct (sameCapture_fields c1 c2 H) as [Hs _]. rewrite Hs.
  pose proof (silenceGate_sameCapture t level c1 c2 H) as Hg.
  destruct (stageRef c2); try exact H;
    destruct (isValid level pitch); try (apply invalidSample_sameCapture; exact Hg);
    destruct (frequency_hz pitch); try (apply invalidSample_sameCapture; exact Hg);
    apply validSample_sameCapture; exact Hg.
Qed.

Lemma run_sameCapture log2 ss : forall c1 c2,
  sameCapture c1 c2 ->
  sameCapture (Legacy.run log2 c1 ss) (run log2 c2 ss).
Proof.
  induction ss as [|s ss IH]; intros c1 c2 H; [exact H|].
  cbn. apply IH. apply handler_sameCapture. exact H.
Qed.

(** C10: fed the same samples from the same state, the handler of
    [src/App.tsx] and the redesigned handler reach states that agree on
    every ref and state cell except the instruction text; in particular on
    the stage, the recorded low and high pitch, the stability window, the
    fast pass, the history and the range result. *)
Theorem handlers_agree_up_to_instruction
    (log2 : Q -> Q) (c : Capture) (ss : list Sample) :
  let old := Legacy.run log2 c ss in
  let new := run log2 c ss in
  sameCapture old new
  /\ stageRef old = stageRef new
  /\ lowMidiRef old = lowMidiRef new
  /\ highMidiRef old = highMidiRef new
  /\ stableRef old = stableRef new
  /\ fastPassRef old = fastPassRef new
  /\ stableHistoryRef old = stableHistoryRef new
  /\ rangeResult old = rangeResult new.
Proof.
  intros old new.
  assert (H : sameCapture old new) by (apply run_sameCapture, sameCapture_refl).
  split; [exact H|]. apply sameCapture_fields. exact H.
Qed.

(** The instruction text can differ: with the gate flag set by hand and
    200 ms of silence, the earlier version asks for an 'ah', the redesigned
    one for a note. *)
Example instruction_text_differs :
  let quiet := [mkSample 500 0 noPitch; mkSample 700 0 noPitch] in
  testInstruction (Legacy.run log2_dyadic armedGate quiet) = Legacy.msg_sing_high
  /\ testInstruction (run log2_dyadic armedGate quiet) = msg_sing_high
  /\ Legacy.msg_sing_high <> msg_sing_high.
Proof. vm_compute. repeat split; try reflexivity. discriminate. Qed.

(** * Further properties of the capture logic *)

(** ** Stages *)

Lemma staged_progress c1 c2 : progress c1 = progress c2 -> staged c1 -> staged c2.
Proof.
  unfold progress, staged. intros E.
  injection E as E1 E2 E3 E4 E5 E6 E7.
  rewrite E1, E2, E3, E4, E5, E6, E7. exact (fun H => H).
Qed.

Lemma progress_silenceGate t level c : progress (silenceGate t level c) = progress c.
Proof. unfold silenceGate. split_matches; reflexivity. Qed.

Lemma progress_invalidSample t c : progress (invalidSample t c) = progress c.
Proof. unfold invalidSample. split_matches; reflexivity. Qed.

Lemma staged_complete_high stage lo m t c :
  staged c -> lowMidiRef c = Some lo -> stage <> capture_low ->
  staged (completeStageWithMidi stage m t c).
Proof.
  intros S L Hstage.
  unfold completeStageWithMidi.
  replace (TestStage_eqb stage capture_low) with false
    by (destruct stage; try reflexivity; congruence).
  set (cleared := c |> resetStability |> set_fastPassRef noFastPass).
  assert (Sc : staged cleared)
    by (apply (staged_progress c); [reflexivity|exact S]).
  replace (stageEnteredAtRef cleared) with (stageEnteredAtRef c) by reflexivity.
  replace (lowMidiRef cleared) with (lowMidiRef c) by reflexivity.
  destruct (_ <? _)%Z; [exact Sc|]. rewrite L.
  destruct (Qlt_bool m (lo + HIGH_NOTE_MIN_SEMITONES)) eqn:Eclose.
  - apply (staged_progress cleared); [reflexivity|exact Sc].
  - apply Qlt_bool_false_iff in Eclose.
    unfold finishRangeTest, updRangeResult. fields.
    replace (lowMidiRef cleared) with (lowMidiRef c) by reflexivity. rewrite L.
    unfold staged. fields. cbn [lowMidi highMidi comfortLowMidi comfortHighMidi].
    split; [reflexivity|]. split; [symmetry; exact L|]. split; [reflexivity|].
    exists lo, m. eexists. eexists.
    split; [exact L|]. split; [reflexivity|].
    split; [reflexivity|]. split; [reflexivity|].
    split; [exact Eclose|].
    split; [reflexivity|]. split; reflexivity.
Qed.

Lemma staged_completeStageWithMidi m t c :
  staged c -> staged (completeStageWithMidi (stageRef c) m t c).
Proof.
  intros S. pose proof S as [S1 [S2 [S3 S4]]].
  destruct (stageRef c) eqn:Es; try contradiction.
  - (* low stage *)
    destruct S4 as [L [H [C1 [C2 A]]]].
    rewrite completeStageWithMidi_low. unfold staged. fields.
    unfold with_lowMidi. cbn [lowMidi highMidi comfortLowMidi comfortHighMidi].
    unfold resetStability. fields.
    repeat split; auto. exists m. reflexivity.
  - (* high stage *)
    destruct S4 as [[lo L] _].
    apply staged_complete_high with (lo := lo); [exact S|exact L|discriminate].
  - (* done: the same path as the high stage *)
    destruct S4 as [lo [hi [cl [ch [L _]]]]].
    apply staged_complete_high with (lo := lo); [exact S|exact L|discriminate].
Qed.

Lemma staged_appended t x c :
  staged c -> stageRef c <> done -> staged (appended t x c).
Proof.
  unfold staged, appended. fields. intros [S1 [S2 [S3 S4]]] Hd.
  split; [exact S1|]. split; [exact S2|]. split; [exact S3|].
  destruct (stageRef c); [exact S4|exact S4|exact S4|congruence].
Qed.

Lemma staged_trackStability log2 t f c :
  staged c -> stageRef c <> done ->
  staged (trackStability log2 (stageRef c) t f c).
Proof.
  intros S Hd. rewrite trackStability_cases.
  destruct (restarts _ _); [apply (staged_progress c); [reflexivity|exact S]|].
  assert (Sa : forall x, staged (appended t x c))
    by (intros x; apply staged_appended; assumption).
  destruct (_ <=? _)%Z; [|apply Sa].
  apply (staged_completeStageWithMidi _ _ (appended t _ c)), Sa.
Qed.

Lemma staged_validSample log2 t f conf c :
  staged c -> stageRef c <> done ->
  staged (validSample log2 (stageRef c) t f conf c).
Proof.
  intros S Hd.
  assert (Sf : forall fp, staged (set_fastPassRef fp c))
    by (intros fp; apply (staged_progress c); [reflexivity|exact S]).
  unfold validSample. split_matches;
    first [ apply staged_completeStageWithMidi; exact S
          | apply staged_trackStability; assumption
          | apply (staged_trackStability log2 t f (set_fastPassRef _ c));
            [apply Sf|exact Hd] ].
Qed.

Lemma staged_feed log2 s c : staged c -> staged (feed log2 c s).
Proof.
  intros S. unfold feed, handlePitchSampleForRangeTest.
  assert (Sg : staged (silenceGate (s_timestamp s) (s_level s) c))
    by (apply (staged_progress c);
        [symmetry; apply progress_silenceGate|exact S]).
  assert (Eg : stageRef (silenceGate (s_timestamp s) (s_level s) c) = stageRef c)
    by exact (proj1 (silenceGate_keeps _ _ c)).
  assert (Si : staged (invalidSample (s_timestamp s)
                         (silenceGate (s_timestamp s) (s_level s) c)))
    by (apply (staged_progress _ _ (eq_sym (progress_invalidSample _ _)));
        exact Sg).
  destruct (stageRef c) eqn:Es; try exact S;
    destruct (isValid _ _); try exact Si;
    destruct (frequency_hz _); try exact Si;
    rewrite <- Eg at 1;
    (apply staged_validSample; [exact Sg|rewrite Eg; discriminate]).
Qed.

Lemma staged_run log2 ss : forall c, staged c -> staged (run log2 c ss).
Proof.
  induction ss as [|s ss IH]; intros c S; [exact S|].
  apply (IH (feed log2 c s)), staged_feed, S.
Qed.

Lemma staged_startRangeTest now c : staged (startRangeTest now c).
Proof. unfold staged. cbn. repeat split. Qed.

(** ** A rule for the sample handler

    What every block of the handler preserves, the handler preserves, and
    so does every run. *)

Lemma restarts_false_nonempty buf x : restarts buf x = false -> buf <> [].
Proof. destruct buf; intros H; [discriminate H|discriminate]. Qed.

Lemma trackStability_rule log2 P t f c :
  preservedByBlocks P -> capturing c -> P c ->
  P (trackStability log2 (stageRef c) t f c).
Proof.
  intros [_ [_ [_ [Hr [Ha Hc]]]]] Cc Pc. rewrite trackStability_cases.
  destruct (restarts _ _) eqn:Er; [apply Hr; assumption|].
  apply restarts_false_nonempty in Er.
  destruct (_ <=? _)%Z; [|apply Ha; assumption].
  apply (Hc _ _ (appended t _ c)); [exact Cc|apply Ha; assumption].
Qed.

Lemma validSample_rule log2 P t f conf c :
  preservedByBlocks P -> capturing c -> P c ->
  P (validSample log2 (stageRef c) t f conf c).
Proof.
  intros HP Cc Pc. pose proof HP as [_ [_ [Hf [_ [_ Hc]]]]].
  unfold validSample. split_matches;
    first [ apply Hc; assumption
          | apply trackStability_rule; assumption
          | apply (trackStability_rule log2 P t f (set_fastPassRef _ c));
            [exact HP|exact Cc|apply Hf; [exact Cc|exact Pc|]];
            first [left; reflexivity|right; exists t; reflexivity] ].
Qed.

Lemma feed_rule log2 P s c : preservedByBlocks P -> P c -> P (feed log2 c s).
Proof.
  intros HP Pc. pose proof HP as [Hg [Hi _]].
  unfold feed, handlePitchSampleForRangeTest.
  set (g := silenceGate (s_timestamp s) (s_level s) c).
  assert (Eg : stageRef g = stageRef c)
    by exact (proj1 (silenceGate_keeps _ _ c)).
  assert (Hcap : capturing c -> capturing g /\ P g /\ P (invalidSample (s_timestamp s) g)).
  { intros Cc. assert (Cg : capturing g) by (unfold capturing; rewrite Eg; exact Cc).
    assert (Pg : P g) by (apply Hg; assumption).
    split; [exact Cg|]. split; [exact Pg|]. apply Hi; assumption. }
  destruct (stageRef c) eqn:Es; try exact Pc;
    (destruct Hcap as [Cg [Pg Pi]]; [unfold capturing; rewrite Es; auto|]);
    destruct (isValid _ _); try exact Pi;
    destruct (frequency_hz _); try exact Pi;
    rewrite <- Eg; apply validSample_rule; assumption.
Qed.

Lemma run_rule log2 P ss : forall c, preservedByBlocks P -> P c -> P (run log2 c ss).
Proof.
  induction ss as [|s ss IH]; intros c HP Pc; [exact Pc|].
  apply (IH (feed log2 c s) HP), feed_rule; assumption.
Qed.

(** ** What the blocks preserve *)

Ltac blocks :=
  unfold preservedByBlocks;
  split; [|split; [|split; [|split; [|split]]]].

Lemma capturing_not_done c : capturing c -> stageRef c <> done.
Proof. intros [E | E]; rewrite E; discriminate. Qed.

Lemma staged_blocks : preservedByBlocks staged.
Proof.
  blocks.
  - intros t level c _ S.
    apply (staged_progress c); [symmetry; apply progress_silenceGate|exact S].
  - intros t c _ S.
    apply (staged_progress c); [symmetry; apply progress_invalidSample|exact S].
  - intros fp c _ S _. apply (staged_progress c); [reflexivity|exact S].
  - intros t x c _ S. apply (staged_progress c); [reflexivity|exact S].
  - intros t x c Cc S _. apply staged_appended; [exact S|].
    apply capturing_not_done, Cc.
  - intros m t c _ S. apply staged_completeStageWithMidi, S.
Qed.

Lemma windowCoherent_resetStability c : windowCoherent (resetStability c).
Proof.
  unfold windowCoherent, resetStability, heldFor. fields. cbn [emptyStability].
  unfold emptyStability. fields. cbn [List.length].
  split; [lia|]. repeat split; reflexivity.
Qed.

Lemma pushCapped_nonempty buf x : pushCapped buf x <> [].
Proof.
  rewrite pushCapped_spec.
  destruct (List.length buf <? 20)%nat eqn:E.
  - destruct buf; discriminate.
  - apply Nat.ltb_ge in E.
    destruct buf as [|b [|b' buf']]; cbn in E; [lia|lia|discriminate].
Qed.

Lemma windowCoherent_blocks : preservedByBlocks windowCoherent.
Proof.
  blocks.
  - intros t level c _ W. unfold silenceGate. split_matches; exact W.
  - intros t c _ W. unfold invalidSample. fields.
    destruct (lastValidAt (stableRef c)); [|apply windowCoherent_resetStability].
    destruct (_ <? _)%Z; [exact W|apply windowCoherent_resetStability].
  - intros fp c _ W _. exact W.
  - intros t x c _ _. unfold windowCoherent, restarted, heldFor. fields.
    cbn [List.length]. split; [lia|].
    split; [split; discriminate|]. split; [split; discriminate|].
    split; [split; discriminate|]. lia.
  - intros t x c _ [W1 [W2 [W3 [W4 W5]]]] Hne.
    unfold windowCoherent, appended, heldFor, elapsedSince. fields.
    split; [apply pushCapped_bounded; exact W1|].
    assert (Hp := pushCapped_nonempty (samples (stableRef c)) x).
    destruct (startAt (stableRef c)) as [a|] eqn:Ea;
      [|exfalso; apply Hne, W2; reflexivity].
    split; [split; [contradiction|discriminate]|].
    split; [split; [contradiction|discriminate]|].
    split; [split; [contradiction|discriminate]|]. reflexivity.
  - intros m t c _ _. unfold completeStageWithMidi, finishRangeTest.
    split_matches; exact (windowCoherent_resetStability c).
Qed.

Lemma dwellOfStage_cleared m t c :
  fastPassRef (completeStageWithMidi (stageRef c) m t c) = noFastPass.
Proof.
  unfold completeStageWithMidi, finishRangeTest. split_matches; reflexivity.
Qed.

Lemma dwellOfStage_blocks : preservedByBlocks dwellOfStage.
Proof.
  blocks.
  - intros t level c _ D. unfold dwellOfStage.
    destruct (silenceGate_keeps t level c) as [G1 [G2 _]].
    rewrite G1, G2. exact D.
  - intros t c _ _. left. unfold invalidSample. split_matches; reflexivity.
  - intros fp c _ _ Hfp. exact Hfp.
  - intros t x c _ D. exact D.
  - intros t x c _ D _. exact D.
  - intros m t c _ _. left. apply dwellOfStage_cleared.
Qed.

Lemma history_completeStageWithMidi stage m t c :
  stableHistoryRef (completeStageWithMidi stage m t c) = stableHistoryRef c.
Proof.
  unfold completeStageWithMidi, finishRangeTest. split_matches; reflexivity.
Qed.

Lemma extends_blocks h0 : preservedByBlocks (extends h0).
Proof.
  unfold extends. blocks.
  - intros t level c _ E. unfold silenceGate. split_matches; exact E.
  - intros t c _ E. unfold invalidSample. split_matches; exact E.
  - intros fp c _ E _. exact E.
  - intros t x c _ E. exact E.
  - intros t x c _ [more E] _. exists (more ++ [x]).
    unfold appended. fields. rewrite E. symmetry. apply app_assoc.
  - intros m t c _ E. rewrite history_completeStageWithMidi. exact E.
Qed.

Lemma lowMidiRef_completeStageWithMidi stage m t c :
  stage <> capture_low ->
  lowMidiRef (completeStageWithMidi stage m t c) = lowMidiRef c.
Proof.
  intros Hs. unfold completeStageWithMidi, finishRangeTest.
  replace (TestStage_eqb stage capture_low) with false
    by (destruct stage; try reflexivity; congruence).
  split_matches; reflexivity.
Qed.

Lemma lowRecorded_past_low lo c : lowRecorded lo c -> stageRef c <> capture_low.
Proof.
  intros [[_ [_ [_ S]]] L] E. rewrite E in S.
  destruct S as [N _]. congruence.
Qed.

Lemma lowRecorded_blocks lo : preservedByBlocks (lowRecorded lo).
Proof.
  destruct staged_blocks as [Sg [Si [Sf [Sr [Sa Sc]]]]].
  unfold lowRecorded. blocks.
  - intros t level c Cc [S L]. split; [apply Sg; assumption|].
    destruct (silenceGate_keeps t level c) as [_ [_ [_ [G _]]]].
    rewrite G. exact L.
  - intros t c Cc [S L]. split; [apply Si; assumption|].
    unfold invalidSample. split_matches; exact L.
  - intros fp c Cc [S L] Hfp. split; [apply Sf; assumption|exact L].
  - intros t x c Cc [S L]. split; [apply Sr; assumption|exact L].
  - intros t x c Cc [S L] Hne. split; [apply Sa; assumption|exact L].
  - intros m t c Cc [S L]. split; [apply Sc; assumption|].
    rewrite lowMidiRef_completeStageWithMidi; [exact L|].
    apply (lowRecorded_past_low lo). split; assumption.
Qed.

Lemma rank_completeStageWithMidi m t c :
  staged c -> capturing c ->
  (stageRank (stageRef c)
   <= stageRank (stageRef (completeStageWithMidi (stageRef c) m t c)))%nat.
Proof.
  intros S [E | E].
  - rewrite E, completeStageWithMidi_low. cbn. lia.
  - pose proof (staged_completeStageWithMidi m t c S) as [_ [_ [_ S']]].
    pose proof (lowMidiRef_completeStageWithMidi (stageRef c) m t c) as L.
    destruct S as [_ [_ [_ S]]]. rewrite E in *.
    destruct S as [[lo Hlo] _]. rewrite Hlo in L.
    destruct (stageRef (completeStageWithMidi capture_high m t c));
      [contradiction| |cbn; lia|cbn; lia].
    destruct S' as [N _]. rewrite L in N; [discriminate N|discriminate].
Qed.

Lemma reachedRank_blocks r : preservedByBlocks (reachedRank r).
Proof.
  destruct staged_blocks as [Sg [Si [Sf [Sr [Sa Sc]]]]].
  unfold reachedRank. blocks.
  - intros t level c Cc [S R]. split; [apply Sg; assumption|].
    rewrite (proj1 (silenceGate_keeps t level c)). exact R.
  - intros t c Cc [S R]. split; [apply Si; assumption|].
    unfold invalidSample. split_matches; exact R.
  - intros fp c Cc [S R] Hfp. split; [apply Sf; assumption|exact R].
  - intros t x c Cc [S R]. split; [apply Sr; assumption|exact R].
  - intros t x c Cc [S R] Hne. split; [apply Sa; assumption|exact R].
  - intros m t c Cc [S R]. split; [apply Sc; assumption|].
    pose proof (rank_completeStageWithMidi m t c S Cc). lia.
Qed.

(** ** Running range tests

    The statements below are about every run of the sample handler from a
    freshly started range test, whatever the state before the start and
    whatever the samples. *)

(** X1: throughout a range test the stage ref and the stage state cell
    agree, the low and high pitch in the range result are the ones in the
    two pitch refs, and the stage is never idle: the failure branch of
    [finishRangeTest] is never taken. *)
Theorem refs_agree_with_state_cells log2 now before ss :
  let c := run log2 (startRangeTest now before) ss in
  stageRef c = testStage c
  /\ lowMidi (rangeResult c) = lowMidiRef c
  /\ highMidi (rangeResult c) = highMidiRef c
  /\ stageRef c <> idle.
Proof.
  intros c.
  destruct (staged_run log2 ss _ (staged_startRangeTest now before))
    as [S1 [S2 [S3 S4]]].
  fold c in S1, S2, S3, S4.
  split; [exact S1|]. split; [exact S2|]. split; [exact S3|].
  intros E. rewrite E in S4. exact S4.
Qed.

(** X2: throughout a range test the range result is filled in exactly as
    far as the stage says: the low pitch is missing exactly in the low
    stage; the high pitch and the two comfort pitches are missing exactly
    until the test is done; and the result step is awaited exactly when the
    test is done. *)
Theorem result_filled_as_stage_says log2 now before ss :
  let c := run log2 (startRangeTest now before) ss in
  (lowMidiRef c = None <-> stageRef c = capture_low)
  /\ (highMidiRef c = None <-> stageRef c <> done)
  /\ (comfortLowMidi (rangeResult c) = None <-> stageRef c <> done)
  /\ (comfortHighMidi (rangeResult c) = None <-> stageRef c <> done)
  /\ (awaitingResultStep c = true <-> stageRef c = done).
Proof.
  intros c.
  destruct (staged_run log2 ss _ (staged_startRangeTest now before))
    as [_ [_ [_ S]]].
  fold c in S.
  destruct (stageRef c); [contradiction| | |].
  - destruct S as [L [H [C1 [C2 A]]]]. rewrite L, H, C1, C2, A.
    repeat split; try reflexivity; try discriminate; intros; discriminate.
  - destruct S as [[lo L] [H [C1 [C2 A]]]]. rewrite L, H, C1, C2, A.
    repeat split; try reflexivity; try discriminate; intros; discriminate.
  - destruct S as [lo [hi [cl [ch [L [H [C1 [C2 [_ [_ [_ A]]]]]]]]]]].
    rewrite L, H, C1, C2, A.
    repeat split; try reflexivity; try discriminate; intros;
      try discriminate; exfalso; auto.
Qed.

(** X3: a finished range test has a high pitch at least 0.5 semitones
    above the low pitch, and a comfort band that is the window of three
    semitones either side of the centre pitch, cut off at the low and the
    high pitch; the centre is the median of the history of window samples,
    or the midpoint of the two pitches when there is none. *)
Theorem finished_range_keeps_margin log2 now before ss :
  stageRef (run log2 (startRangeTest now before) ss) = done ->
  exists lo hi,
    let c := run log2 (startRangeTest now before) ss in
    let center := centerOf lo hi (stableHistoryRef c) in
    rangeResult c
    = mkRange (Some lo) (Some hi)
        (Some (Qmax lo (center - 3))) (Some (Qmin hi (center + 3)))
    /\ lo + HIGH_NOTE_MIN_SEMITONES <= hi
    /\ lo <= Qmax lo (center - 3)
    /\ Qmin hi (center + 3) <= hi.
Proof.
  intros E.
  destruct (staged_run log2 ss _ (staged_startRangeTest now before))
    as [_ [S2 [S3 S]]].
  rewrite E in S.
  destruct S as [lo [hi [cl [ch [L [H [C1 [C2 [M [Ecl [Ech _]]]]]]]]]]].
  exists lo, hi. cbv zeta.
  split.
  - rewrite L in S2. rewrite H in S3. rewrite <- Ecl, <- Ech.
    destruct (rangeResult _). cbn in S2, S3, C1, C2. congruence.
  - split; [exact M|]. apply comfort_band_clamped.
Qed.

Lemma finished_range_keeps_margin_witness :
  stageRef (run log2_dyadic (startRangeTest 0 initialCapture) plainRange) = done
  /\ exists lo hi,
       let c := run log2_dyadic (startRangeTest 0 initialCapture) plainRange in
       let center := centerOf lo hi (stableHistoryRef c) in
       rangeResult c
       = mkRange (Some lo) (Some hi)
           (Some (Qmax lo (center - 3))) (Some (Qmin hi (center + 3)))
       /\ lo + HIGH_NOTE_MIN_SEMITONES <= hi
       /\ lo <= Qmax lo (center - 3)
       /\ Qmin hi (center + 3) <= hi.
Proof.
  split; [vm_compute; reflexivity|].
  apply (finished_range_keeps_margin log2_dyadic 0 initialCapture plainRange).
  vm_compute. reflexivity.
Defined.

(** X4: when every sample of the history lies within three semitones of
    the range, a finished range test has a comfort band that is well
    formed and inside the range: low pitch <= comfort low <= comfort high
    <= high pitch. *)
Theorem comfort_band_well_formed_near_range log2 now before ss lo hi cl ch :
  stageRef (run log2 (startRangeTest now before) ss) = done ->
  rangeResult (run log2 (startRangeTest now before) ss)
  = mkRange (Some lo) (Some hi) (Some cl) (Some ch) ->
  Forall (fun x => lo - 3 <= x <= hi + 3)
    (stableHistoryRef (run log2 (startRangeTest now before) ss)) ->
  lo <= cl /\ cl <= ch /\ ch <= hi.
Proof.
  intros E R Hnear.
  destruct (staged_run log2 ss _ (staged_startRangeTest now before))
    as [_ [S2 [S3 S]]].
  rewrite E in S. rewrite R in S2, S3, S. cbn in S2, S3, S.
  destruct S as [lo' [hi' [cl' [ch' [L [H [C1 [C2 [M [Ecl [Ech _]]]]]]]]]]].
  assert (lo' = lo) by congruence. assert (hi' = hi) by congruence.
  subst lo' hi'.
  assert (Ecl' : cl = Qmax lo (centerOf lo hi
            (stableHistoryRef (run log2 (startRangeTest now before) ss)) - 3))
    by congruence.
  assert (Ech' : ch = Qmin hi (centerOf lo hi
            (stableHistoryRef (run log2 (startRangeTest now before) ss)) + 3))
    by congruence.
  clear Ecl Ech C1 C2.
  set (h := stableHistoryRef _) in *.
  assert (Hle : lo <= hi) by (unfold HIGH_NOTE_MIN_SEMITONES in M; lra).
  assert (Hc : lo - 3 <= centerOf lo hi h <= hi + 3).
  { unfold centerOf. destruct h as [|x l] eqn:Eh.
    - assert (E2 : (lo + hi) / 2 == (lo + hi) * (1 # 2)) by field.
      rewrite E2. split; lra.
    - apply median_within; [discriminate|exact Hnear]. }
  destruct Hc as [Hc1 Hc2].
  destruct (comfort_band_ordered lo hi _ Hle Hc1 Hc2) as [A _].
  rewrite Ecl', Ech'.
  split; [apply Q.le_max_l|]. split; [exact A|apply Q.le_min_l].
Qed.

Lemma comfort_band_well_formed_near_range_witness :
  45 <= 96000000000000 # 2000000000000
  /\ 96000000000000 # 2000000000000 <= 108000000000000 # 2000000000000
  /\ 108000000000000 # 2000000000000 <= 57.
Proof.
  apply (comfort_band_well_formed_near_range log2_dyadic 0 initialCapture
           plainRange 45 57 (96000000000000 # 2000000000000)
           (108000000000000 # 2000000000000)).
  - vm_compute. reflexivity.
  - vm_compute. reflexivity.
  - vm_compute. repeat constructor; discriminate.
Defined.

(** X5: a range test only moves forward: after more samples the stage is
    the same or a later one in the order low, high, done. *)
Theorem stage_only_advances log2 now before ss more :
  (stageRank (stageRef (run log2 (startRangeTest now before) ss))
   <= stageRank (stageRef (run log2 (startRangeTest now before) (ss ++ more))))%nat.
Proof.
  rewrite run_app.
  set (c := run log2 (startRangeTest now before) ss).
  assert (S : staged c)
    by (apply staged_run, staged_startRangeTest).
  assert (R : reachedRank (stageRank (stageRef c)) c)
    by (split; [exact S|apply Nat.le_refl]).
  exact (proj2 (run_rule log2 _ more c (reachedRank_blocks _) R)).
Qed.

(** X6: once the low note is recorded, no later sample changes it. *)
Theorem low_note_is_final log2 now before ss more lo :
  lowMidiRef (run log2 (startRangeTest now before) ss) = Some lo ->
  lowMidiRef (run log2 (startRangeTest now before) (ss ++ more)) = Some lo.
Proof.
  intros L. rewrite run_app.
  set (c := run log2 (startRangeTest now before) ss) in *.
  assert (S : staged c)
    by (apply staged_run, staged_startRangeTest).
  exact (proj2 (run_rule log2 _ more c (lowRecorded_blocks lo) (conj S L))).
Qed.

Lemma low_note_is_final_witness :
  lowMidiRef (run log2_dyadic (startRangeTest 0 initialCapture) lowNote) = Some 45
  /\ lowMidiRef (run log2_dyadic (startRangeTest 0 initialCapture)
                   (lowNote ++ tone 4 500 220 0.9)) = Some 45.
Proof.
  split; [vm_compute; reflexivity|].
  apply (low_note_is_final log2_dyadic 0 initialCapture lowNote
           (tone 4 500 220 0.9) 45).
  vm_compute. reflexivity.
Defined.

(** X7: outside the two capture stages the handler ignores its input: in
    the idle stage and in the done stage no sequence of samples changes
    anything. *)
Theorem samples_ignored_outside_capture log2 c ss :
  stageRef c = idle \/ stageRef c = done -> run log2 c ss = c.
Proof.
  intros H. induction ss as [|s ss IH]; [reflexivity|].
  change (run log2 c (s :: ss)) with (run log2 (feed log2 c s) ss).
  replace (feed log2 c s) with c; [exact IH|].
  unfold feed, handlePitchSampleForRangeTest.
  destruct H as [E | E]; rewrite E; reflexivity.
Qed.

Lemma samples_ignored_outside_capture_witness :
  (stageRef initialCapture = idle \/ stageRef initialCapture = done)
  /\ run log2_dyadic initialCapture plainRange = initialCapture.
Proof.
  split; [left; reflexivity|].
  apply (samples_ignored_outside_capture log2_dyadic initialCapture plainRange).
  left. reflexivity.
Defined.

(** X8: the history of window samples, from which the centre of the comfort
    band is taken, is only ever appended to: whatever the state and the
    samples, the history before is a prefix of the history after. *)
Theorem history_only_grows log2 c ss :
  exists more, stableHistoryRef (run log2 c ss) = stableHistoryRef c ++ more.
Proof.
  apply (run_rule log2 (extends (stableHistoryRef c)) ss c (extends_blocks _)).
  exists []. symmetry. apply app_nil_r.
Qed.

(** X9: throughout a range test the stability window holds at most 20
    samples; it is empty exactly when it has no anchor, exactly when it has
    no last valid time, and exactly when there is no last good pitch to
    smooth against; and the hold time on display is the time from the
    anchor of the window to its last valid sample. *)
Theorem window_stays_coherent log2 now before ss :
  let c := run log2 (startRangeTest now before) ss in
  (List.length (samples (stableRef c)) <= 20)%nat
  /\ (samples (stableRef c) = [] <-> startAt (stableRef c) = None)
  /\ (samples (stableRef c) = [] <-> lastValidAt (stableRef c) = None)
  /\ (samples (stableRef c) = [] <-> lastGoodPitchRef c = None)
  /\ stabilityMs c = heldFor (stableRef c).
Proof.
  apply (run_rule log2 windowCoherent ss _ windowCoherent_blocks).
  exact (windowCoherent_resetStability (startRangeTest now before)).
Qed.

(** X10: throughout a range test the fast-pass ref is either cleared or
    holds a dwell of the current stage with its start time: a dwell never
    carries over from the low stage into the high stage. *)
Theorem dwell_belongs_to_stage log2 now before ss :
  let c := run log2 (startRangeTest now before) ss in
  fastPassRef c = noFastPass
  \/ exists since, fastPassRef c = mkFastPass (Some (stageRef c)) (Some since).
Proof.
  apply (run_rule log2 dwellOfStage ss _ dwellOfStage_blocks).
  left. reflexivity.
Qed.

Lemma completeStageWithMidi_high_too_close low m t c :
  lowMidiRef c = Some low ->
  m < low + HIGH_NOTE_MIN_SEMITONES ->
  (HIGH_STAGE_MIN_DELAY_MS <= t - stageEnteredAtRef c)%Z ->
  completeStageWithMidi capture_high m t c
  = c |> resetStability |> set_fastPassRef noFastPass
      |> setTestInstruction msg_too_close.
Proof.
  intros Hlow Hclose Hlate. unfold completeStageWithMidi. cbn [TestStage_eqb].
  set (cleared := c |> resetStability |> set_fastPassRef noFastPass).
  replace (stageEnteredAtRef cleared) with (stageEnteredAtRef c) by reflexivity.
  replace (lowMidiRef cleared) with (lowMidiRef c) by reflexivity.
  apply Z.ltb_ge in Hlate. rewrite Hlate, Hlow.
  apply Qlt_bool_iff in Hclose. rewrite Hclose. reflexivity.
Qed.

(** X12: with a clock that never steps back, the minimum-delay guard of
    the high stage never stops a completed fast-pass dwell.  When the test
    is in the high stage with a dwell running since [since], a confident
    valid sample arriving 250 ms or more after [since] finishes the test
    exactly when its raw pitch is at least 0.5 semitones above the low
    note, and that raw pitch is then the high note; otherwise the stage
    stays, with the window and the dwell cleared. *)
Theorem steady_clock_dwell_decided_by_margin log2 now before ss s f lo since :
  nondecreasing now ss ->
  stageRef (run log2 (startRangeTest now before) ss) = capture_high ->
  lowMidiRef (run log2 (startRangeTest now before) ss) = Some lo ->
  fastPassRef (run log2 (startRangeTest now before) ss)
  = mkFastPass (Some capture_high) (Some since) ->
  confident s ->
  frequency_hz (s_pitch s) = Some f ->
  (CONFIDENCE_PASS_MS <= s_timestamp s - since)%Z ->
  let c' := feed log2 (run log2 (startRangeTest now before) ss) s in
  (stageRef c' = done <-> lo + HIGH_NOTE_MIN_SEMITONES <= frequencyToMidi log2 f)
  /\ (stageRef c' = done -> highMidiRef c' = Some (frequencyToMidi log2 f))
  /\ (stageRef c' <> done ->
      stageRef c' = capture_high
      /\ samples (stableRef c') = []
      /\ fastPassRef c' = noFastPass).
Proof.
  intros Hn Hs Hlo Hfp Hconf Hf Hlong c'.
  destruct (settled_run log2 ss now (startRangeTest now before)
              (settled_startRangeTest now before) Hn) as [_ [H2 _]].
  set (c := run log2 (startRangeTest now before) ss) in *.
  specialize (H2 since). rewrite Hfp in H2. specialize (H2 eq_refl).
  assert (E : c' = completeStageWithMidi capture_high (frequencyToMidi log2 f)
                (s_timestamp s) (silenceGate (s_timestamp s) (s_level s) c))
    by (apply (dwell_completes log2 capture_high since s f c); auto).
  destruct (silenceGate_keeps (s_timestamp s) (s_level s) c)
    as [G1 [_ [_ [G4 [_ G6]]]]].
  set (g := silenceGate (s_timestamp s) (s_level s) c) in *.
  assert (Hlate : (HIGH_STAGE_MIN_DELAY_MS <= s_timestamp s - stageEnteredAtRef g)%Z)
    by (rewrite G6; unfold HIGH_STAGE_MIN_DELAY_MS, CONFIDENCE_PASS_MS in *; lia).
  rewrite <- G4 in Hlo.
  destruct (Qlt_le_dec (frequencyToMidi log2 f) (lo + HIGH_NOTE_MIN_SEMITONES))
    as [Hclose | Hfar].
  - rewrite (completeStageWithMidi_high_too_close lo _ _ g Hlo Hclose Hlate) in E.
    assert (Es : stageRef c' = capture_high)
      by (rewrite E; fields; unfold resetStability; fields; rewrite G1; exact Hs).
    split; [|split].
    + split; [intros D; congruence|intros D; exfalso; lra].
    + intros D. congruence.
    + intros _. split; [exact Es|]. rewrite E. split; reflexivity.
  - destruct (completeStageWithMidi_high_records lo _ _ g Hlo Hfar Hlate)
      as [D [Hh _]].
    rewrite <- E in D, Hh.
    split; [|split].
    + split; [intros _; exact Hfar|intros _; exact D].
    + intros _. exact Hh.
    + intros N. contradiction.
Qed.

Lemma steady_clock_dwell_decided_by_margin_witness :
  let ss := lowNote ++ tone 3 500 220 0.9 in
  let s := sample 800 0.2 220 0.9 in
  let c' := feed log2_dyadic (run log2_dyadic (startRangeTest 0 initialCapture) ss) s in
  (stageRef c' = done
   <-> 45 + HIGH_NOTE_MIN_SEMITONES <= frequencyToMidi log2_dyadic 220)
  /\ (stageRef c' = done -> highMidiRef c' = Some (frequencyToMidi log2_dyadic 220))
  /\ (stageRef c' <> done ->
      stageRef c' = capture_high
      /\ samples (stableRef c') = []
      /\ fastPassRef c' = noFastPass).
Proof.
  intros ss s.
  apply (steady_clock_dwell_decided_by_margin log2_dyadic 0 initialCapture
           ss s 220 45 500).
  - vm_compute. repeat split; discriminate.
  - vm_compute. reflexivity.
  - vm_compute. reflexivity.
  - vm_compute. reflexivity.
  - apply confident_tone. reflexivity.
  - reflexivity.
  - vm_compute. discriminate.
Defined.

(** ** Polling *)

Lemma clamp01_bounds x : 0 <= clamp01 x <= 1.
Proof.
  unfold clamp01. split; [apply Q.le_max_l|].
  apply Q.max_lub; [lra|apply Q.le_min_l].
Qed.

Lemma safeLevelOf_bounds level : 0 <= safeLevelOf level <= 1.
Proof. destruct level; [apply clamp01_bounds|cbn; split; lra]. Qed.

Lemma safePitchOf_bounds pitch : 0 <= confidence (safePitchOf pitch) <= 1.
Proof.
  unfold safePitchOf. cbn [confidence].
  destruct (raw_confidence pitch); [apply clamp01_bounds|split; lra].
Qed.

Lemma metered_stopLevelPolling a : metered (stopLevelPolling a).
Proof.
  unfold metered, stopLevelPolling. app_fields. cbn [noPitch confidence].
  repeat split; try lra; try reflexivity.
Qed.

Lemma metered_startLevelPolling timer a : metered (startLevelPolling timer a).
Proof.
  unfold metered, startLevelPolling, stopLevelPolling. app_fields.
  cbn [noPitch confidence].
  repeat split; try lra; try reflexivity.
Qed.

Ltac limit_cases :=
  repeat match goal with
         | |- context [(20 <=? ?x)%Z] => destruct (20 <=? x)%Z eqn:?
         end.

Lemma metered_level level pitchData0 a :
  0 <= confidence pitchData0 <= 1 ->
  metered
    (a |> setRawInputLevel (safeLevelOf level)
       |> set_rawInputLevelRef (safeLevelOf level)
       |> setInputLevel (clamp01 (safeLevelOf level * LEVEL_GAIN))
       |> set_inputLevelRef (clamp01 (safeLevelOf level * LEVEL_GAIN))
       |> setPitchData pitchData0).
Proof.
  intros Hc. unfold metered. app_fields.
  split; [apply safeLevelOf_bounds|].
  split; [apply clamp01_bounds|].
  split; [apply Qeq_refl|].
  split; [reflexivity|]. split; [reflexivity|exact Hc].
Qed.

Lemma metered_frame a b :
  rawInputLevel b = rawInputLevel a -> inputLevel b = inputLevel a ->
  rawInputLevelRef b = rawInputLevelRef a -> inputLevelRef b = inputLevelRef a ->
  confidence (pitchData b) = confidence (pitchData a) ->
  metered a -> metered b.
Proof.
  unfold metered. intros E1 E2 E3 E4 E5. rewrite E1, E2, E3, E4, E5.
  exact (fun H => H).
Qed.

Lemma metered_setPitchData p a :
  0 <= confidence p <= 1 -> metered a -> metered (setPitchData p a).
Proof.
  unfold metered. app_fields. intros Hc [M1 [M2 [M3 [M4 [M5 _]]]]].
  split; [exact M1|]. split; [exact M2|]. split; [exact M3|].
  split; [exact M4|]. split; [exact M5|exact Hc].
Qed.

Lemma metered_pollTick log2 a t : metered a -> metered (pollTick log2 a t).
Proof.
  intros M. unfold pollTick. destruct (pollTimerRef a); [|exact M].
  unfold pollCallback. destruct (pollInFlightRef a); [exact M|].
  destruct (get_input_level t) as [level|e1];
    destruct (get_pitch_data t) as [pitch|e2]; app_fields; cbn [orb]; app_fields.
  - change (20 <=? 0)%Z with false. cbv iota.
    apply (metered_frame
             (a |> setRawInputLevel (safeLevelOf level)
                |> set_rawInputLevelRef (safeLevelOf level)
                |> setInputLevel (clamp01 (safeLevelOf level * LEVEL_GAIN))
                |> set_inputLevelRef (clamp01 (safeLevelOf level * LEVEL_GAIN))
                |> setPitchData (safePitchOf pitch))); try reflexivity.
    apply metered_level, safePitchOf_bounds.
  - change (20 <=? 0)%Z with false. cbv iota.
    apply (metered_frame
             (a |> setRawInputLevel (safeLevelOf level)
                |> set_rawInputLevelRef (safeLevelOf level)
                |> setInputLevel (clamp01 (safeLevelOf level * LEVEL_GAIN))
                |> set_inputLevelRef (clamp01 (safeLevelOf level * LEVEL_GAIN))
                |> setPitchData (pitchData a))); try reflexivity.
    apply metered_level. exact (proj2 (proj2 (proj2 (proj2 (proj2 M))))).
  - change (20 <=? 0)%Z with false. cbv iota.
    apply (metered_frame (setPitchData (safePitchOf pitch) a)); try reflexivity.
    apply metered_setPitchData; [apply safePitchOf_bounds|exact M].
  - destruct (20 <=? pollErrorCountRef a + 1)%Z.
    + apply (metered_frame (stopLevelPolling a)); try reflexivity.
      apply metered_stopLevelPolling.
    + apply (metered_frame a); try reflexivity. exact M.
Qed.

Lemma metered_poll log2 ts : forall a, metered a -> metered (poll log2 a ts).
Proof.
  induction ts as [|t ts IH]; intros a M; [exact M|].
  apply (IH (pollTick log2 a t)), metered_pollTick, M.
Qed.

(** X13: from the moment polling starts, whatever the backend returns, both
    level meters stay in [0, 1], the boosted level is the raw level times
    the gain of 12 clamped to [0, 1], the level refs hold what the level
    cells hold, and the confidence on display stays in [0, 1]. *)
Theorem meters_stay_in_range log2 timer a0 ts :
  let a := poll log2 (startLevelPolling timer a0) ts in
  0 <= rawInputLevel a <= 1
  /\ 0 <= inputLevel a <= 1
  /\ inputLevel a == clamp01 (rawInputLevel a * LEVEL_GAIN)
  /\ rawInputLevelRef a = rawInputLevel a
  /\ inputLevelRef a = inputLevel a
  /\ 0 <= confidence (pitchData a) <= 1.
Proof.
  intros a. apply (metered_poll log2 ts (startLevelPolling timer a0)).
  apply metered_startLevelPolling.
Qed.

Lemma counted_pollTick log2 a t : counted a -> counted (pollTick log2 a t).
Proof.
  intros C. unfold pollTick. destruct (pollTimerRef a) as [timer|] eqn:Et; [|exact C].
  unfold pollCallback. destruct (pollInFlightRef a); [exact C|].
  destruct C as [C1 _].
  destruct (get_input_level t) as [level|e1];
    destruct (get_pitch_data t) as [pitch|e2];
    app_fields; cbn [orb]; app_fields;
    try (change (20 <=? 0)%Z with false; cbv iota);
    limit_cases;
    unfold counted, stopLevelPolling; app_fields;
    try rewrite Et;
    (split; [lia|]); intros N; try discriminate N;
    repeat split; reflexivity.
Qed.

Lemma counted_poll log2 ts : forall a, counted a -> counted (poll log2 a ts).
Proof.
  induction ts as [|t ts IH]; intros a C; [exact C|].
  apply (IH (pollTick log2 a t)), counted_pollTick, C.
Qed.

Lemma poll_stopped log2 ts : forall a, pollTimerRef a = None -> poll log2 a ts = a.
Proof.
  induction ts as [|t ts IH]; intros a N; [reflexivity|].
  change (poll log2 a (t :: ts)) with (poll log2 (pollTick log2 a t) ts).
  replace (pollTick log2 a t) with a by (unfold pollTick; rewrite N; reflexivity).
  apply IH, N.
Qed.

(** The state after one run of the callback, by the outcomes of its two
    backend calls. *)
Lemma pollCallback_cases log2 t a :
  pollInFlightRef a = false ->
  pollCallback log2 t a
  = match get_input_level t, get_pitch_data t with
    | Ok level, Ok pitch =>
      mkApp (handlePitchSampleForRangeTest log2 (date_now t) (safeLevelOf level)
               (safePitchOf pitch) (capture a))
            (status a)
            (clamp01 (safeLevelOf level * LEVEL_GAIN)) (safeLevelOf level)
            (clamp01 (safeLevelOf level * LEVEL_GAIN)) (safeLevelOf level)
            (safePitchOf pitch) (pollTimerRef a) 0%Z false
    | Ok level, Err _ =>
      mkApp (capture a) (status a)
            (clamp01 (safeLevelOf level * LEVEL_GAIN)) (safeLevelOf level)
            (clamp01 (safeLevelOf level * LEVEL_GAIN)) (safeLevelOf level)
            (pitchData a) (pollTimerRef a) 0%Z false
    | Err _, Ok pitch =>
      mkApp (handlePitchSampleForRangeTest log2 (date_now t) (rawInputLevelRef a)
               (safePitchOf pitch) (capture a))
            (status a) (inputLevel a) (rawInputLevel a) (inputLevelRef a)
            (rawInputLevelRef a) (safePitchOf pitch) (pollTimerRef a) 0%Z false
    | Err _, Err _ =>
      if (20 <=? pollErrorCountRef a + 1)%Z then stopLevelPolling a
      else set_pollErrorCountRef (pollErrorCountRef a + 1)%Z a
    end.
Proof.
  intros Hfree. unfold pollCallback. rewrite Hfree.
  destruct a as [cap st il ril ilr rilr pd timer n fl]. cbn in Hfree. subst fl.
  destruct (get_input_level t) as [level|e1];
    destruct (get_pitch_data t) as [pitch|e2]; cbn; try reflexivity.
  destruct (20 <=? n + 1)%Z; reflexivity.
Qed.

(** What one tick of armed, idle polling leaves behind: either polling has
    stopped on the twentieth failure in a row, with the capture state
    untouched, or polling is still armed and idle, having handed the range
    test the sample of the tick, if there is one. *)
Lemma pollTick_samples log2 a t timer :
  pollTimerRef a = Some timer -> pollInFlightRef a = false ->
  capture (pollTick log2 a t)
  = run log2 (capture a)
      (samplesSeen (rawInputLevelRef a) (pollErrorCountRef a) [t])
  /\ ((pollTimerRef (pollTick log2 a t) = None
       /\ (exists e1 e2, get_input_level t = Err e1 /\ get_pitch_data t = Err e2)
       /\ (20 <=? pollErrorCountRef a + 1)%Z = true)
      \/ (pollTimerRef (pollTick log2 a t) = Some timer
          /\ pollInFlightRef (pollTick log2 a t) = false
          /\ forall rest,
               samplesSeen (rawInputLevelRef a) (pollErrorCountRef a) (t :: rest)
               = samplesSeen (rawInputLevelRef a) (pollErrorCountRef a) [t]
                 ++ samplesSeen (rawInputLevelRef (pollTick log2 a t))
                      (pollErrorCountRef (pollTick log2 a t)) rest)).
Proof.
  intros Et Ef. unfold pollTick. rewrite Et, (pollCallback_cases log2 t a Ef).
  cbn [samplesSeen].
  destruct (get_input_level t) as [level|e1];
    destruct (get_pitch_data t) as [pitch|e2]; app_fields.
  - split; [reflexivity|]. right.
    split; [exact Et|]. split; [reflexivity|]. intros rest. reflexivity.
  - split; [reflexivity|]. right.
    split; [exact Et|]. split; [reflexivity|]. intros rest. reflexivity.
  - split; [reflexivity|]. right.
    split; [exact Et|]. split; [reflexivity|]. intros rest. reflexivity.
  - destruct (20 <=? pollErrorCountRef a + 1)%Z eqn:E.
    + split; [reflexivity|]. left. split; [reflexivity|].
      split; [exists e1, e2; split; reflexivity|reflexivity].
    + app_fields. split; [reflexivity|]. right.
      split; [exact Et|]. split; [exact Ef|]. intros rest.
      rewrite app_nil_l. reflexivity.
Qed.

Lemma poll_feeds_run log2 ts : forall a timer,
  pollTimerRef a = Some timer -> pollInFlightRef a = false ->
  capture (poll log2 a ts)
  = run log2 (capture a)
      (samplesSeen (rawInputLevelRef a) (pollErrorCountRef a) ts).
Proof.
  induction ts as [|t ts IH]; intros a timer Et Ef; [reflexivity|].
  change (poll log2 a (t :: ts)) with (poll log2 (pollTick log2 a t) ts).
  destruct (pollTick_samples log2 a t timer Et Ef) as [Ec [Hstop | Hgo]].
  - destruct Hstop as [N [[e1 [e2 [E1 E2]]] L]].
    rewrite (poll_stopped log2 ts _ N), Ec.
    cbn [samplesSeen]. rewrite E1, E2, L. reflexivity.
  - destruct Hgo as [Et' [Ef' Hs]].
    rewrite (IH _ timer Et' Ef'), Ec, (Hs ts). symmetry. apply run_app.
Qed.

(** X15: while polling is armed, the range test sees exactly the samples
    of the ticks whose pitch call succeeded, in order, each with the
    sanitised pitch, the clock value of the tick, and the sanitised level
    of the same tick or, when its level call failed, the last level read;
    nothing reaches it after the twentieth failed tick in a row. *)
Theorem polling_feeds_sanitised_samples log2 ts a timer :
  pollTimerRef a = Some timer -> pollInFlightRef a = false ->
  capture (poll log2 a ts)
  = run log2 (capture a)
      (samplesSeen (rawInputLevelRef a) (pollErrorCountRef a) ts).
Proof. apply poll_feeds_run. Qed.

Lemma polling_feeds_sanitised_samples_witness :
  capture (poll log2_dyadic appStarted [goodTick; pitchOnlyTick 200; wildTick])
  = run log2_dyadic (capture appStarted)
      [ mkSample 100 (clamp01 0.05) (mkPitch (Some 110) (clamp01 0.9) (Some "A2"%string) (Some 0));
        mkSample 200 (clamp01 0.05) (mkPitch (Some 110) (clamp01 0.9) None None);
        mkSample 200 (clamp01 3) (mkPitch (Some 110) (clamp01 7) None None) ].
Proof.
  exact (polling_feeds_sanitised_samples log2_dyadic
           [goodTick; pitchOnlyTick 200; wildTick] appStarted 7
           eq_refl eq_refl).
Defined.

(** ** Sessions *)

Lemma pollTick_capture_rule log2 (P : Capture -> Prop) a t :
  (forall ts level pitch c,
     P c -> P (handlePitchSampleForRangeTest log2 ts level pitch c)) ->
  P (capture a) -> P (capture (pollTick log2 a t)).
Proof.
  intros H Pa. unfold pollTick. destruct (pollTimerRef a); [|exact Pa].
  destruct (pollInFlightRef a) eqn:Ef;
    [unfold pollCallback; rewrite Ef; exact Pa|].
  rewrite (pollCallback_cases log2 t a Ef).
  destruct (get_input_level t) as [level|e1];
    destruct (get_pitch_data t) as [pitch|e2];
    app_fields; limit_cases; unfold stopLevelPolling; app_fields;
    first [exact Pa|apply H; exact Pa].
Qed.

Lemma coherent_handler log2 ts level pitch c :
  coherent c -> coherent (handlePitchSampleForRangeTest log2 ts level pitch c).
Proof.
  intros [N | [S | V]].
  - left. unfold handlePitchSampleForRangeTest.
    destruct N as [E N]. rewrite E. split; assumption.
  - right. left. exact (staged_feed log2 (mkSample ts level pitch) c S).
  - right. right. unfold handlePitchSampleForRangeTest.
    destruct V as [E V]. rewrite E. split; assumption.
Qed.

Lemma noTest_resetRangeTest c : noTest (resetRangeTest c).
Proof. unfold noTest. cbn. repeat split. Qed.

Lemma coherent_goToResultStep u :
  coherent (capture (app u)) -> coherent (capture (app (goToResultStep u))).
Proof.
  intros C. unfold goToResultStep.
  destruct (lowMidi (rangeResult (capture (app u)))) as [lo|] eqn:El;
    [|exact C].
  destruct (highMidi (rangeResult (capture (app u)))) as [hi|] eqn:Eh;
    [|exact C].
  cbn [app]. unfold updCapture. app_fields.
  set (c := capture (app u)) in *.
  destruct C as [N | [S | V]].
  - destruct N as [_ [_ [R _]]]. rewrite R in El. discriminate El.
  - right. right. pose proof S as [_ [_ [S3 S4]]].
    rewrite Eh in S3.
    destruct (stageRef c) eqn:Es; try contradiction.
    + destruct S4 as [_ [H _]]. congruence.
    + destruct S4 as [_ [H _]]. congruence.
    + destruct S4 as [lo' [hi' [cl [ch [_ [_ [_ [_ [_ [_ [_ A]]]]]]]]]]].
      split; [exact Es|]. split; [reflexivity|].
      apply (staged_progress c); [|exact S].
      unfold progress. fields. rewrite A. reflexivity.
  - right. right. destruct V as [D [A V]].
    split; [exact D|]. split; [reflexivity|exact V].
Qed.

Lemma coherent_handle log2 u e :
  coherent (capture (app u)) -> coherent (capture (app (handle log2 u e))).
Proof.
  intros C. destruct e as [stop start timer now|stop|stop| |page|t];
    cbn [handle app].
  - unfold Flow.startRangeTest, Flow.startStream.
    destruct start as [[]|error]; unfold updCapture, startLevelPolling,
      stopLevelPolling; app_fields; [|exact C].
    right. left. apply staged_startRangeTest.
  - unfold Flow.stopStream, stopLevelPolling.
    destruct stop; app_fields; exact C.
  - unfold Flow.resetTestFlow, updCapture. app_fields.
    left. apply noTest_resetRangeTest.
  - apply coherent_goToResultStep, C.
  - exact C.
  - apply pollTick_capture_rule; [|exact C].
    intros ts level pitch c. apply coherent_handler.
Qed.

Lemma coherent_session log2 es : forall u,
  coherent (capture (app u)) -> coherent (capture (app (session log2 u es))).
Proof.
  induction es as [|e es IH]; intros u C; [exact C|].
  apply (IH (handle log2 u e)), coherent_handle, C.
Qed.

Lemma coherent_initialUi : coherent (capture (app initialUi)).
Proof. left. unfold noTest. cbn. repeat split. Qed.

(** X16: in every session from the initial state, the stepper of the test
    page shows one of four pictures, by the stage alone: nothing marked
    while no test runs, the first step active in the low stage, the first
    done and the second active in the high stage, and all three done once
    the test is done.  The third step is never shown as active. *)
Theorem stepper_follows_stage log2 es :
  let c := capture (app (session log2 initialUi es)) in
  stepper c
  = match testStage c with
    | idle => ("", "", "")
    | capture_low => ("active", "", "")
    | capture_high => ("done", "active", "")
    | done => ("done", "done", "done")
    end%string.
Proof.
  intros c.
  assert (C : coherent c) by apply coherent_session, coherent_initialUi.
  assert (Staged : forall c0, staged c0 ->
            stepper c0
            = match testStage c0 with
              | idle => ("", "", "")
              | capture_low => ("active", "", "")
              | capture_high => ("done", "active", "")
              | done => ("done", "done", "done")
              end%string).
  { intros c0 [S1 [S2 [S3 S4]]]. unfold stepper. rewrite S2, S3, <- S1.
    destruct (stageRef c0); [contradiction| | |].
    - destruct S4 as [L [H [_ [_ A]]]]. rewrite L, H, A. reflexivity.
    - destruct S4 as [[lo L] [H [_ [_ A]]]]. rewrite L, H, A. reflexivity.
    - destruct S4 as [lo [hi [cl [ch [L [H _]]]]]]. rewrite L, H. reflexivity. }
  destruct C as [N | [S | V]].
  - destruct N as [_ [N2 [N3 N4]]]. unfold stepper. rewrite N2, N3, N4. reflexivity.
  - apply Staged, S.
  - destruct V as [D [A V]]. specialize (Staged _ V).
    destruct V as [V1 _]. fields. rewrite <- V1, D in Staged.
    unfold stepper in *. fields. rewrite <- V1, D in *.
    cbn [TestStage_eqb] in *. exact Staged.
Qed.

(** X17: in every session from the initial state, whenever the View
    Result button is on the page (the result step is awaited), the test is
    done with a complete range, and pressing the button opens the result
    page and takes the button away, leaving the range as it is. *)
Theorem view_result_always_opens log2 es :
  awaitingResultStep (capture (app (session log2 initialUi es))) = true ->
  let u := session log2 initialUi es in
  let u' := goToResultStep u in
  testStage (capture (app u)) = done
  /\ activePage u' = page_Result
  /\ awaitingResultStep (capture (app u')) = false
  /\ rangeResult (capture (app u')) = rangeResult (capture (app u))
  /\ exists lo hi cl ch,
       rangeResult (capture (app u))
       = mkRange (Some lo) (Some hi) (Some cl) (Some ch).
Proof.
  intros A u u'.
  assert (C : coherent (capture (app u)))
    by apply coherent_session, coherent_initialUi.
  fold u in A. unfold u', goToResultStep.
  set (c := capture (app u)) in *.
  destruct C as [N | [S | V]].
  - destruct N as [_ [_ [_ N]]]. congruence.
  - destruct S as [S1 [S2 [S3 S4]]].
    destruct (stageRef c) eqn:Es; try contradiction.
    + destruct S4 as [_ [_ [_ [_ A']]]]. congruence.
    + destruct S4 as [_ [_ [_ [_ A']]]]. congruence.
    + destruct S4 as [lo [hi [cl [ch [L [H [C1 [C2 _]]]]]]]].
      rewrite L in S2. rewrite H in S3. rewrite S2, S3.
      split; [symmetry; exact S1|].
      split; [reflexivity|]. split; [reflexivity|]. split; [reflexivity|].
      exists lo, hi, cl, ch.
      destruct (rangeResult c). cbn in S2, S3, C1, C2. congruence.
  - destruct V as [_ [A' _]]. congruence.
Qed.

Lemma view_result_always_opens_witness :
  let u := session log2_dyadic initialUi fullSession in
  let u' := goToResultStep u in
  awaitingResultStep (capture (app u)) = true
  /\ testStage (capture (app u)) = done
  /\ activePage u' = page_Result
  /\ awaitingResultStep (capture (app u')) = false
  /\ rangeResult (capture (app u')) = rangeResult (capture (app u))
  /\ exists lo hi cl ch,
       rangeResult (capture (app u))
       = mkRange (Some lo) (Some hi) (Some cl) (Some ch).
Proof.
  intros u u'.
  assert (A : awaitingResultStep (capture (app u)) = true)
    by (vm_compute; reflexivity).
  split; [exact A|].
  exact (view_result_always_opens log2_dyadic fullSession A).
Defined.

(** ** Input devices *)

Lemma listsId_In listed deviceId :
  listsId listed deviceId = true <-> In deviceId (map dev_id listed).
Proof.
  unfold listsId. rewrite existsb_exists, in_map_iff.
  split; intros [x [H1 H2]]; exists x.
  - apply String.eqb_eq in H2. split; [exact H2|exact H1].
  - split; [exact H2|apply String.eqb_eq; exact H1].
Qed.

Lemma listsId_first first rest : listsId (first :: rest) (dev_id first) = true.
Proof. unfold listsId. cbn [existsb]. rewrite String.eqb_refl. reflexivity. Qed.

Lemma offered_listInputDevices listed d : offered (listInputDevices listed d).
Proof.
  unfold listInputDevices, offered. destruct listed as [|first rest].
  - cbn. split; reflexivity.
  - cbn [devices selectedDeviceId storedDeviceId]. split; [reflexivity|].
    eexists. split; [reflexivity|].
    destruct (selectedDeviceId d) as [current|]; [|apply listsId_first].
    destruct (truthy current && listsId (first :: rest) current) eqn:E;
      cbn [andb]; [|apply listsId_first].
    apply andb_true_iff in E. destruct E as [E1 E2]. rewrite E1. exact E2.
Qed.

Lemma offered_handleDevice d e : offered d -> offered (handleDevice d e).
Proof.
  intros O. destruct e as [[listed|error]|deviceId]; cbn [handleDevice listOnHome].
  - apply offered_listInputDevices.
  - exact O.
  - destruct (listsId (devices d) deviceId) eqn:E; [|exact O].
    unfold offered, onSelectDevice. cbn [devices selectedDeviceId storedDeviceId].
    split; [reflexivity|].
    destruct (devices d) as [|first rest]; [discriminate E|].
    exists deviceId. split; [reflexivity|exact E].
Qed.

Lemma offered_deviceSession es : forall d, offered d -> offered (deviceSession d es).
Proof.
  induction es as [|e es IH]; intros d O; [exact O|].
  apply (IH (handleDevice d e)), offered_handleDevice, O.
Qed.

(** X20: once the devices have been listed, whatever listings and picks
    follow, the selected device is one of the devices in the list, or the
    list is empty and nothing is selected; and the id kept in local storage
    is always the selected one.  A listing keeps the current selection when
    its id is not empty and still listed, and takes the first device
    otherwise. *)
Theorem selection_is_always_offered listed d0 es :
  let d := deviceSession (listInputDevices listed d0) es in
  storedDeviceId d = selectedDeviceId d
  /\ (devices d = [] -> selectedDeviceId d = None)
  /\ (devices d <> [] ->
      exists deviceId,
        selectedDeviceId d = Some deviceId /\ In deviceId (map dev_id (devices d)))
  /\ (forall current first rest,
        selectedDeviceId d = Some current ->
        selectedDeviceId (listInputDevices (first :: rest) d)
        = Some (if negb (String.eqb current "") && listsId (first :: rest) current
                then current else dev_id first)).
Proof.
  intros d.
  assert (O : offered d)
    by (apply offered_deviceSession, offered_listInputDevices).
  destruct O as [O1 O2].
  split; [exact O1|]. split; [|split].
  - intros E. rewrite E in O2. exact O2.
  - intros N. destruct (devices d) as [|first rest] eqn:E; [contradiction|].
    destruct O2 as [deviceId [S L]]. exists deviceId.
    split; [exact S|apply listsId_In; exact L].
  - intros current first rest S. unfold listInputDevices. rewrite S.
    cbn [selectedDeviceId]. unfold truthy.
    destruct (negb (String.eqb current "")); [|reflexivity].
    cbn [andb]. destruct (listsId (first :: rest) current); reflexivity.
Qed.

(** ** Note names and the piano *)

Lemma noteIndexOf_mod n : noteIndexOf n = (n mod 12)%Z.
Proof. unfold noteIndexOf. Z.to_euclidean_division_equations. lia. Qed.

Lemma semitone_of_index_and_octave n :
  (12 * (octaveOf n + 1) + noteIndexOf n)%Z = n.
Proof.
  rewrite noteIndexOf_mod. unfold octaveOf.
  Z.to_euclidean_division_equations. lia.
Qed.

(** A decimal never starts with a sharp sign. *)
Lemma show_int_head z :
  exists c r, show_int z = String c r /\ Ascii.eqb c "#"%char = false.
Proof.
  unfold show_int. destruct (Z.to_int z) as [u|u].
  - destruct u; cbn; eexists; eexists; split; reflexivity.
  - cbn. eexists. eexists. split; reflexivity.
Qed.

Lemma show_int_read z : NilZero.int_of_string (show_int z) = Some (Z.to_int z).
Proof.
  unfold show_int. apply NilZero.isi; intros H;
    destruct z; unfold Z.to_int in H; try discriminate H;
    injection H as H; exact (DecimalPos.Unsigned.to_uint_nonnil _ H).
Qed.

Lemma semitoneOfName_natural letter base s d :
  naturalIndex letter = Some base ->
  (exists c r, s = String c r /\ Ascii.eqb c "#"%char = false) ->
  NilZero.int_of_string s = Some d ->
  semitoneOfName (String letter s) = Some (12 * (Z.of_int d + 1) + base + 0)%Z.
Proof.
  intros Hb [c [r [E Hc]]] Hd. unfold semitoneOfName. rewrite Hb.
  replace (sharpened s) with (0%Z, s)
    by (rewrite E; unfold sharpened; rewrite Hc; reflexivity).
  cbn [fst snd]. rewrite Hd. reflexivity.
Qed.

Lemma semitoneOfName_sharp letter base s d :
  naturalIndex letter = Some base ->
  NilZero.int_of_string s = Some d ->
  semitoneOfName (String letter (String "#"%char s))
  = Some (12 * (Z.of_int d + 1) + base + 1)%Z.
Proof.
  intros Hb Hd. unfold semitoneOfName. rewrite Hb.
  replace (sharpened (String "#"%char s)) with (1%Z, s) by reflexivity.
  cbn [fst snd]. rewrite Hd. reflexivity.
Qed.

(** Reading back the name of semitone [n] gives [n]. *)
Lemma semitoneOfName_of_name n :
  semitoneOfName (noteNameAt (noteIndexOf n) ++ show_int (octaveOf n)) = Some n.
Proof.
  transitivity (Some (12 * (octaveOf n + 1) + noteIndexOf n)%Z);
    [|f_equal; apply semitone_of_index_and_octave].
  assert (Hi : (0 <= noteIndexOf n < 12)%Z)
    by (rewrite noteIndexOf_mod; apply Z.mod_pos_bound; lia).
  generalize dependent (noteIndexOf n). intros i Hi.
  generalize (octaveOf n). intros o.
  pose proof (show_int_head o) as Hh.
  pose proof (show_int_read o) as Hr.
  assert (Ho : Z.of_int (Z.to_int o) = o) by apply DecimalZ.of_to.
  assert (Cases : (i = 0 \/ i = 1 \/ i = 2 \/ i = 3 \/ i = 4 \/ i = 5 \/ i = 6
                   \/ i = 7 \/ i = 8 \/ i = 9 \/ i = 10 \/ i = 11)%Z) by lia.
  generalize dependent (show_int o). intros s Hh Hr.
  repeat (destruct Cases as [-> | Cases]); try subst i;
    match goal with
    | |- context [noteNameAt ?k] =>
      let name := eval vm_compute in (noteNameAt k) in
      change (noteNameAt k) with name
    end;
    cbn [append];
    match goal with
    | |- semitoneOfName (String ?l (String "#"%char s)) = _ =>
      rewrite (semitoneOfName_sharp l _ s _ eq_refl Hr)
    | |- semitoneOfName (String ?l s) = _ =>
      rewrite (semitoneOfName_natural l _ s _ eq_refl Hh Hr)
    end;
    rewrite Ho; f_equal; lia.
Qed.

(** X21: two pitches get the same note name exactly when they round to the
    same semitone: the name (letter, sharp and octave number) determines
    the rounded midi number, also for pitches below C0 and for negative
    octaves. *)
Theorem note_name_determines_semitone (a b : Q) :
  midiToNoteName a = midiToNoteName b <-> Math_round a = Math_round b.
Proof.
  unfold midiToNoteName. split.
  - intros H.
    pose proof (semitoneOfName_of_name (Math_round a)) as Ha.
    pose proof (semitoneOfName_of_name (Math_round b)) as Hb.
    rewrite H in Ha. congruence.
  - intros H. rewrite H. reflexivity.
Qed.

(** *** Rounding *)

Lemma Qfloor_at_least (z : Z) (x : Q) : inject_Z z <= x -> (z <= Qfloor x)%Z.
Proof.
  intros H. rewrite <- (Qfloor_Z z). apply Qfloor_resp_le, H.
Qed.

Lemma Qfloor_below (z : Z) (x : Q) : x < inject_Z z -> (Qfloor x < z)%Z.
Proof.
  intros H. rewrite Zlt_Qlt.
  apply Qle_lt_trans with (y := x); [apply Qfloor_le|exact H].
Qed.

Lemma Math_round_bounds (x : Q) :
  inject_Z (Math_round x) <= x + 0.5 /\ x + 0.5 < inject_Z (Math_round x) + 1.
Proof.
  unfold Math_round. split; [apply Qfloor_le|].
  pose proof (Qlt_floor (x + 0.5)) as H.
  rewrite inject_Z_plus in H. exact H.
Qed.

Lemma Math_round_le (x y : Q) : x <= y -> (Math_round x <= Math_round y)%Z.
Proof. intros H. unfold Math_round. apply Qfloor_resp_le. lra. Qed.

Lemma Math_round_integer (z : Z) : Math_round (inject_Z z) = z.
Proof.
  unfold Math_round.
  assert (A : (z <= Qfloor (inject_Z z + 0.5))%Z) by (apply Qfloor_at_least; lra).
  assert (B : (Qfloor (inject_Z z + 0.5) < z + 1)%Z).
  { apply Qfloor_below. rewrite inject_Z_plus. change (inject_Z 1) with 1. lra. }
  lia.
Qed.

(** X22: every key of the piano is labelled with the note name that
    [midiToNoteName] gives its midi number, whatever the midi number; the
    piano of the result page has the 36 keys with midi numbers 36 to 71, in
    ascending order. *)
Theorem piano_keys_named_by_midi :
  (forall midi, key_name (pianoKey midi) = midiToNoteName (inject_Z midi))
  /\ map key_midi PIANO_KEYS = map Z.of_nat (seq 36 36)
  /\ Forall (fun key => key_name key = midiToNoteName (inject_Z (key_midi key)))
       PIANO_KEYS.
Proof.
  assert (A : forall midi,
            key_name (pianoKey midi) = midiToNoteName (inject_Z midi)).
  { intros midi. unfold midiToNoteName. rewrite Math_round_integer. reflexivity. }
  split; [exact A|]. split.
  - unfold PIANO_KEYS. rewrite map_map. reflexivity.
  - unfold PIANO_KEYS. apply Forall_map, Forall_forall. intros i _. apply A.
Qed.

Lemma keyClass_highlight lo hi clo chi key :
  (Math_round lo <= Math_round clo)%Z -> (Math_round chi <= Math_round hi)%Z ->
  exists cls,
    keyClass (mkRange (Some lo) (Some hi) (Some clo) (Some chi)) key = Some cls
    /\ (highlighted cls = true
        <-> (Math_round lo <= key_midi key <= Math_round hi)%Z).
Proof.
  intros Hl Hh. unfold keyClass. cbn [lowMidi highMidi comfortLowMidi comfortHighMidi].
  eexists. split; [reflexivity|].
  destruct (Math_round clo <=? key_midi key)%Z eqn:E1;
    destruct (key_midi key <=? Math_round chi)%Z eqn:E2;
    destruct (Math_round lo <=? key_midi key)%Z eqn:E3;
    destruct (key_midi key <=? Math_round hi)%Z eqn:E4;
    destruct (isBlack key);
    cbn [andb];
    try apply Z.leb_le in E1; try apply Z.leb_gt in E1;
    try apply Z.leb_le in E2; try apply Z.leb_gt in E2;
    try apply Z.leb_le in E3; try apply Z.leb_gt in E3;
    try apply Z.leb_le in E4; try apply Z.leb_gt in E4;
    (split; [intros H; first [lia|vm_compute in H; discriminate H]
            |intros H; first [lia|vm_compute; reflexivity]]).
Qed.

(** X23: on the result page of a finished range test, a key of the piano
    is highlighted, as comfort zone or as full range, exactly when its midi
    number lies between the rounded low and the rounded high pitch: the
    comfort zone never highlights a key outside the range. *)
Theorem piano_highlights_exactly_the_range log2 now before ss key :
  stageRef (run log2 (startRangeTest now before) ss) = done ->
  exists lo hi cls,
    lowMidi (rangeResult (run log2 (startRangeTest now before) ss)) = Some lo
    /\ highMidi (rangeResult (run log2 (startRangeTest now before) ss)) = Some hi
    /\ keyClass (rangeResult (run log2 (startRangeTest now before) ss)) key
       = Some cls
    /\ (highlighted cls = true
        <-> (Math_round lo <= key_midi key <= Math_round hi)%Z).
Proof.
  intros E.
  destruct (staged_run log2 ss _ (staged_startRangeTest now before))
    as [_ [S2 [S3 S]]].
  rewrite E in S.
  destruct S as [lo [hi [cl [ch [L [H [C1 [C2 [_ [Ecl [Ech _]]]]]]]]]]].
  rewrite L in S2. rewrite H in S3.
  destruct (rangeResult (run log2 (startRangeTest now before) ss))
    as [rl rh rcl rch].
  cbn [lowMidi highMidi comfortLowMidi comfortHighMidi] in *. subst rl rh rcl rch.
  assert (Hl : (Math_round lo <= Math_round cl)%Z)
    by (apply Math_round_le; rewrite Ecl; apply Q.le_max_l).
  assert (Hh : (Math_round ch <= Math_round hi)%Z)
    by (apply Math_round_le; rewrite Ech; apply Q.le_min_l).
  destruct (keyClass_highlight lo hi cl ch key Hl Hh) as [cls [K1 K2]].
  exists lo, hi, cls. split; [reflexivity|]. split; [reflexivity|].
  split; [exact K1|exact K2].
Qed.

Lemma piano_highlights_exactly_the_range_witness :
  stageRef (run log2_dyadic (startRangeTest 0 initialCapture) plainRange) = done
  /\ exists lo hi cls,
       lowMidi (rangeResult (run log2_dyadic (startRangeTest 0 initialCapture) plainRange))
       = Some lo
       /\ highMidi (rangeResult (run log2_dyadic (startRangeTest 0 initialCapture) plainRange))
          = Some hi
       /\ keyClass (rangeResult (run log2_dyadic (startRangeTest 0 initialCapture) plainRange))
            keyA2 = Some cls
       /\ (highlighted cls = true
           <-> (Math_round lo <= key_midi keyA2 <= Math_round hi)%Z).
Proof.
  split; [vm_compute; reflexivity|].
  apply (piano_highlights_exactly_the_range log2_dyadic 0 initialCapture
           plainRange keyA2).
  vm_compute. reflexivity.
Defined.

(** *** The voice type *)

Lemma Qle_bool_false (a b : Q) : Qle_bool a b = false -> b < a.
Proof.
  intros H. apply Qnot_le_lt. intros L. apply Qle_bool_iff in L. congruence.
Qed.

(** X24: the voice type depends on the centre of the range alone and never
    moves down when the centre moves up: of two ranges, the one whose low
    and high pitch sum to more gets the same voice type or one further up
    in the order bass, baritone, tenor, alto, mezzo-soprano, soprano. *)
Theorem voice_type_rises_with_centre (lo1 hi1 lo2 hi2 : Q) :
  lo1 + hi1 <= lo2 + hi2 ->
  (placeOf (fst (getVoiceType lo1 hi1)) voiceTypes
   <= placeOf (fst (getVoiceType lo2 hi2)) voiceTypes)%nat
  /\ In (fst (getVoiceType lo1 hi1)) voiceTypes.
Proof.
  intros H.
  assert (Hc : (lo1 + hi1) / 2 <= (lo2 + hi2) / 2).
  { unfold Qdiv. apply Qmult_le_compat_r; [exact H|]. unfold Qle. cbn. lia. }
  unfold getVoiceType. cbv zeta.
  generalize dependent ((lo1 + hi1) / 2). intros c1.
  generalize ((lo2 + hi2) / 2). intros c2 Hc.
  generalize (show_int (Math_round (hi1 - lo1))) (show_int (Math_round (hi2 - lo2))).
  intros s1 s2.
  destruct (Qle_bool 60 c1) eqn:A1; [apply Qle_bool_iff in A1|apply Qle_bool_false in A1];
  (destruct (Qle_bool 55 c1) eqn:A2; [apply Qle_bool_iff in A2|apply Qle_bool_false in A2]);
  (destruct (Qle_bool 50 c1) eqn:A3; [apply Qle_bool_iff in A3|apply Qle_bool_false in A3]);
  (destruct (Qle_bool 45 c1) eqn:A4; [apply Qle_bool_iff in A4|apply Qle_bool_false in A4]);
  (destruct (Qle_bool 40 c1) eqn:A5; [apply Qle_bool_iff in A5|apply Qle_bool_false in A5]);
  try (exfalso; lra);
  (destruct (Qle_bool 60 c2) eqn:B1; [apply Qle_bool_iff in B1|apply Qle_bool_false in B1]);
  (destruct (Qle_bool 55 c2) eqn:B2; [apply Qle_bool_iff in B2|apply Qle_bool_false in B2]);
  (destruct (Qle_bool 50 c2) eqn:B3; [apply Qle_bool_iff in B3|apply Qle_bool_false in B3]);
  (destruct (Qle_bool 45 c2) eqn:B4; [apply Qle_bool_iff in B4|apply Qle_bool_false in B4]);
  (destruct (Qle_bool 40 c2) eqn:B5; [apply Qle_bool_iff in B5|apply Qle_bool_false in B5]);
  try (exfalso; lra);
  cbn [fst]; (split; [vm_compute; lia|vm_compute; tauto]).
Qed.

Lemma voice_type_rises_with_centre_witness :
  45 + 57 <= 48 + 64
  /\ (placeOf (fst (getVoiceType 45 57)) voiceTypes
      <= placeOf (fst (getVoiceType 48 64)) voiceTypes)%nat
  /\ In (fst (getVoiceType 45 57)) voiceTypes.
Proof.
  assert (H : 45 + 57 <= 48 + 64) by (vm_compute; discriminate).
  split; [exact H|].
  exact (voice_type_rises_with_centre 45 57 48 64 H).
Defined.

Lemma inject_Z_lt_inv (a b : Z) : inject_Z a < inject_Z b -> (a < b)%Z.
Proof. intros H. rewrite Zlt_Qlt. exact H. Qed.

Lemma rounded_difference (lo hi : Q) :
  (-1 <= Math_round (hi - lo) - (Math_round hi - Math_round lo) <= 1)%Z.
Proof.
  destruct (Math_round_bounds hi) as [H1 H2].
  destruct (Math_round_bounds lo) as [L1 L2].
  destruct (Math_round_bounds (hi - lo)) as [K1 K2].
  set (H := Math_round hi) in *. set (L := Math_round lo) in *.
  set (K := Math_round (hi - lo)) in *.
  assert (A : (K < H - L + 2)%Z).
  { apply inject_Z_lt_inv. unfold Z.sub.
    rewrite !inject_Z_plus, inject_Z_opp. change (inject_Z 2) with 2. lra. }
  assert (B : (H - L - 2 < K)%Z).
  { apply inject_Z_lt_inv. unfold Z.sub.
    rewrite !inject_Z_plus, !inject_Z_opp. change (inject_Z 2) with 2. lra. }
  lia.
Qed.

(** X25: the voice-type card of the result page states the span as the
    rounded difference of the two pitches, the headline states it as the
    difference of the rounded pitches; the two counts never differ by more
    than one semitone, and they do differ for some ranges (45.4 to 57.6:
    12 on the card, 13 in the headline). *)
Theorem span_on_card_within_one_of_headline (lo hi : Q) :
  (exists tail,
     snd (getVoiceType lo hi)
     = (("Your range spans " ++ show_int (Math_round (hi - lo))) ++ tail)%string)
  /\ (-1 <= Math_round (hi - lo) - semitones lo hi <= 1)%Z
  /\ Math_round (57.6 - 45.4) <> semitones 45.4 57.6.
Proof.
  split; [|split].
  - unfold getVoiceType. cbv zeta.
    destruct (Qle_bool 60 _); [eexists; reflexivity|].
    destruct (Qle_bool 55 _); [eexists; reflexivity|].
    destruct (Qle_bool 50 _); [eexists; reflexivity|].
    destruct (Qle_bool 45 _); [eexists; reflexivity|].
    destruct (Qle_bool 40 _); eexists; reflexivity.
  - apply rounded_difference.
  - vm_compute. discriminate.
Qed.

(** ** Loading and showing recommendations *)

Lemma fetchRecommendations_incomplete b r :
  incomplete r ->
  fetchRecommendations b r []
  = match importedSongs b with
    | Ok importedOnly =>
      (Ok (mergeRecommendations [] importedOnly, None), [recommend_imported_songs])
    | Err e => (Err e, [recommend_imported_songs])
    end.
Proof.
  intros H. unfold fetchRecommendations, bind, invoke, ret. cbn.
  destruct (importedSongs b) as [importedOnly|e]; [|reflexivity].
  destruct r as [[lo|] [hi|] [clo|] [chi|]]; cbn; try reflexivity.
  exfalso. destruct H as [H | [H | [H | H]]]; discriminate H.
Qed.

(** X26: when a call that [loadRecommendations] issues is rejected, the
    list of recommendations is emptied, the status reports the rejection,
    and the list is shown collapsed with the bucket filter kept.  This
    holds also when the imported-only query had answered before the ranged
    query was rejected: the imported songs are then not listed. *)
Theorem rejected_query_empties_the_list b r v error :
  rejects b r error ->
  fst (loadRecommendations b r v)
  = mkRecoView (failedToLoad error) [] false (recoFilter v).
Proof.
  intros [E | [importedOnly [lo [hi [clo [chi [Ei [Er Eq]]]]]]]];
    unfold loadRecommendations.
  - assert (F : fetchRecommendations b r [] = (Err error, [recommend_imported_songs])).
    { unfold fetchRecommendations, bind, invoke, ret. cbn. rewrite E. reflexivity. }
    rewrite F. reflexivity.
  - subst r. rewrite fetchRecommendations_complete, Ei.
    destruct Eq as [Ep | [Ep Ef]].
    + rewrite Ep. reflexivity.
    + rewrite Ep, Ef. reflexivity.
Qed.

Lemma rejected_query_empties_the_list_witness :
  rejects lockedBackend scenarioRange "database is locked"
  /\ fst (loadRecommendations lockedBackend scenarioRange scenarioView)
     = mkRecoView (failedToLoad "database is locked") [] false
         (recoFilter scenarioView).
Proof.
  assert (R : rejects lockedBackend scenarioRange "database is locked").
  { right. exists [importedSong], 48, 72, 55, 67.
    split; [reflexivity|]. split; [reflexivity|]. left. reflexivity. }
  split; [exact R|].
  exact (rejected_query_empties_the_list lockedBackend scenarioRange scenarioView
           "database is locked" R).
Defined.

(** The keys after the merge loop, for a [seen] set that holds the keys of
    [merged]: no key is added twice, and the keys are those of [merged]
    and of the imported songs. *)
Lemma mergeImported_keys : forall importedOnly seen merged,
  (forall k, In k seen <-> In k (map songKey merged)) ->
  (NoDup (map songKey merged) ->
   NoDup (map songKey (mergeImported seen merged importedOnly)))
  /\ (forall k,
        In k (map songKey (mergeImported seen merged importedOnly))
        <-> In k (map songKey merged) \/ In k (map songKey importedOnly)).
Proof.
  induction importedOnly as [|s rest IH]; intros seen merged Hseen.
  - cbn [mergeImported map]. split; [exact (fun H => H)|].
    intros k. split; [intros H; left; exact H|intros [H | []]; exact H].
  - cbn [mergeImported map].
    destruct (has seen (songKey s)) eqn:Hs.
    + apply has_In, Hseen in Hs.
      destruct (IH seen merged Hseen) as [IH1 IH2].
      split; [exact IH1|].
      intros k. rewrite IH2. cbn [In]. split.
      * intros [H | H]; [left; exact H|right; right; exact H].
      * intros [H | [H | H]];
          [left; exact H|left; rewrite <- H; exact Hs|right; exact H].
    + assert (Hnew : ~ In (songKey s) (map songKey merged)).
      { intros H. apply Hseen, has_In in H. congruence. }
      assert (Hseen' : forall k, In k (add seen (songKey s))
                                 <-> In k (map songKey (merged ++ [s]))).
      { intros k. unfold add. rewrite map_app, in_app_iff. cbn [In map].
        rewrite Hseen. tauto. }
      destruct (IH (add seen (songKey s)) (merged ++ [s]) Hseen') as [IH1 IH2].
      split.
      * intros Hnd. apply IH1. rewrite map_app. cbn [map].
        apply NoDup_app; [exact Hnd|repeat constructor; intros []|].
        intros a Ha [E | []]. subst a. contradiction.
      * intros k. rewrite IH2, map_app, in_app_iff. cbn [In map]. tauto.
Qed.

(** X27: when a value of the range result is missing and the imported-only
    query answers, [loadRecommendations] issues that query alone, leaves
    the status as it is and lists the imported songs, each title/artist key
    once, the first song of a key standing for it. *)
Theorem incomplete_range_lists_imported_only b r v importedOnly :
  incomplete r ->
  importedSongs b = Ok importedOnly ->
  loadRecommendations b r v
  = (mkRecoView (rv_status v) (mergeRecommendations [] importedOnly) false
       (recoFilter v),
     [recommend_imported_songs])
  /\ NoDup (map songKey (mergeRecommendations [] importedOnly))
  /\ (forall k, In k (map songKey (mergeRecommendations [] importedOnly))
                <-> In k (map songKey importedOnly)).
Proof.
  intros Hr Hi. split.
  - unfold loadRecommendations.
    rewrite (fetchRecommendations_incomplete b r Hr), Hi. reflexivity.
  - destruct (mergeImported_keys importedOnly [] []) as [N K].
    { intros k. reflexivity. }
    split; [apply N; constructor|].
    intros k. unfold mergeRecommendations. cbn [map]. rewrite K. cbn [map In].
    tauto.
Qed.

Lemma incomplete_range_lists_imported_only_witness :
  incomplete lowOnlyRange
  /\ importedSongs scenarioBackend = Ok [importedSong]
  /\ loadRecommendations scenarioBackend lowOnlyRange scenarioView
     = (mkRecoView (rv_status scenarioView) (mergeRecommendations [] [importedSong])
          false (recoFilter scenarioView),
        [recommend_imported_songs]).
Proof.
  assert (Hr : incomplete lowOnlyRange) by (right; left; reflexivity).
  split; [exact Hr|]. split; [reflexivity|].
  exact (proj1 (incomplete_range_lists_imported_only scenarioBackend lowOnlyRange
                  scenarioView [importedSong] Hr eq_refl)).
Defined.

(** X28: when the ranged results carry no title/artist key twice, neither
    does the merged list; and whatever the ranged results, the keys of the
    merged list are exactly the keys of the ranged results together with
    the keys of the imported songs. *)
Theorem merged_keys_unique recs importedOnly :
  (NoDup (map songKey recs) ->
   NoDup (map songKey (mergeRecommendations recs importedOnly)))
  /\ (forall k, In k (map songKey (mergeRecommendations recs importedOnly))
                <-> In k (map songKey recs) \/ In k (map songKey importedOnly)).
Proof.
  unfold mergeRecommendations.
  apply mergeImported_keys. intros k. reflexivity.
Qed.

Lemma unseenImported_seen : forall l seen,
  (forall s, In s l -> has seen (songKey s) = true) -> unseenImported seen l = [].
Proof.
  induction l as [|s l IH]; intros seen H; [reflexivity|].
  cbn [unseenImported].
  destruct (negb (is_imported s)); [apply IH; intros s' Hs'; apply H; right; exact Hs'|].
  rewrite (H s (or_introl eq_refl)).
  apply IH. intros s' Hs'. apply H. right. exact Hs'.
Qed.

Lemma unseenImported_In : forall l seen s,
  In s (unseenImported seen l) -> In s l.
Proof.
  induction l as [|x l IH]; intros seen s H; [exact H|].
  cbn [unseenImported] in H.
  destruct (negb (is_imported x)); [right; exact (IH _ _ H)|].
  destruct (has seen (songKey x)); [right; exact (IH _ _ H)|].
  destruct H as [E | H]; [left; exact E|right; exact (IH _ _ H)].
Qed.

Lemma visibleRecommendations_In v s :
  In s (visibleRecommendations v) -> In s (recommendations v).
Proof.
  unfold visibleRecommendations.
  destruct (showAllRecommendations v); [exact (fun H => H)|].
  intros H. apply in_app_or in H. destruct H as [H | H].
  - rewrite <- (firstn_skipn 5 (recommendations v)). apply in_or_app. left. exact H.
  - exact (unseenImported_In _ _ _ H).
Qed.

(** X29: a list of at most five recommendations is shown whole and in
    order, collapsed or expanded; under the filter "all" that is the list
    on the page. *)
Theorem short_list_shown_whole v :
  (List.length (recommendations v) <= 5)%nat ->
  visibleRecommendations v = recommendations v
  /\ (recoFilter v = "all"%string ->
      filteredRecommendations v = recommendations v).
Proof.
  intros Hlen.
  assert (V : visibleRecommendations v = recommendations v).
  { unfold visibleRecommendations.
    destruct (showAllRecommendations v); [reflexivity|].
    rewrite (firstn_all2 (recommendations v) Hlen).
    rewrite unseenImported_seen; [apply app_nil_r|].
    intros s Hs. apply has_In, in_map, Hs. }
  split; [exact V|].
  intros F. unfold filteredRecommendations. rewrite F, V. reflexivity.
Qed.

Lemma short_list_shown_whole_witness :
  (List.length (recommendations shortView) <= 5)%nat
  /\ visibleRecommendations shortView = recommendations shortView.
Proof.
  assert (H : (List.length (recommendations shortView) <= 5)%nat)
    by (vm_compute; lia).
  split; [exact H|].
  exact (proj1 (short_list_shown_whole shortView H)).
Defined.

Lemma fitBucketClass_bounds score :
  (fitBucketClass score = "great"%string -> 90 <= score)
  /\ (fitBucketClass score = "singable"%string -> 75 <= score < 90)
  /\ (fitBucketClass score = "challenging"%string -> 60 <= score < 75).
Proof.
  unfold fitBucketClass.
  destruct (Qle_bool 90 score) eqn:A;
    [apply Qle_bool_iff in A|apply Qle_bool_false in A];
    [split; [|split]; intros E; try discriminate E; exact A|].
  destruct (Qle_bool 75 score) eqn:B;
    [apply Qle_bool_iff in B|apply Qle_bool_false in B];
    [split; [|split]; intros E; try discriminate E; split; assumption|].
  destruct (Qle_bool 60 score) eqn:C;
    [apply Qle_bool_iff in C|apply Qle_bool_false in C];
    split; [|split| |split]; intros E; try discriminate E; split; assumption.
Qed.

(** X30: every song on the recommendations page is one of the loaded
    recommendations, and under one of the filters "great", "singable" and
    "challenging" its fit score lies in the bucket of the filter: at least
    90, from 75 up to 90, and from 60 up to 75.  A song that scores under
    60 is on the page under "all" only. *)
Theorem filter_shows_only_its_bucket v s :
  In s (filteredRecommendations v) ->
  In s (recommendations v)
  /\ (In (recoFilter v) bucketFilters ->
      60 <= fit_score s
      /\ (recoFilter v = "great"%string -> 90 <= fit_score s)
      /\ (recoFilter v = "singable"%string -> 75 <= fit_score s < 90)
      /\ (recoFilter v = "challenging"%string -> 60 <= fit_score s < 75)).
Proof.
  unfold filteredRecommendations. intros H.
  destruct (String.eqb (recoFilter v) "all") eqn:Eall.
  - split; [apply visibleRecommendations_In, H|].
    apply String.eqb_eq in Eall. rewrite Eall.
    intros [F | [F | [F | []]]]; discriminate F.
  - apply filter_In in H. destruct H as [Hin Hb].
    apply String.eqb_eq in Hb.
    split; [apply visibleRecommendations_In, Hin|].
    destruct (fitBucketClass_bounds (fit_score s)) as [B1 [B2 B3]].
    intros [F | [F | [F | []]]]; rewrite <- F in *.
    + specialize (B1 Hb).
      split; [lra|]. split; [|split]; intros E; try discriminate E; lra.
    + specialize (B2 Hb).
      split; [lra|]. split; [|split]; intros E; try discriminate E; lra.
    + specialize (B3 Hb).
      split; [lra|]. split; [|split]; intros E; try discriminate E; lra.
Qed.

Lemma filter_shows_only_its_bucket_witness :
  In (song "a" "x" 95 false) (filteredRecommendations shortView)
  /\ In (song "a" "x" 95 false) (recommendations shortView)
  /\ 60 <= fit_score (song "a" "x" 95 false).
Proof.
  assert (H : In (song "a" "x" 95 false) (filteredRecommendations shortView))
    by (left; reflexivity).
  split; [exact H|].
  destruct (filter_shows_only_its_bucket shortView (song "a" "x" 95 false) H)
    as [A B].
  split; [exact A|].
  exact (proj1 (B (or_introl eq_refl))).
Defined.

(** ** Callbacks in flight *)

(** Run without a break, the three segments are the callback of the
    polling tick. *)
Lemma pollCallback_segments log2 t a :
  pollCallback log2 t a
  = match callbackStarts a with
    | (a1, None) => a1
    | (a1, Some k) =>
      pitchAnswered log2 (get_pitch_data t) (date_now t)
        (snd (levelAnswered (get_input_level t) k a1))
        (fst (levelAnswered (get_input_level t) k a1))
    end.
Proof.
  unfold pollCallback, callbackStarts, levelAnswered, pitchAnswered.
  destruct a as [cap st il ril ilr rilr pd timer n fl]. cbn.
  destruct fl; [reflexivity|].
  destruct (get_input_level t) as [level|e1];
    destruct (get_pitch_data t) as [pitch|e2]; reflexivity.
Qed.

Lemma pitchAnswered_cases log2 answer now k a :
  pitchAnswered log2 answer now k a
  = match answer with
    | Ok pitch =>
      mkApp (handlePitchSampleForRangeTest log2 now (sampledLevel k)
               (safePitchOf pitch) (capture a))
            (status a) (inputLevel a) (rawInputLevel a) (inputLevelRef a)
            (rawInputLevelRef a) (safePitchOf pitch) (pollTimerRef a) 0%Z false
    | Err _ =>
      if hasAnySuccess k
      then mkApp (capture a) (status a) (inputLevel a) (rawInputLevel a)
             (inputLevelRef a) (rawInputLevelRef a) (pitchData a)
             (pollTimerRef a) 0%Z false
      else if (20 <=? pollErrorCountRef a + 1)%Z
      then stopLevelPolling a
      else mkApp (capture a) (status a) (inputLevel a) (rawInputLevel a)
             (inputLevelRef a) (rawInputLevelRef a) (pitchData a)
             (pollTimerRef a) (pollErrorCountRef a + 1)%Z false
    end.
Proof.
  unfold pitchAnswered.
  destruct a as [cap st il ril ilr rilr pd timer n fl].
  destruct answer as [pitch|e]; cbn; [reflexivity|].
  destruct (hasAnySuccess k); cbn; [reflexivity|].
  destruct (20 <=? n + 1)%Z; reflexivity.
Qed.

(** Whatever callbacks still arrive, a cleared timer stays cleared, the
    status is not written, the failure count stays under the limit, and an
    idle range test stays as it is. *)
Lemma later_keeps log2 a e :
  (pollTimerRef a = None -> pollTimerRef (later log2 a e) = None)
  /\ status (later log2 a e) = status a
  /\ ((0 <= pollErrorCountRef a < 20)%Z ->
      (0 <= pollErrorCountRef (later log2 a e) < 20)%Z)
  /\ (stageRef (capture a) = idle -> capture (later log2 a e) = capture a).
Proof.
  destruct e as [|answer k|answer now k]; cbn [later].
  - unfold callbackStarts.
    destruct (pollTimerRef a) eqn:Et; [|repeat split; auto; lia].
    destruct (pollInFlightRef a); cbn [fst]; app_fields;
      (split; [intros H; discriminate H|repeat split; auto; lia]).
  - unfold levelAnswered. destruct answer as [level|e]; cbn [fst]; app_fields;
      repeat split; auto; lia.
  - rewrite pitchAnswered_cases.
    destruct answer as [pitch|e].
    + app_fields. split; [exact (fun H => H)|]. split; [reflexivity|].
      split; [intros _; lia|].
      intros Hs. unfold handlePitchSampleForRangeTest. rewrite Hs. reflexivity.
    + destruct (hasAnySuccess k);
        [app_fields; split; [exact (fun H => H)|]; split; [reflexivity|];
         split; [intros _; lia|reflexivity]|].
      destruct (20 <=? pollErrorCountRef a + 1)%Z eqn:E.
      * unfold stopLevelPolling. app_fields.
        split; [reflexivity|]. split; [reflexivity|].
        split; [intros _; lia|reflexivity].
      * apply Z.leb_gt in E. app_fields.
        split; [exact (fun H => H)|]. split; [reflexivity|].
        split; [intros H; lia|reflexivity].
Qed.

Lemma laterOn_keeps log2 es : forall a,
  (pollTimerRef a = None -> pollTimerRef (laterOn log2 a es) = None)
  /\ status (laterOn log2 a es) = status a
  /\ ((0 <= pollErrorCountRef a < 20)%Z ->
      (0 <= pollErrorCountRef (laterOn log2 a es) < 20)%Z)
  /\ (stageRef (capture a) = idle -> capture (laterOn log2 a es) = capture a).
Proof.
  induction es as [|e es IH]; intros a;
    [unfold laterOn; cbn [fold_left]; repeat split; auto; lia|].
  change (laterOn log2 a (e :: es)) with (laterOn log2 (later log2 a e) es).
  destruct (later_keeps log2 a e) as [K1 [K2 [K3 K4]]].
  destruct (IH (later log2 a e)) as [I1 [I2 [I3 I4]]].
  split; [intros H; apply I1, K1, H|].
  split; [rewrite I2; exact K2|].
  split; [intros H; apply I3, K3, H|].
  intros H. rewrite I4; [apply K4, H|]. rewrite (K4 H). exact H.
Qed.

(** X14: in a run of the ticks of one polling interval, from
    [startLevelPolling] on, in which each callback runs to its end before
    the next tick fires and no other handler runs in between, the count of
    failed ticks in a row stays between 0 and 19; and once the twentieth
    failure in a row has cleared the timer in such a run (the stream
    indicator is off), both level meters read zero, no pitch is on display
    and the count is zero.  The bounds of the count do not depend on the
    callbacks taking turns: they hold after any sequence of interval
    firings and callback segments, whatever locals the callbacks hold. *)
Theorem stopped_polling_reads_zero log2 timer a0 ts :
  let a := poll log2 (startLevelPolling timer a0) ts in
  (0 <= pollErrorCountRef a < 20)%Z
  /\ (isStreamActive a = false ->
      inputLevel a = 0 /\ rawInputLevel a = 0
      /\ pitchData a = noPitch /\ pollErrorCountRef a = 0%Z)
  /\ (forall es,
      (0 <= pollErrorCountRef (laterOn log2 (startLevelPolling timer a0) es) < 20)%Z).
Proof.
  intros a.
  assert (C : counted a).
  { apply counted_poll. unfold counted, startLevelPolling, stopLevelPolling.
    app_fields. split; [lia|discriminate]. }
  destruct C as [C1 C2]. split; [exact C1|]. split.
  - intros N. apply C2. unfold isStreamActive in N.
    destruct (pollTimerRef a); [discriminate N|reflexivity].
  - intros es.
    destruct (laterOn_keeps log2 es (startLevelPolling timer a0)) as [_ [_ [K _]]].
    apply K. unfold startLevelPolling, stopLevelPolling. app_fields. lia.
Qed.

(** X18: the last segment of a successful [startRangeTest], from the
    answer of [start_stream] on, leaves a fresh range test whatever the
    state before it: the capture state of a test started at that time from
    the initial values, the timer armed, no callback marked in flight, the
    failure count and the level at zero.  It cancels nothing: a callback
    that was suspended at its pitch call when the test was restarted hands
    the fresh test its sample, with the level it read before the restart;
    one whose two calls fail counts as the first failure of the new
    interval; and any callback that ends clears the in-flight mark, also
    the mark of a callback of the new interval. *)
Theorem restart_is_fresh_but_cancels_nothing log2 stop_stream timer now a :
  let fresh := startRangeTest_resumed (Ok tt) timer now a in
  Flow.startRangeTest stop_stream (Ok tt) timer now a
  = startRangeTest_resumed (Ok tt) timer now (stopLevelPolling a)
  /\ capture fresh = startRangeTest now initialCapture
  /\ pollTimerRef fresh = Some timer
  /\ pollInFlightRef fresh = false
  /\ pollErrorCountRef fresh = 0%Z
  /\ rawInputLevelRef fresh = 0
  /\ (forall pitch now' k,
      capture (pitchAnswered log2 (Ok pitch) now' k fresh)
      = feed log2 (startRangeTest now initialCapture)
          (mkSample now' (sampledLevel k) (safePitchOf pitch)))
  /\ (forall error now' level,
      pollErrorCountRef
        (pitchAnswered log2 (Err error) now' (mkSuspended false level) fresh)
      = 1%Z)
  /\ (forall answer now' k b,
      pollInFlightRef (pitchAnswered log2 answer now' k b) = false).
Proof.
  intros fresh.
  split; [reflexivity|]. split; [reflexivity|]. split; [reflexivity|].
  split; [reflexivity|]. split; [reflexivity|]. split; [reflexivity|].
  split; [|split].
  - intros pitch now' k. rewrite pitchAnswered_cases. reflexivity.
  - intros error now' level. rewrite pitchAnswered_cases. reflexivity.
  - intros answer now' k b. rewrite pitchAnswered_cases.
    destruct answer; [reflexivity|].
    destruct (hasAnySuccess k); [reflexivity|].
    destruct (20 <=? pollErrorCountRef b + 1)%Z; reflexivity.
Qed.

(** X19: after the rejection of [start_stream] in [startRangeTest], after
    [stopStream] and after [resetTestFlow], the timer is cleared and stays
    cleared, and the status stays as the handler set it, whatever interval
    firings and callback segments follow: no new callback starts, and a
    callback in flight neither arms the timer nor writes the status.  The
    rejected start and the stop leave the capture state as it was, also
    when stopping itself fails; after the reset the capture state keeps its
    initial values through any callback that still arrives.  A callback in
    flight is not cancelled by the stop: its level answer still moves the
    meter, and its pitch answer still puts the pitch on display and hands
    the sample to the range test. *)
Theorem timer_stays_cleared_after_stop log2 stop_stream error timer now a es :
  let failed := startRangeTest_resumed (Err error) timer now a in
  let stopped := Flow.stopStream stop_stream a in
  let reset := Flow.resetTestFlow stop_stream a in
  (capture failed = capture a
   /\ isStreamActive (laterOn log2 failed es) = false
   /\ status (laterOn log2 failed es)
      = ("Failed to start audio input: " ++ error)%string)
  /\ (capture stopped = capture a
      /\ isStreamActive (laterOn log2 stopped es) = false
      /\ status (laterOn log2 stopped es)
         = match stop_stream with
           | Ok _ => "Audio input stopped"
           | Err e => ("Failed to stop audio input: " ++ e)
           end%string)
  /\ (isStreamActive (laterOn log2 reset es) = false
      /\ capture (laterOn log2 reset es) = initialCapture)
  /\ later log2 stopped Fires = stopped
  /\ (forall pitch now' k,
      pitchData (pitchAnswered log2 (Ok pitch) now' k stopped) = safePitchOf pitch
      /\ capture (pitchAnswered log2 (Ok pitch) now' k stopped)
         = handlePitchSampleForRangeTest log2 now' (sampledLevel k)
             (safePitchOf pitch) (capture a))
  /\ (forall level k,
      rawInputLevel (fst (levelAnswered (Ok level) k stopped)) = safeLevelOf level).
Proof.
  intros failed stopped reset.
  assert (Off : forall b, pollTimerRef b = None ->
                  isStreamActive (laterOn log2 b es) = false).
  { intros b N. unfold isStreamActive.
    rewrite (proj1 (laterOn_keeps log2 es b) N). reflexivity. }
  assert (Ns : pollTimerRef stopped = None)
    by (unfold stopped, Flow.stopStream; destruct stop_stream; reflexivity).
  assert (Cs : capture stopped = capture a)
    by (unfold stopped, Flow.stopStream; destruct stop_stream; reflexivity).
  assert (Nr : pollTimerRef reset = None)
    by (unfold reset, Flow.resetTestFlow, Flow.stopStream;
        destruct stop_stream; reflexivity).
  assert (Cr : capture reset = initialCapture)
    by (unfold reset, Flow.resetTestFlow, Flow.stopStream;
        destruct stop_stream; reflexivity).
  split; [|split; [|split; [|split; [|split]]]].
  - split; [reflexivity|]. split; [apply Off; reflexivity|].
    rewrite (proj1 (proj2 (laterOn_keeps log2 es failed))). reflexivity.
  - split; [exact Cs|]. split; [apply Off, Ns|].
    rewrite (proj1 (proj2 (laterOn_keeps log2 es stopped))).
    unfold stopped, Flow.stopStream. destruct stop_stream; reflexivity.
  - split; [apply Off, Nr|].
    destruct (laterOn_keeps log2 es reset) as [_ [_ [_ K]]].
    rewrite K; [exact Cr|]. rewrite Cr. reflexivity.
  - cbn [later]. rewrite Ns. reflexivity.
  - intros pitch now' k. rewrite pitchAnswered_cases. app_fields.
    rewrite Cs. split; reflexivity.
  - intros level k. unfold levelAnswered. cbn [fst]. app_fields. reflexivity.
Qed.
